(** * Outreach pipeline: lead ledger, idempotent stage runner, stage handlers

    A shallow embedding of the orchestration core of the outreach pipeline
    (src/workers/*.ts, src/api/webhooks-handler.ts, src/queue/index.ts and the
    Prisma migrations).  The durable stores (Lead, Campaign, Event,
    IdempotencyKey tables), the BullMQ queues, the external providers' call
    log and the console are one explicit [World]; every handler is a
    computation in a state-and-exception monad over it.  A thrown exception
    keeps the writes made before it, as the database does. *)

From Stdlib Require Import ZArith String Ascii Bool List.
From stdpp Require Import gmap strings list fin_maps pretty stringmap.

Set Warnings "-register-all".

Open Scope string_scope.
Open Scope Z_scope.
Open Scope list_scope.

(** ** JSON values (Prisma [Json] columns, event metadata) *)

Inductive Json : Type :=
  | JNull
  | JBool (b : bool)
  | JNum (n : Z)
  | JStr (s : string)
  | JArr (items : list Json)
  | JObj (fields : list (string * Json)).

Fixpoint assoc {A : Type} (k : string) (fs : list (string * A)) : option A :=
  match fs with
  | [] => None
  | (k', v) :: rest => if String.eqb k k' then Some v else assoc k rest
  end.

(** [typeof value === "object" && value !== null && !Array.isArray(value)] *)
Definition isJsonObject (value : option Json) : bool :=
  match value with
  | Some (JObj _) => true
  | _ => false
  end.

(** [key in metadata] followed by [metadata[key]], on a JSON object. *)
Definition json_get (k : string) (j : Json) : option Json :=
  match j with
  | JObj fs => assoc k fs
  | _ => None
  end.

Definition jstr_opt (o : option string) : Json :=
  match o with
  | Some s => JStr s
  | None => JNull
  end.

(** ** Enumerations of the schema (migration 20260214000100_init_schema) *)

Inductive CampaignStatus := CREATED | RUNNING | COMPLETE | FAILED.

Inductive LeadStatus :=
  | NEW | SCRAPED | ENRICHED | SITE_GENERATED | IMAGES_READY | DEPLOYED
  | EMAILED_1 | CALLED_1 | REPLIED | BOOKED | DO_NOT_CONTACT.

Inductive EventType :=
  | CAMPAIGN_CREATED | LEAD_SCRAPED | SCRAPE_COMPLETED | LEAD_ENRICHED
  | EV_SITE_GENERATED | EV_IMAGES_READY | EV_DEPLOYED | SITE_DEPLOYED
  | EMAIL_SENT | CALL_PLACED | CALL_RESULT | LEAD_REPLIED | LEAD_BOOKED
  | EV_ERROR.

#[global] Instance LeadStatus_eq_dec : EqDecision LeadStatus.
Proof. solve_decision. Defined.

#[global] Instance EventType_eq_dec : EqDecision EventType.
Proof. solve_decision. Defined.

Definition LeadStatus_name (s : LeadStatus) : string :=
  match s with
  | NEW => "NEW" | SCRAPED => "SCRAPED" | ENRICHED => "ENRICHED"
  | SITE_GENERATED => "SITE_GENERATED" | IMAGES_READY => "IMAGES_READY"
  | DEPLOYED => "DEPLOYED" | EMAILED_1 => "EMAILED_1" | CALLED_1 => "CALLED_1"
  | REPLIED => "REPLIED" | BOOKED => "BOOKED"
  | DO_NOT_CONTACT => "DO_NOT_CONTACT"
  end.

(** ** Rows *)

Record Campaign := mkCampaign {
  c_niche : string;
  c_city : string;
  c_limit : Z;
  c_status : CampaignStatus
}.

Record Lead := mkLead {
  id : string;
  campaignId : string;
  businessName : option string;
  websiteUrl : option string;
  phone : option string;
  email : option string;
  address : option string;
  sourceUrl : option string;
  demoUrl : option string;
  heroImageUrl : option string;
  serviceImageUrls : list string;
  status : LeadStatus;
  doNotContact : bool;
  emailSentCount : Z;
  callAttempts : Z;
  interested : bool;
  booked : bool;
  lastError : option string
}.

Record Event := mkEvent {
  ev_campaignId : string;
  ev_leadId : option string;
  ev_type : EventType;
  ev_metadata : Json
}.

Record IdempotencyKey := mkIdempotencyKey {
  ik_stage : string;
  ik_campaignId : option string;
  ik_leadId : option string;
  ik_result : option Json
}.

(** ** Queue payloads (src/queue/index.ts) *)

(** [step: 1 | 2] and [attempt: 1 | 2] *)
Inductive OneOrTwo := One | Two.

Definition num (n : OneOrTwo) : Z :=
  match n with One => 1 | Two => 2 end.

(** [String(step)] and the template-literal rendering of the number *)
Definition num_str (n : OneOrTwo) : string :=
  match n with One => "1" | Two => "2" end.

Inductive JobData :=
  | ScrapeJob (campaign : string)
  | EnrichJob (leadId : string)
  | SiteJob (leadId : string)
  | ImageJob (leadId : string)
  | DeployJob (leadId : string)
  | EmailJob (leadId : string) (step : OneOrTwo)
  | CallJob (leadId : string) (attempt : OneOrTwo).

Record QueuedJob := mkQueuedJob {
  job_name : string;
  job_data : JobData;
  job_delay : option Z
}.

(** ** External provider inputs *)

Record EmailSendInput := mkEmailSendInput {
  em_to : string;
  em_subject : string;
  em_html : string;
  em_text : string;
  em_headers : list (string * string)
}.

Record PlaceCallInput := mkPlaceCallInput {
  pc_to : string;
  pc_script : string;
  pc_callbackUrl : string
}.

Inductive ProviderAction :=
  | SentEmail (input : EmailSendInput)
  | PlacedCall (input : PlaceCallInput).

Record ImagePool := mkImagePool {
  heroImages : list string;
  serviceImages : list string
}.

(** ** The world

    The four tables, the jobs added to the BullMQ queues (in order of
    addition), the calls made to the email and call providers (whether or not
    they returned), the image worker's module-level [imagePoolCache] and the
    console. *)

Record World := mkWorld {
  leads : list Lead;
  campaigns : gmap string Campaign;
  events : list Event;
  idempotencyKeys : gmap string IdempotencyKey;
  jobs : list QueuedJob;
  outbox : list ProviderAction;
  imagePoolCache : gmap string ImagePool;
  console : list string
}.

Definition set_leads (f : list Lead → list Lead) (w : World) : World :=
  mkWorld (f (leads w)) (campaigns w) (events w) (idempotencyKeys w)
          (jobs w) (outbox w) (imagePoolCache w) (console w).

Definition set_campaigns (f : gmap string Campaign → gmap string Campaign) (w : World) : World :=
  mkWorld (leads w) (f (campaigns w)) (events w) (idempotencyKeys w)
          (jobs w) (outbox w) (imagePoolCache w) (console w).

Definition set_events (f : list Event → list Event) (w : World) : World :=
  mkWorld (leads w) (campaigns w) (f (events w)) (idempotencyKeys w)
          (jobs w) (outbox w) (imagePoolCache w) (console w).

Definition set_idempotencyKeys
    (f : gmap string IdempotencyKey → gmap string IdempotencyKey) (w : World) : World :=
  mkWorld (leads w) (campaigns w) (events w) (f (idempotencyKeys w))
          (jobs w) (outbox w) (imagePoolCache w) (console w).

Definition set_jobs (f : list QueuedJob → list QueuedJob) (w : World) : World :=
  mkWorld (leads w) (campaigns w) (events w) (idempotencyKeys w)
          (f (jobs w)) (outbox w) (imagePoolCache w) (console w).

Definition set_outbox (f : list ProviderAction → list ProviderAction) (w : World) : World :=
  mkWorld (leads w) (campaigns w) (events w) (idempotencyKeys w)
          (jobs w) (f (outbox w)) (imagePoolCache w) (console w).

Definition set_imagePoolCache
    (f : gmap string ImagePool → gmap string ImagePool) (w : World) : World :=
  mkWorld (leads w) (campaigns w) (events w) (idempotencyKeys w)
          (jobs w) (outbox w) (f (imagePoolCache w)) (console w).

Definition set_console (f : list string → list string) (w : World) : World :=
  mkWorld (leads w) (campaigns w) (events w) (idempotencyKeys w)
          (jobs w) (outbox w) (imagePoolCache w) (f (console w)).

(** ** State-and-exception monad *)

Inductive Result (A : Type) : Type :=
  | Ok (a : A)
  | Throw (message : string).
Arguments Ok {A} a.
Arguments Throw {A} message.

Definition M (A : Type) : Type := World → Result A * World.

Definition ret {A} (a : A) : M A := fun w => (Ok a, w).

Definition throw {A} (message : string) : M A := fun w => (Throw message, w).

Definition bind {A B} (m : M A) (k : A → M B) : M B :=
  fun w =>
    match m w with
    | (Ok a, w') => k a w'
    | (Throw e, w') => (Throw e, w')
    end.

(** [try { m } catch (error) { h error }] *)
Definition try_catch {A} (m : M A) (h : string → M A) : M A :=
  fun w =>
    match m w with
    | (Ok a, w') => (Ok a, w')
    | (Throw e, w') => h e w'
    end.

Definition liftR {A} (r : Result A) : M A := fun w => (r, w).

Definition gets {A} (f : World → A) : M A := fun w => (Ok (f w), w).

Definition modify (f : World → World) : M unit := fun w => (Ok tt, f w).

Declare Scope m_scope.
Delimit Scope m_scope with m.
Notation "x <- m ;; k" := (bind m (fun x => k))
  (at level 100, m at next level, right associativity) : m_scope.
Notation "m ;; k" := (bind m (fun _ => k))
  (at level 100, right associativity) : m_scope.
Open Scope m_scope.

Definition console_log (line : string) : M unit :=
  modify (set_console (fun c => c ++ [line])).

(** [`[${campaignId}][${leadId}][${workerName}] ${message}`] *)
Definition logLine (campaign lead worker message : string) : string :=
  "[" +:+ campaign +:+ "][" +:+ lead +:+ "][" +:+ worker +:+ "] " +:+ message.

Definition logMessage (worker campaign lead message : string) : M unit :=
  console_log (logLine campaign lead worker message).

(** ** Strings

    A string holds the UTF-8 encoding of the JavaScript string (an unpaired
    surrogate by the three bytes of its code point).  [toLowerCase] below
    acts on the ASCII range, which is where the handlers compare its result
    with a constant; [utf16Units] gives the UTF-16 code units, which [length]
    counts and [charCodeAt] reads. *)

Definition lower_ascii (c : ascii) : ascii :=
  let n := nat_of_ascii c in
  if (Nat.leb 65 n && Nat.leb n 90)%bool then ascii_of_nat (n + 32) else c.

Fixpoint toLowerCase (s : string) : string :=
  match s with
  | EmptyString => EmptyString
  | String c rest => String (lower_ascii c) (toLowerCase rest)
  end.

(** [text.includes(phrase)] *)
Fixpoint includes (text phrase : string) : bool :=
  if String.prefix phrase text then true
  else match text with
       | EmptyString => false
       | String _ rest => includes rest phrase
       end.

(** JS truthiness of a [string | null] value: non-null and non-empty. *)
Definition truthy (o : option string) : bool :=
  match o with
  | Some (String _ _) => true
  | _ => false
  end.

Fixpoint join (sep : string) (parts : list string) : string :=
  match parts with
  | [] => ""
  | [x] => x
  | x :: rest => x +:+ sep +:+ join sep rest
  end.

(** The code points of a UTF-8 byte sequence: [pending] holds the bits read
    so far of a multi-byte character and [need] the number of continuation
    bytes (128..191) still to come.  A lead byte 192..223 opens a two-byte
    character, 224..239 a three-byte one, 240..247 a four-byte one. *)
Fixpoint decodeUtf8 (pending : Z) (need : nat) (bytes : list Z) : list Z :=
  match bytes with
  | [] => []
  | b :: rest =>
      if b <? 128 then b :: decodeUtf8 0 0 rest
      else if b <? 192 then
        match need with
        | O => decodeUtf8 0 0 rest
        | S O => (pending * 64 + (b - 128)) :: decodeUtf8 0 0 rest
        | S n => decodeUtf8 (pending * 64 + (b - 128)) n rest
        end
      else if b <? 224 then decodeUtf8 (b - 192) 1 rest
      else if b <? 240 then decodeUtf8 (b - 224) 2 rest
      else decodeUtf8 (b - 240) 3 rest
  end.

(** A code point above U+FFFF is a pair of surrogates in UTF-16. *)
Definition codeUnits (codePoint : Z) : list Z :=
  if codePoint <? 65536 then [codePoint]
  else [55296 + (codePoint - 65536) / 1024; 56320 + (codePoint - 65536) mod 1024].

Definition utf16Units (s : string) : list Z :=
  flat_map codeUnits
    (decodeUtf8 0 0 (map (fun c => Z.of_nat (nat_of_ascii c)) (list_ascii_of_string s))).

(** [value.length] *)
Definition utf16Length (s : string) : Z := Z.of_nat (length (utf16Units s)).

(** ** Lead ledger (prisma.lead) *)

(** One entry of a Prisma [data] object of [lead.update]. *)
Inductive LeadField :=
  | SetBusinessName (v : option string)
  | SetPhone (v : option string)
  | SetEmail (v : option string)
  | SetAddress (v : option string)
  | SetSourceUrl (v : option string)
  | SetDemoUrl (v : option string)
  | SetHeroImageUrl (v : option string)
  | SetServiceImageUrls (v : list string)
  | SetStatus (v : LeadStatus)
  | SetDoNotContact (v : bool)
  | IncEmailSentCount (by_ : Z)
  | IncCallAttempts (by_ : Z)
  | SetLastError (v : option string).

Definition applyField (f : LeadField) (l : Lead) : Lead :=
  match f with
  | SetBusinessName v =>
      mkLead (id l) (campaignId l) v (websiteUrl l) (phone l) (email l) (address l)
        (sourceUrl l) (demoUrl l) (heroImageUrl l) (serviceImageUrls l) (status l)
        (doNotContact l) (emailSentCount l) (callAttempts l) (interested l) (booked l)
        (lastError l)
  | SetPhone v =>
      mkLead (id l) (campaignId l) (businessName l) (websiteUrl l) v (email l) (address l)
        (sourceUrl l) (demoUrl l) (heroImageUrl l) (serviceImageUrls l) (status l)
        (doNotContact l) (emailSentCount l) (callAttempts l) (interested l) (booked l)
        (lastError l)
  | SetEmail v =>
      mkLead (id l) (campaignId l) (businessName l) (websiteUrl l) (phone l) v (address l)
        (sourceUrl l) (demoUrl l) (heroImageUrl l) (serviceImageUrls l) (status l)
        (doNotContact l) (emailSentCount l) (callAttempts l) (interested l) (booked l)
        (lastError l)
  | SetAddress v =>
      mkLead (id l) (campaignId l) (businessName l) (websiteUrl l) (phone l) (email l) v
        (sourceUrl l) (demoUrl l) (heroImageUrl l) (serviceImageUrls l) (status l)
        (doNotContact l) (emailSentCount l) (callAttempts l) (interested l) (booked l)
        (lastError l)
  | SetSourceUrl v =>
      mkLead (id l) (campaignId l) (businessName l) (websiteUrl l) (phone l) (email l)
        (address l) v (demoUrl l) (heroImageUrl l) (serviceImageUrls l) (status l)
        (doNotContact l) (emailSentCount l) (callAttempts l) (interested l) (booked l)
        (lastError l)
  | SetDemoUrl v =>
      mkLead (id l) (campaignId l) (businessName l) (websiteUrl l) (phone l) (email l)
        (address l) (sourceUrl l) v (heroImageUrl l) (serviceImageUrls l) (status l)
        (doNotContact l) (emailSentCount l) (callAttempts l) (interested l) (booked l)
        (lastError l)
  | SetHeroImageUrl v =>
      mkLead (id l) (campaignId l) (businessName l) (websiteUrl l) (phone l) (email l)
        (address l) (sourceUrl l) (demoUrl l) v (serviceImageUrls l) (status l)
        (doNotContact l) (emailSentCount l) (callAttempts l) (interested l) (booked l)
        (lastError l)
  | SetServiceImageUrls v =>
      mkLead (id l) (campaignId l) (businessName l) (websiteUrl l) (phone l) (email l)
        (address l) (sourceUrl l) (demoUrl l) (heroImageUrl l) v (status l)
        (doNotContact l) (emailSentCount l) (callAttempts l) (interested l) (booked l)
        (lastError l)
  | SetStatus v =>
      mkLead (id l) (campaignId l) (businessName l) (websiteUrl l) (phone l) (email l)
        (address l) (sourceUrl l) (demoUrl l) (heroImageUrl l) (serviceImageUrls l) v
        (doNotContact l) (emailSentCount l) (callAttempts l) (interested l) (booked l)
        (lastError l)
  | SetDoNotContact v =>
      mkLead (id l) (campaignId l) (businessName l) (websiteUrl l) (phone l) (email l)
        (address l) (sourceUrl l) (demoUrl l) (heroImageUrl l) (serviceImageUrls l)
        (status l) v (emailSentCount l) (callAttempts l) (interested l) (booked l)
        (lastError l)
  | IncEmailSentCount n =>
      mkLead (id l) (campaignId l) (businessName l) (websiteUrl l) (phone l) (email l)
        (address l) (sourceUrl l) (demoUrl l) (heroImageUrl l) (serviceImageUrls l)
        (status l) (doNotContact l) (emailSentCount l + n) (callAttempts l) (interested l)
        (booked l) (lastError l)
  | IncCallAttempts n =>
      mkLead (id l) (campaignId l) (businessName l) (websiteUrl l) (phone l) (email l)
        (address l) (sourceUrl l) (demoUrl l) (heroImageUrl l) (serviceImageUrls l)
        (status l) (doNotContact l) (emailSentCount l) (callAttempts l + n) (interested l)
        (booked l) (lastError l)
  | SetLastError v =>
      mkLead (id l) (campaignId l) (businessName l) (websiteUrl l) (phone l) (email l)
        (address l) (sourceUrl l) (demoUrl l) (heroImageUrl l) (serviceImageUrls l)
        (status l) (doNotContact l) (emailSentCount l) (callAttempts l) (interested l)
        (booked l) v
  end.

Definition applyData (data : list LeadField) (l : Lead) : Lead :=
  fold_left (fun acc f => applyField f acc) data l.

Definition hasId (k : string) (l : Lead) : bool := String.eqb (id l) k.

(** The unique index [Lead_campaignId_websiteUrl_key]. *)
Definition onSite (c u : string) (l : Lead) : bool :=
  String.eqb (campaignId l) c
  && match websiteUrl l with
     | Some u' => String.eqb u' u
     | None => false
     end.

(** Foreign keys of the migrations: a row may only reference a campaign and
    a lead that exist. *)
Definition campaignExists (c : string) (w : World) : bool :=
  match campaigns w !! c with
  | Some _ => true
  | None => false
  end.

Definition leadExists (k : string) (w : World) : bool := existsb (hasId k) (leads w).

Definition refsOk (c : option string) (l : option string) (w : World) : bool :=
  match c with
  | Some c => campaignExists c w
  | None => true
  end
  && match l with
     | Some l => leadExists l w
     | None => true
     end.

Definition lead_findUnique (k : string) : M (option Lead) :=
  gets (fun w => find (hasId k) (leads w)).

Definition updateRows (k : string) (data : list LeadField) (rows : list Lead) : list Lead :=
  map (fun l => if hasId k l then applyData data l else l) rows.

Definition lead_update (k : string) (data : list LeadField) : M Lead :=
  fun w =>
    match find (hasId k) (leads w) with
    | Some l => (Ok (applyData data l), set_leads (updateRows k data) w)
    | None => (Throw "Record to update not found.", w)
    end.

(** A new primary key ([@default(cuid())]): any id not yet in the table. *)
Definition newLeadId (rows : list Lead) : string :=
  fresh_string_of_set "lead" (list_to_set (map id rows)).

(** The columns a [lead.create] of this code base supplies; the others take
    their schema defaults. *)
Record LeadCreate := mkLeadCreate {
  lc_campaignId : string;
  lc_businessName : option string;
  lc_websiteUrl : option string;
  lc_phone : option string;
  lc_email : option string;
  lc_address : option string;
  lc_sourceUrl : option string;
  lc_status : LeadStatus
}.

Definition newLead (k : string) (d : LeadCreate) : Lead :=
  mkLead k (lc_campaignId d) (lc_businessName d) (lc_websiteUrl d) (lc_phone d)
    (lc_email d) (lc_address d) (lc_sourceUrl d) None None [] (lc_status d)
    false 0 0 false false None.

Definition violatesSiteIndex (d : LeadCreate) (rows : list Lead) : bool :=
  match lc_websiteUrl d with
  | Some u => existsb (onSite (lc_campaignId d) u) rows
  | None => false
  end.

Definition lead_create (d : LeadCreate) : M Lead :=
  fun w =>
    if negb (campaignExists (lc_campaignId d) w) then
      (Throw "Foreign key constraint violated: `Lead_campaignId_fkey`", w)
    else if violatesSiteIndex d (leads w) then
      (Throw "Unique constraint failed on the fields: (`campaignId`,`websiteUrl`)", w)
    else
      let l := newLead (newLeadId (leads w)) d in
      (Ok l, set_leads (fun rows => rows ++ [l]) w).

(** [prisma.lead.upsert] on the compound unique key. *)
Definition lead_upsert (c u : string) (update : list LeadField) (create : LeadCreate) : M Lead :=
  existing <- gets (fun w => find (onSite c u) (leads w)) ;;
  match existing with
  | Some l => lead_update (id l) update
  | None => lead_create create
  end.

Definition campaign_findUnique (k : string) : M (option Campaign) :=
  gets (fun w => campaigns w !! k).

Definition campaign_setStatus (k : string) (s : CampaignStatus) : M unit :=
  fun w =>
    match campaigns w !! k with
    | Some c =>
        (Ok tt,
         set_campaigns (insert k (mkCampaign (c_niche c) (c_city c) (c_limit c) s)) w)
    | None => (Throw "Record to update not found.", w)
    end.

(** ** Event log (prisma.event): append-only, in creation order *)

Definition event_create (c : string) (l : option string) (t : EventType) (metadata : Json)
    : M unit :=
  fun w =>
    if refsOk (Some c) l w then
      (Ok tt, set_events (fun es => es ++ [mkEvent c l t metadata]) w)
    else (Throw "Foreign key constraint violated on the table `Event`", w).

Definition eventMatches (c l : string) (t : EventType) (e : Event) : bool :=
  String.eqb (ev_campaignId e) c
  && match ev_leadId e with
     | Some l' => String.eqb l' l
     | None => false
     end
  && bool_decide (ev_type e = t).

(** [findFirst]/[findMany take 1] with [orderBy: { createdAt: "desc" }]. *)
Definition event_findLatest (c l : string) (t : EventType) : M (option Event) :=
  gets (fun w => find (eventMatches c l t) (rev (events w))).

(** ** Queues (src/queue/index.ts) *)

Definition queue_add (name : string) (data : JobData) (delay : option Z) : M unit :=
  modify (set_jobs (fun q => q ++ [mkQueuedJob name data delay])).

Definition enqueueScrape (c : string) := queue_add "scrape-leads" (ScrapeJob c) None.
Definition enqueueEnrich (l : string) := queue_add "enrich-lead" (EnrichJob l) None.
Definition enqueueSite (l : string) := queue_add "generate-site" (SiteJob l) None.
Definition enqueueImage (l : string) := queue_add "prepare-images" (ImageJob l) None.
Definition enqueueDeploy (l : string) := queue_add "deploy-site" (DeployJob l) None.
Definition enqueueEmail (l : string) (step : OneOrTwo) :=
  queue_add "send-email" (EmailJob l step) None.

(** ** Idempotency store (prisma.idempotencyKey) *)

Definition idem_findUnique (key : string) : M (option IdempotencyKey) :=
  gets (fun w => idempotencyKeys w !! key).

(** [create] fails on the primary key when the row is already there, and on
    the foreign keys when the campaign or lead is not. *)
Definition idem_create (key : string) (row : IdempotencyKey) : M unit :=
  fun w =>
    match idempotencyKeys w !! key with
    | Some _ => (Throw "Unique constraint failed on the fields: (`key`)", w)
    | None =>
        if refsOk (ik_campaignId row) (ik_leadId row) w then
          (Ok tt, set_idempotencyKeys (insert key row) w)
        else (Throw "Foreign key constraint violated on the table `IdempotencyKey`", w)
    end.

Definition set_result (r : Json) (row : IdempotencyKey) : IdempotencyKey :=
  mkIdempotencyKey (ik_stage row) (ik_campaignId row) (ik_leadId row) (Some r).

Definition idem_update (key : string) (r : Json) : M unit :=
  fun w =>
    match idempotencyKeys w !! key with
    | Some row => (Ok tt, set_idempotencyKeys (insert key (set_result r row)) w)
    | None => (Throw "Record to update not found.", w)
    end.

Definition idem_delete (key : string) : M unit :=
  fun w =>
    match idempotencyKeys w !! key with
    | Some _ => (Ok tt, set_idempotencyKeys (delete key) w)
    | None => (Throw "Record to delete does not exist.", w)
    end.

(** ** Stage runner (src/workers/base-worker.ts) *)

Record RunIdempotentStageInput := mkRunInput {
  ri_key : string;
  ri_stage : string;
  ri_campaignId : string;
  ri_leadId : string;
  ri_workerName : string;
  ri_run : M Json
}.

Record RunIdempotentStageOutput := mkRunOutput {
  executed : bool;
  result : Json
}.

(** The test [isJsonObject(metadata) && "value" in metadata], returning the
    cached [metadata.value ?? null] when it passes. *)
Definition committedValue (metadata : option Json) : option Json :=
  if isJsonObject metadata then
    match metadata with
    | Some j => json_get "value" j
    | None => None
    end
  else None.

Definition runIdempotentStage (input : RunIdempotentStageInput) : M RunIdempotentStageOutput :=
  existing <- idem_findUnique (ri_key input) ;;
  match existing with
  | Some row =>
      match committedValue (ik_result row) with
      | Some value => ret (mkRunOutput false value)
      | None =>
          console_log
            (logLine (ri_campaignId input) (ri_leadId input) (ri_workerName input)
               ("idempotency hit for key=" +:+ ri_key input
                  +:+ " (in-flight/unknown), skipping")) ;;
          ret (mkRunOutput false JNull)
      end
  | None =>
      idem_create (ri_key input)
        (mkIdempotencyKey (ri_stage input) (Some (ri_campaignId input))
           (Some (ri_leadId input)) None) ;;
      try_catch
        (r <- ri_run input ;;
         idem_update (ri_key input) (JObj [("value", r)]) ;;
         ret (mkRunOutput true r))
        (fun error =>
           idem_delete (ri_key input) ;;
           throw error)
  end.

(** The claim row inserted before the stage body runs, and the row once the
    result is committed. *)
Definition claimRow (input : RunIdempotentStageInput) : IdempotencyKey :=
  mkIdempotencyKey (ri_stage input) (Some (ri_campaignId input))
    (Some (ri_leadId input)) None.

Definition committedRow (input : RunIdempotentStageInput) (r : Json) : IdempotencyKey :=
  set_result (JObj [("value", r)]) (claimRow input).

Definition inFlightLine (input : RunIdempotentStageInput) : string :=
  logLine (ri_campaignId input) (ri_leadId input) (ri_workerName input)
    ("idempotency hit for key=" +:+ ri_key input +:+ " (in-flight/unknown), skipping").


(** ** External collaborators

    Everything the handlers reach outside the stores: the listings source,
    HTTP fetch and the HTML/URL/regex libraries of the enricher, the site
    builder, the image, deploy, email and call providers, and the one
    environment variable the handlers read. A provider that throws returns
    [Throw]. The email and call providers see the calls made before
    (their ids differ from call to call). *)

Record ListingRecord := mkListing {
  li_businessName : string;
  li_websiteUrl : option string;
  li_phone : option string;
  li_email : option string;
  li_address : option string;
  li_sourceUrl : option string
}.

Record FetchResponse := mkFetchResponse {
  resp_ok : bool;
  resp_contentType : option string;
  resp_body : string
}.

Record GenerateSiteInput := mkGenerateSiteInput {
  gs_leadId : string;
  gs_businessName : string;
  gs_city : string;
  gs_services : list string;
  gs_phone : option string;
  gs_email : option string
}.

Record GenerateSiteOutput := mkGenerateSiteOutput {
  zipPath : string;
  summary : string
}.

Record Providers := mkProviders {
  (** [scrapeListings(niche, city, limit)] of the selected listings provider *)
  listingsProvider : string → string → Z → Result (list ListingRecord);
  (** [fetch(url)] with its body read; [None] when it rejects (network error,
      abort at the timeout) *)
  fetch : string → option FetchResponse;
  (** [load(html).root().text().replace(/\s+/g, " ").trim()] *)
  htmlText : string → string;
  (** [toAbsoluteUrl(baseUrl, path)]; [new URL] throws on an invalid URL *)
  toAbsoluteUrl : string → string → Result string;
  bestGuessPhone : string → option string;
  bestGuessEmail : string → option string;
  (** the cleaned heading and nav texts of one page that pass the filters of
      [extractServiceKeywords], in document order *)
  headingKeywords : string → list string;
  generateSite : GenerateSiteInput → Result GenerateSiteOutput;
  (** [imageProvider.generate(prompt, aspectRatio)] *)
  generateImage : string → string → Result string;
  injectImageUrls : string → option string → list string → Result string;
  (** [resolveDeployProvider().deploy(zipPath, projectName)], giving the url *)
  deploy : string → string → Result string;
  (** [emailProvider.sendEmail(input)], giving the message id *)
  sendEmail : list ProviderAction → EmailSendInput → Result string;
  (** [callProvider.placeCall(input)], giving the call id *)
  placeCall : list ProviderAction → PlaceCallInput → Result string;
  env_CALL_WEBHOOK_BASE_URL : option string;
  (** [String.prototype.toLowerCase] and [String.prototype.trim] of the
      runtime on text a user supplied: they follow its Unicode tables *)
  unicodeToLowerCase : string → string;
  unicodeTrim : string → string
}.

(** ** Scrape stage (src/workers/scraper.ts) *)

Definition upsertLeadFromListing (c : string) (listing : ListingRecord) : M Lead :=
  match li_websiteUrl listing with
  | Some (String _ _ as u) =>
      lead_upsert c u
        [ SetBusinessName (Some (li_businessName listing));
          SetPhone (li_phone listing);
          SetEmail (li_email listing);
          SetAddress (li_address listing);
          SetSourceUrl (li_sourceUrl listing);
          SetStatus SCRAPED;
          SetLastError None ]
        (mkLeadCreate c (Some (li_businessName listing)) (Some u) (li_phone listing)
           (li_email listing) (li_address listing) (li_sourceUrl listing) SCRAPED)
  | _ =>
      lead_create
        (mkLeadCreate c (Some (li_businessName listing)) None (li_phone listing)
           (li_email listing) (li_address listing) (li_sourceUrl listing) SCRAPED)
  end.

(** The body of the [for (const listing of listings)] loop: [true] when the
    lead was stored and queued, [false] when the [catch] ran. *)
Definition scrapeOne (c : string) (listing : ListingRecord) : M bool :=
  try_catch
    (lead <- upsertLeadFromListing c listing ;;
     event_create c (Some (id lead)) LEAD_SCRAPED
       (JObj [("websiteUrl", jstr_opt (li_websiteUrl listing));
              ("sourceUrl", jstr_opt (li_sourceUrl listing))]) ;;
     enqueueEnrich (id lead) ;;
     logMessage "scraper" c (id lead) "scraped and queued for enrichment" ;;
     ret true)
    (fun details =>
       logMessage "scraper" c "-"
         ("lead failed: " +:+ li_businessName listing +:+ " (" +:+ details +:+ ")") ;;
       ret false).

Fixpoint scrapeLoop (c : string) (listings : list ListingRecord) (successCount failureCount : Z)
    : M (Z * Z) :=
  match listings with
  | [] => ret (successCount, failureCount)
  | listing :: rest =>
      stored <- scrapeOne c listing ;;
      if stored : bool then scrapeLoop c rest (successCount + 1) failureCount
      else scrapeLoop c rest successCount (failureCount + 1)
  end.

Definition processScrapeJob (P : Providers) (c : string) : M unit :=
  logMessage "scraper" c "-" "starting scrape batch" ;;
  campaign <- campaign_findUnique c ;;
  match campaign with
  | None => throw ("Campaign not found: " +:+ c)
  | Some campaign =>
      listings <- liftR (listingsProvider P (c_niche campaign) (c_city campaign)
                           (c_limit campaign)) ;;
      counts <- scrapeLoop c listings 0 0 ;;
      campaign_setStatus c RUNNING ;;
      logMessage "scraper" c "-"
        ("batch completed: " +:+ pretty (fst counts) +:+ " succeeded, "
           +:+ pretty (snd counts) +:+ " failed")
  end.

(** ** Enrich stage (src/workers/enricher.ts) *)

Record PageResult := mkPageResult {
  pg_url : string;
  pg_html : string;
  pg_text : string
}.

Record ExtractionSummary := mkExtractionSummary {
  ex_phone : option string;
  ex_email : option string;
  ex_serviceKeywords : list string;
  ex_claims : list string;
  ex_pagesVisited : list string
}.

(** [/^https?:\/\//i.test(url)] *)
Definition withHttpProtocol (url : string) : string :=
  if String.prefix "http://" (toLowerCase url) || String.prefix "https://" (toLowerCase url)
  then url
  else "https://" +:+ url.

Definition safeFetchHtml (P : Providers) (url : string) : option PageResult :=
  match fetch P url with
  | None => None
  | Some response =>
      if negb (resp_ok response) then None
      else if negb (includes (default "" (resp_contentType response)) "text/html") then None
      else Some (mkPageResult url (resp_body response) (htmlText P (resp_body response)))
  end.

(** Insertion into a JS [Set]: first occurrence wins, order kept. *)
Fixpoint addAll (seen : list string) (xs : list string) : list string :=
  match xs with
  | [] => seen
  | x :: rest =>
      if existsb (String.eqb x) seen then addAll seen rest else addAll (seen ++ [x]) rest
  end.

Definition extractServiceKeywords (P : Providers) (htmlList : list string) : list string :=
  firstn 8 (fold_left (fun keywords html => addAll keywords (headingKeywords P html)) htmlList []).

Definition extractClaims (text : string) : list string :=
  let lowered := toLowerCase text in
  (if includes lowered "licensed" then ["licensed"] else [])
  ++ (if includes lowered "insured" then ["insured"] else [])
  ++ (if includes lowered "free estimate" || includes lowered "free estimates"
      then ["free estimates"] else []).

(** The crawl touches no store: it is a function of the site's answers. *)
Definition crawlLeadWebsite (P : Providers) (website : string) : Result ExtractionSummary :=
  let normalizedBaseUrl := withHttpProtocol website in
  match toAbsoluteUrl P normalizedBaseUrl "/services" with
  | Throw e => Throw e
  | Ok servicesUrl =>
      match toAbsoluteUrl P normalizedBaseUrl "/contact" with
      | Throw e => Throw e
      | Ok contactUrl =>
          let pageUrls := [normalizedBaseUrl; servicesUrl; contactUrl] in
          let pages := omap (safeFetchHtml P) pageUrls in
          let combinedText := join " " (map pg_text pages) in
          Ok (mkExtractionSummary
                (bestGuessPhone P combinedText)
                (bestGuessEmail P combinedText)
                (extractServiceKeywords P (map pg_html pages))
                (extractClaims combinedText)
                (map pg_url pages))
      end
  end.

Definition jstrs (xs : list string) : Json := JArr (map JStr xs).

(** [a ?? b] on [string | null] *)
Definition orElse (a b : option string) : option string :=
  match a with
  | Some _ => a
  | None => b
  end.

Definition processEnrichJob (P : Providers) (leadId : string) : M unit :=
  lead <- lead_findUnique leadId ;;
  match lead with
  | None => throw ("Lead not found: " +:+ leadId)
  | Some lead =>
      let campaignId := campaignId lead in
      if doNotContact lead then
        logMessage "enricher" campaignId leadId "skipped enrichment (doNotContact=true)"
      else if negb (truthy (websiteUrl lead)) then
        lead_update leadId [SetStatus ENRICHED; SetLastError (Some "no website")] ;;
        event_create campaignId (Some leadId) LEAD_ENRICHED
          (JObj [("reason", JStr "no website");
                 ("serviceKeywords", JArr []);
                 ("claims", JArr []);
                 ("pagesVisited", JArr [])]) ;;
        enqueueSite leadId ;;
        logMessage "enricher" campaignId leadId
          "enriched without website; queued generic site generation"
      else
        try_catch
          (extracted <- liftR (crawlLeadWebsite P (default "" (websiteUrl lead))) ;;
           let phone := orElse (ex_phone extracted) (phone lead) in
           let email := orElse (ex_email extracted) (email lead) in
           lead_update leadId
             [ SetPhone phone;
               SetEmail email;
               SetStatus ENRICHED;
               SetLastError
                 (if (0 <? Z.of_nat (length (ex_pagesVisited extracted)))
                  then None else Some "crawl yielded no html pages") ] ;;
           event_create campaignId (Some leadId) LEAD_ENRICHED
             (JObj [("phone", jstr_opt phone);
                    ("email", jstr_opt email);
                    ("serviceKeywords", jstrs (ex_serviceKeywords extracted));
                    ("claims", jstrs (ex_claims extracted));
                    ("pagesVisited", jstrs (ex_pagesVisited extracted))]) ;;
           enqueueSite leadId ;;
           logMessage "enricher" campaignId leadId
             ("enriched; pages=" +:+ pretty (length (ex_pagesVisited extracted))
                +:+ ", services=" +:+ pretty (length (ex_serviceKeywords extracted))))
          (fun details =>
             lead_update leadId [SetStatus ENRICHED; SetLastError (Some details)] ;;
             event_create campaignId (Some leadId) LEAD_ENRICHED
               (JObj [("error", JStr details);
                      ("serviceKeywords", JArr []);
                      ("claims", JArr []);
                      ("pagesVisited", JArr [])]) ;;
             enqueueSite leadId ;;
             logMessage "enricher" campaignId leadId
               ("enrichment fallback path used (" +:+ details +:+ ")"))
  end.

(** ** Site-Generate stage (src/workers/site-generator.ts) *)

(** [findUnique({ where: { id }, include: { campaign: true } })] *)
Definition lead_findUnique_withCampaign (k : string) : M (option (Lead * option Campaign)) :=
  gets (fun w =>
          match find (hasId k) (leads w) with
          | Some l => Some (l, campaigns w !! campaignId l)
          | None => None
          end).

Definition stringItems (items : list Json) : list string :=
  omap (fun item => match item with JStr s => Some s | _ => None end) items.

(** [Array.isArray(latestMetadata?.serviceKeywords) ? ....filter(isString) : []] *)
Definition servicesOf (latest : option Event) : list string :=
  match latest with
  | Some e =>
      match json_get "serviceKeywords" (ev_metadata e) with
      | Some (JArr items) => stringItems items
      | _ => []
      end
  | None => []
  end.

Definition processSiteJob (P : Providers) (leadId : string) : M unit :=
  found <- lead_findUnique_withCampaign leadId ;;
  match found with
  | None => throw ("Lead not found: " +:+ leadId)
  | Some (lead, campaign) =>
      let campaignId := campaignId lead in
      latest <- event_findLatest campaignId leadId LEAD_ENRICHED ;;
      let services := servicesOf latest in
      match campaign with
      | None => throw "Cannot read properties of null (reading 'city')"
      | Some campaign =>
          output <- liftR (generateSite P
                             (mkGenerateSiteInput (id lead)
                                (default "Local Contractor" (businessName lead))
                                (c_city campaign) services (phone lead) (email lead))) ;;
          lead_update (id lead) [SetStatus SITE_GENERATED; SetLastError None] ;;
          event_create campaignId (Some (id lead)) EV_SITE_GENERATED
            (JObj [("zipPath", JStr (zipPath output)); ("summary", JStr (summary output))]) ;;
          enqueueImage (id lead) ;;
          logMessage "site-generator" campaignId (id lead)
            ("site generated at " +:+ zipPath output)
      end
  end.

(** ** Image-Assign stage (the image generator in src/workers/scraper.ts) *)

Definition heroPoolSize : nat := 50.
Definition servicePoolSize : nat := 100.
Definition serviceImagesPerLead : nat := 3.
Definition defaultStyle : string := "clean-local".

Definition isSpace (c : ascii) : bool :=
  let n := nat_of_ascii c in
  (Nat.eqb n 32 || (Nat.leb 9 n && Nat.leb n 13))%bool.

Fixpoint trimStart (s : string) : string :=
  match s with
  | EmptyString => EmptyString
  | String c rest => if isSpace c then trimStart rest else s
  end.

Definition reverse (s : string) : string :=
  string_of_list_ascii (rev (list_ascii_of_string s)).

(** [trim] on the ASCII white space, the [unicodeTrim] of the sample
    environment. *)
Definition trim (s : string) : string := reverse (trimStart (reverse (trimStart s))).

(** [`${niche.toLowerCase().trim()}::${style.toLowerCase().trim()}`] *)
Definition poolKey (P : Providers) (niche style : string) : string :=
  unicodeTrim P (unicodeToLowerCase P niche) +:+ "::"
  +:+ unicodeTrim P (unicodeToLowerCase P style).

(** [hash = (hash * 31 + value.charCodeAt(i)) >>> 0], an unsigned 32-bit value *)
Definition hashString (value : string) : Z :=
  fold_left (fun hash unit => (hash * 31 + unit) mod 2 ^ 32) (utf16Units value) 0.

Fixpoint mapM {A B} (f : A → M B) (xs : list A) : M (list B) :=
  match xs with
  | [] => ret []
  | x :: rest =>
      y <- f x ;;
      ys <- mapM f rest ;;
      ret (y :: ys)
  end.

Definition getOrCreateImagePool (P : Providers) (niche style : string) : M ImagePool :=
  let key := poolKey P niche style in
  existing <- gets (fun w => imagePoolCache w !! key) ;;
  match existing with
  | Some pool => ret pool
  | None =>
      heroImages <-
        mapM (fun idx =>
                liftR (generateImage P
                         (style +:+ " " +:+ niche +:+ " hero " +:+ pretty (idx + 1)%nat)
                         "16:9"))
          (seq 0 heroPoolSize) ;;
      serviceImages <-
        mapM (fun idx =>
                liftR (generateImage P
                         (style +:+ " " +:+ niche +:+ " service " +:+ pretty (idx + 1)%nat)
                         "4:3"))
          (seq 0 servicePoolSize) ;;
      let pool := mkImagePool heroImages serviceImages in
      modify (set_imagePoolCache (insert key pool)) ;;
      ret pool
  end.

(** An index past the end of a pool reads [undefined], here [None]. *)
Definition pickLeadImages (leadId : string) (pool : ImagePool)
    : option string * list (option string) :=
  let seed := hashString leadId in
  let heroImageUrl :=
    heroImages pool !! Z.to_nat (seed mod Z.of_nat (length (heroImages pool))) in
  let serviceImageUrls :=
    map (fun idx =>
           serviceImages pool
             !! Z.to_nat ((seed + Z.of_nat idx * 13) mod Z.of_nat (length (serviceImages pool))))
      (seq 0 serviceImagesPerLead) in
  (heroImageUrl, serviceImageUrls).

Fixpoint allDefined (xs : list (option string)) : option (list string) :=
  match xs with
  | [] => Some []
  | Some x :: rest =>
      match allDefined rest with
      | Some ys => Some (x :: ys)
      | None => None
      end
  | None :: _ => None
  end.

Definition processImageJob (P : Providers) (leadId : string) : M unit :=
  found <- lead_findUnique_withCampaign leadId ;;
  match found with
  | None => throw ("Lead not found: " +:+ leadId)
  | Some (lead, campaign) =>
      let campaignId := campaignId lead in
      let style := defaultStyle in
      match campaign with
      | None => throw "Cannot read properties of null (reading 'niche')"
      | Some campaign =>
          pool <- getOrCreateImagePool P (c_niche campaign) style ;;
          let picked := pickLeadImages (id lead) pool in
          match allDefined (snd picked) with
          | None => throw "Invalid value for argument `serviceImageUrls`"
          | Some serviceImageUrls =>
              lead_update (id lead)
                (match fst picked with
                 | Some hero => [SetHeroImageUrl (Some hero)]
                 | None => []
                 end
                 ++ [ SetServiceImageUrls serviceImageUrls;
                      SetStatus IMAGES_READY;
                      SetLastError None ]) ;;
              event_create campaignId (Some (id lead)) EV_IMAGES_READY
                (JObj ([("style", JStr style)]
                       ++ match fst picked with
                          | Some hero => [("heroImageUrl", JStr hero)]
                          | None => []
                          end
                       ++ [("serviceImageUrlsCount",
                            JNum (Z.of_nat (length serviceImageUrls)))])) ;;
              enqueueDeploy (id lead) ;;
              logMessage "image-generator" campaignId (id lead)
                "images assigned and deploy queued"
          end
      end
  end.

(** ** Deploy stage (src/workers/deployer.ts) *)

(** [(siteGeneratedEvent?.metadata as { zipPath?: string })?.zipPath], kept
    when truthy; the metadata is the one [processSiteJob] wrote. *)
Definition bundleOf (latest : option Event) : option string :=
  match latest with
  | Some e =>
      match json_get "zipPath" (ev_metadata e) with
      | Some (JStr (String _ _ as path)) => Some path
      | _ => None
      end
  | None => None
  end.

Definition processDeployJob (P : Providers) (leadId : string) : M unit :=
  lead <- lead_findUnique leadId ;;
  match lead with
  | None => throw ("Lead not found: " +:+ leadId)
  | Some lead =>
      let campaignId := campaignId lead in
      if negb (bool_decide (status lead = IMAGES_READY)) then
        throw ("Lead " +:+ leadId +:+ " must be IMAGES_READY before deploy (current="
                 +:+ LeadStatus_name (status lead) +:+ ")")
      else
        siteGeneratedEvent <- event_findLatest campaignId leadId EV_SITE_GENERATED ;;
        match bundleOf siteGeneratedEvent with
        | None => throw ("No generated site bundle found for lead " +:+ leadId)
        | Some zipPath =>
            injectedZipPath <-
              liftR (injectImageUrls P zipPath (heroImageUrl lead) (serviceImageUrls lead)) ;;
            url <- liftR (deploy P injectedZipPath (id lead)) ;;
            lead_update (id lead)
              [SetDemoUrl (Some url); SetStatus DEPLOYED; SetLastError None] ;;
            event_create campaignId (Some (id lead)) EV_DEPLOYED (JObj [("url", JStr url)]) ;;
            enqueueEmail (id lead) One ;;
            logMessage "deployer" campaignId (id lead)
              ("deployed to " +:+ url +:+ " and queued email step 1")
        end
  end.

(** ** Email stage (the emailer in src/workers/caller.ts) *)

Definition followUpCallDelayMs : Z := 30 * 60 * 1000.

Definition buildSubject (businessName : string) (step : OneOrTwo) : string :=
  match step with
  | One => "Built this for " +:+ businessName
  | Two => "Quick follow-up: website preview"
  end.

Definition newline : string := String (ascii_of_nat 10) EmptyString.
Definition dquote : string := String (ascii_of_nat 34) EmptyString.

Definition buildBody (businessName demoUrl : string) (step : OneOrTwo) : string * string :=
  match step with
  | One =>
      ("<p>Hi " +:+ businessName
         +:+ ",</p><p>I built a quick website preview for your business:</p><p><a href="
         +:+ dquote +:+ demoUrl +:+ dquote +:+ ">" +:+ demoUrl
         +:+ "</a></p><p>If useful, I can customize it further.</p>",
       "Hi " +:+ businessName +:+ "," +:+ newline +:+ newline
         +:+ "I built a quick website preview for your business:" +:+ newline
         +:+ demoUrl +:+ newline +:+ newline +:+ "If useful, I can customize it further.")
  | Two =>
      ("<p>Quick follow-up for " +:+ businessName
         +:+ ".</p><p>Your website preview is still live here:</p><p><a href="
         +:+ dquote +:+ demoUrl +:+ dquote +:+ ">" +:+ demoUrl +:+ "</a></p>",
       "Quick follow-up for " +:+ businessName +:+ "." +:+ newline +:+ newline
         +:+ "Your website preview is still live here:" +:+ newline +:+ demoUrl)
  end.

Definition emailKey (leadId : string) (step : OneOrTwo) : string :=
  "email:" +:+ leadId +:+ ":step:" +:+ num_str step.

Definition emailInput (lead : Lead) (step : OneOrTwo) : EmailSendInput :=
  let businessName := default "there" (businessName lead) in
  let body := buildBody businessName (default "" (demoUrl lead)) step in
  mkEmailSendInput (default "" (email lead)) (buildSubject businessName step)
    (fst body) (snd body)
    [("x-campaign-id", campaignId lead); ("x-lead-id", id lead);
     ("x-email-step", num_str step)].

(** The [run] callback handed to [runIdempotentStage] by [processEmailJob]. *)
Definition emailRun (P : Providers) (lead : Lead) (step : OneOrTwo) : M Json :=
  let input := emailInput lead step in
  sent <- gets outbox ;;
  modify (set_outbox (fun o => o ++ [SentEmail input])) ;;
  messageId <- liftR (sendEmail P sent input) ;;
  lead_update (id lead) [IncEmailSentCount 1; SetStatus EMAILED_1; SetLastError None] ;;
  event_create (campaignId lead) (Some (id lead)) EMAIL_SENT
    (JObj [("step", JNum (num step));
           ("providerMessageId", JStr messageId);
           ("subject", JStr (em_subject input))]) ;;
  queue_add "place-call" (CallJob (id lead) One) (Some followUpCallDelayMs) ;;
  ret (JObj [("providerMessageId", JStr messageId)]).

Definition processEmailJob (P : Providers) (leadId : string) (step : OneOrTwo) : M unit :=
  lead <- lead_findUnique leadId ;;
  match lead with
  | None => throw ("Lead not found: " +:+ leadId)
  | Some lead =>
      let campaignId := campaignId lead in
      if doNotContact lead then
        logMessage "emailer" campaignId (id lead) "skipped email (doNotContact=true)"
      else if negb (truthy (email lead)) then
        logMessage "emailer" campaignId (id lead) "skipped email (missing email)"
      else if negb (truthy (demoUrl lead)) then
        throw ("Lead " +:+ id lead +:+ " missing demoUrl; cannot email")
      else if emailSentCount lead >=? num step then
        logMessage "emailer" campaignId (id lead)
          ("step " +:+ num_str step +:+ " already sent; skipping duplicate")
      else
        stageResult <-
          runIdempotentStage
            (mkRunInput (emailKey (id lead) step) "email" campaignId (id lead) "emailer"
               (emailRun P lead step)) ;;
        if negb (executed stageResult) then
          logMessage "emailer" campaignId (id lead)
            ("idempotency skip for step " +:+ num_str step)
        else
          logMessage "emailer" campaignId (id lead)
            ("email step " +:+ num_str step +:+ " sent; follow-up call queued (+30m)")
  end.

(** ** Call stage (src/workers/caller.ts) *)

Definition buildCallScript (businessName demoUrl : string) : string :=
  "Hi, is this the owner of " +:+ businessName
    +:+ "? I sent a quick website preview earlier. Can I resend the link? " +:+ demoUrl.

Definition callKey (leadId : string) (attempt : OneOrTwo) : string :=
  "call:" +:+ leadId +:+ ":attempt:" +:+ num_str attempt.

Definition callbackUrlOf (P : Providers) : string :=
  default "http://localhost:3000" (env_CALL_WEBHOOK_BASE_URL P) +:+ "/webhooks/calls/fake".

Definition callInput (P : Providers) (lead : Lead) : PlaceCallInput :=
  mkPlaceCallInput (default "" (phone lead))
    (buildCallScript (default "your business" (businessName lead))
       (default "the preview link" (demoUrl lead)))
    (callbackUrlOf P).

(** The [run] callback handed to [runIdempotentStage] by [processCallJob]. *)
Definition callRun (P : Providers) (lead : Lead) (attempt : OneOrTwo) : M Json :=
  let input := callInput P lead in
  placed <- gets outbox ;;
  modify (set_outbox (fun o => o ++ [PlacedCall input])) ;;
  callId <- liftR (placeCall P placed input) ;;
  lead_update (id lead) [IncCallAttempts 1; SetStatus CALLED_1; SetLastError None] ;;
  event_create (campaignId lead) (Some (id lead)) CALL_PLACED
    (JObj [("attempt", JNum (num attempt));
           ("callId", JStr callId);
           ("callbackUrl", JStr (callbackUrlOf P))]) ;;
  ret (JObj [("callId", JStr callId)]).

Definition processCallJob (P : Providers) (leadId : string) (attempt : OneOrTwo) : M unit :=
  lead <- lead_findUnique leadId ;;
  match lead with
  | None => throw ("Lead not found: " +:+ leadId)
  | Some lead =>
      let campaignId := campaignId lead in
      if doNotContact lead then
        logMessage "caller" campaignId (id lead) "skipped call (doNotContact=true)"
      else if negb (truthy (phone lead)) then
        logMessage "caller" campaignId (id lead) "skipped call (missing phone)"
      else if callAttempts lead >=? 2 then
        logMessage "caller" campaignId (id lead) "skipped call (callAttempts >= 2)"
      else
        stageResult <-
          runIdempotentStage
            (mkRunInput (callKey (id lead) attempt) "call" campaignId (id lead) "caller"
               (callRun P lead attempt)) ;;
        if negb (executed stageResult) then
          logMessage "caller" campaignId (id lead)
            ("idempotency skip for attempt " +:+ num_str attempt)
        else
          logMessage "caller" campaignId (id lead)
            ("call attempt " +:+ num_str attempt +:+ " placed")
  end.

(** ** Webhook ingestion (src/api/webhooks-handler.ts) *)

Record WebhookPayload := mkWebhookPayload {
  wp_leadId : option string;
  wp_campaignId : option string;
  wp_callId : option string;
  wp_status : string;
  wp_transcript : option string
}.

Record Response := mkResponse {
  res_status : Z;
  res_body : Json
}.

(** [z.string().optional()]: absent, or a string. *)
Definition optionalString (k : string) (body : Json) : option (option string) :=
  match json_get k body with
  | None => Some None
  | Some (JStr s) => Some (Some s)
  | Some _ => None
  end.

Definition callWebhookSchema (body : Json) : option WebhookPayload :=
  match body with
  | JObj _ =>
      match optionalString "leadId" body, optionalString "campaignId" body,
            optionalString "callId" body, json_get "status" body,
            optionalString "transcript" body with
      | Some l, Some c, Some callId, Some (JStr st), Some t =>
          Some (mkWebhookPayload l c callId st t)
      | _, _, _, _, _ => None
      end
  | _ => None
  end.

Definition optOutPhrases : list string :=
  [ "do not call"; "don't call"; "stop calling"; "remove me"; "opt out"; "unsubscribe" ].

Definition hasOptOutIntent (transcript : string) : bool :=
  let text := toLowerCase transcript in
  existsb (fun phrase => includes text phrase) optOutPhrases.

(** [zodDetails] stands for [parsed.error.flatten()] of the zod library. *)
Definition callWebhookHandler (zodDetails : Json → Json) (provider : string) (body : Json)
    : M Response :=
  match callWebhookSchema body with
  | None =>
      ret (mkResponse 400
             (JObj [("error", JStr "Invalid webhook payload"); ("details", zodDetails body)]))
  | Some payload =>
      resolved <-
        (if truthy (wp_leadId payload) then
           lead <- lead_findUnique (default "" (wp_leadId payload)) ;;
           match lead with
           | None => ret None
           | Some lead => ret (Some (Some (id lead), Some (campaignId lead)))
           end
         else ret (Some (wp_leadId payload, wp_campaignId payload))) ;;
      match resolved with
      | None => ret (mkResponse 404 (JObj [("error", JStr "Lead not found")]))
      | Some (leadId, campaignId) =>
          if negb (truthy campaignId) then
            ret (mkResponse 400
                   (JObj [("error",
                           JStr "campaignId is required when leadId is not provided")]))
          else
            let transcript := default "" (wp_transcript payload) in
            let optOut :=
              if 0 <? Z.of_nat (String.length transcript)
              then hasOptOutIntent transcript else false in
            event_create (default "" campaignId) leadId CALL_RESULT
              (JObj [("provider", JStr provider);
                     ("callId", jstr_opt (wp_callId payload));
                     ("status", JStr (wp_status payload));
                     ("transcript", if truthy (Some transcript) then JStr transcript else JNull);
                     ("optOut", JBool optOut)]) ;;
            (if truthy leadId && optOut then
               lead_update (default "" leadId)
                 [SetDoNotContact true; SetStatus DO_NOT_CONTACT] ;;
               ret tt
             else ret tt) ;;
            ret (mkResponse 200
                   (JObj [("ok", JBool true);
                          ("provider", JStr provider);
                          ("optOutApplied", JBool (truthy leadId && optOut))]))
      end
  end.

(** ** What a successful Email or Call stage leaves behind *)

Definition emailData : list LeadField :=
  [IncEmailSentCount 1; SetStatus EMAILED_1; SetLastError None].

Definition callData : list LeadField :=
  [IncCallAttempts 1; SetStatus CALLED_1; SetLastError None].

Definition emailEvent (lead : Lead) (step : OneOrTwo) (messageId : string) : Event :=
  mkEvent (campaignId lead) (Some (id lead)) EMAIL_SENT
    (JObj [("step", JNum (num step));
           ("providerMessageId", JStr messageId);
           ("subject", JStr (em_subject (emailInput lead step)))]).

Definition callEvent (P : Providers) (lead : Lead) (attempt : OneOrTwo) (callId : string)
    : Event :=
  mkEvent (campaignId lead) (Some (id lead)) CALL_PLACED
    (JObj [("attempt", JNum (num attempt));
           ("callId", JStr callId);
           ("callbackUrl", JStr (callbackUrlOf P))]).

Definition followUpCall (leadId : string) : QueuedJob :=
  mkQueuedJob "place-call" (CallJob leadId One) (Some followUpCallDelayMs).

Definition emailSentLine (lead : Lead) (step : OneOrTwo) : string :=
  logLine (campaignId lead) (id lead) "emailer"
    ("email step " +:+ num_str step +:+ " sent; follow-up call queued (+30m)").

Definition emailStage (P : Providers) (lead : Lead) (step : OneOrTwo) : RunIdempotentStageInput :=
  mkRunInput (emailKey (id lead) step) "email" (campaignId lead) (id lead) "emailer"
    (emailRun P lead step).

Definition afterEmail (P : Providers) (lead : Lead) (step : OneOrTwo) (messageId : string)
    (w : World) : World :=
  set_console (fun c => c ++ [emailSentLine lead step])
    (set_idempotencyKeys
       (insert (emailKey (id lead) step)
          (committedRow (emailStage P lead step)
             (JObj [("providerMessageId", JStr messageId)])))
       (set_jobs (fun q => q ++ [followUpCall (id lead)])
          (set_events (fun es => es ++ [emailEvent lead step messageId])
             (set_leads (updateRows (id lead) emailData)
                (set_outbox (fun o => o ++ [SentEmail (emailInput lead step)])
                   (set_idempotencyKeys
                      (insert (emailKey (id lead) step) (claimRow (emailStage P lead step)))
                      w)))))).

Definition callPlacedLine (lead : Lead) (attempt : OneOrTwo) : string :=
  logLine (campaignId lead) (id lead) "caller"
    ("call attempt " +:+ num_str attempt +:+ " placed").

Definition callStage (P : Providers) (lead : Lead) (attempt : OneOrTwo)
    : RunIdempotentStageInput :=
  mkRunInput (callKey (id lead) attempt) "call" (campaignId lead) (id lead) "caller"
    (callRun P lead attempt).

Definition afterCall (P : Providers) (lead : Lead) (attempt : OneOrTwo) (callId : string)
    (w : World) : World :=
  set_console (fun c => c ++ [callPlacedLine lead attempt])
    (set_idempotencyKeys
       (insert (callKey (id lead) attempt)
          (committedRow (callStage P lead attempt) (JObj [("callId", JStr callId)])))
       (set_events (fun es => es ++ [callEvent P lead attempt callId])
          (set_leads (updateRows (id lead) callData)
             (set_outbox (fun o => o ++ [PlacedCall (callInput P lead)])
                (set_idempotencyKeys
                   (insert (callKey (id lead) attempt) (claimRow (callStage P lead attempt)))
                   w))))).

(** ** What the webhook records *)

(** [transcript.length > 0 ? hasOptOutIntent(transcript) : false] on
    [payload.transcript ?? ""] *)
Definition optOutOf (payload : WebhookPayload) : bool :=
  let transcript := default "" (wp_transcript payload) in
  if 0 <? Z.of_nat (String.length transcript) then hasOptOutIntent transcript else false.

Definition callResultEvent (provider : string) (payload : WebhookPayload)
    (leadId : option string) (campaign : string) : Event :=
  let transcript := default "" (wp_transcript payload) in
  mkEvent campaign leadId CALL_RESULT
    (JObj [("provider", JStr provider);
           ("callId", jstr_opt (wp_callId payload));
           ("status", JStr (wp_status payload));
           ("transcript", if truthy (Some transcript) then JStr transcript else JNull);
           ("optOut", JBool (optOutOf payload))]).

Definition webhookOk (provider : string) (optOutApplied : bool) : Response :=
  mkResponse 200
    (JObj [("ok", JBool true); ("provider", JStr provider);
           ("optOutApplied", JBool optOutApplied)]).

(** [phrase] occurs in [text] as a contiguous substring. *)
Definition isSubstring (phrase text : string) : Prop :=
  ∃ before after, text = before +:+ phrase +:+ after.

(** Opt-out detection by a list of phrases, as a case-insensitive substring
    match. *)
Definition detectsExactly (phrases : list string) : Prop :=
  ∀ transcript,
    hasOptOutIntent transcript = true
    ↔ ∃ phrase, In phrase phrases ∧ isSubstring phrase (toLowerCase transcript).

(** The five phrases the specification lists. *)
Definition specifiedPhrases : list string :=
  [ "do not call"; "stop calling"; "remove me"; "opt out"; "unsubscribe" ].

(** ** What the Enrich stage leaves behind *)

Definition siteJob (leadId : string) : QueuedJob :=
  mkQueuedJob "generate-site" (SiteJob leadId) None.

Definition afterEnrich (leadId campaign : string) (data : list LeadField) (metadata : Json)
    (line : string) (w : World) : World :=
  set_console (fun c => c ++ [line])
    (set_jobs (fun q => q ++ [siteJob leadId])
       (set_events (fun es => es ++ [mkEvent campaign (Some leadId) LEAD_ENRICHED metadata])
          (set_leads (updateRows leadId data) w))).

(** A page that yields no HTML: the fetch rejects (network error, abort at the
    timeout), or the response is not ok, or its content type is not HTML. *)
Definition noHtml (P : Providers) (url : string) : Prop :=
  match fetch P url with
  | None => True
  | Some response =>
      resp_ok response = false
      ∨ includes (default "" (resp_contentType response)) "text/html" = false
  end.

(** The no-data cases of an enrichment: no website on the lead, no page of the
    site yielding HTML, or the crawl raising an error. *)
Definition noData (P : Providers) (lead : Lead) : Prop :=
  truthy (websiteUrl lead) = false
  ∨ (∀ url, noHtml P url)
  ∨ (∃ e, crawlLeadWebsite P (default "" (websiteUrl lead)) = Throw e).

(** ** Deliveries: everything that can run a handler *)

Inductive Delivery :=
  | Queued (job : JobData)
  | Webhook (provider : string) (body : Json).

Definition handle (P : Providers) (zodDetails : Json → Json) (d : Delivery) : M unit :=
  match d with
  | Queued (ScrapeJob c) => processScrapeJob P c
  | Queued (EnrichJob l) => processEnrichJob P l
  | Queued (SiteJob l) => processSiteJob P l
  | Queued (ImageJob l) => processImageJob P l
  | Queued (DeployJob l) => processDeployJob P l
  | Queued (EmailJob l step) => processEmailJob P l step
  | Queued (CallJob l attempt) => processCallJob P l attempt
  | Webhook provider body => callWebhookHandler zodDetails provider body ;; ret tt
  end.

(** The one status each handler writes. *)
Definition writes (d : Delivery) : LeadStatus :=
  match d with
  | Queued (ScrapeJob _) => SCRAPED
  | Queued (EnrichJob _) => ENRICHED
  | Queued (SiteJob _) => SITE_GENERATED
  | Queued (ImageJob _) => IMAGES_READY
  | Queued (DeployJob _) => DEPLOYED
  | Queued (EmailJob _ _) => EMAILED_1
  | Queued (CallJob _ _) => CALLED_1
  | Webhook _ _ => DO_NOT_CONTACT
  end.

Definition isScrape (d : Delivery) : bool :=
  match d with
  | Queued (ScrapeJob _) => true
  | _ => false
  end.

(** The entries a handler's [lead.update] may carry: its own status, never a
    reset of [doNotContact], counters going up. *)
Definition allowed (d : Delivery) (f : LeadField) : bool :=
  match f with
  | SetStatus s => bool_decide (s = writes d)
  | SetDoNotContact b => b
  | IncEmailSentCount n => 0 <=? n
  | IncCallAttempts n => 0 <=? n
  | _ => true
  end.

(** A property [J] of the lead table that every allowed update keeps, and
    that the insertion of a freshly scraped row keeps. *)
Definition updateKeeps (d : Delivery) (J : list Lead → Prop) : Prop :=
  ∀ k data rows, forallb (allowed d) data = true → J rows → J (updateRows k data rows).

Definition insertKeeps (J : list Lead → Prop) : Prop :=
  ∀ c rows,
    lc_status c = SCRAPED →
    violatesSiteIndex c rows = false →
    J rows → J (rows ++ [newLead (newLeadId rows) c]).

Definition keeps {A} (J : list Lead → Prop) (m : M A) : Prop :=
  ∀ w, J (leads w) → J (leads (snd (m w))).

(** The position of a status in the forward order of the pipeline;
    DO_NOT_CONTACT stands outside it. *)
Definition rank (s : LeadStatus) : Z :=
  match s with
  | NEW => 0 | SCRAPED => 1 | ENRICHED => 2 | SITE_GENERATED => 3
  | IMAGES_READY => 4 | DEPLOYED => 5 | EMAILED_1 => 6 | CALLED_1 => 7
  | REPLIED => 8 | BOOKED => 9 | DO_NOT_CONTACT => 10
  end.

(** A status write that respects the order: forward, or to DO_NOT_CONTACT. *)
Definition nonDecreasing (before after : LeadStatus) : Prop :=
  after = DO_NOT_CONTACT ∨ rank before <= rank after.

(** The primary key of the lead table. *)
Definition uniqueIds (rows : list Lead) : Prop := NoDup (map id rows).

(** No two rows of the table share a non-null [(campaignId, websiteUrl)]. *)
Definition noSharedSite (rows : list Lead) : Prop :=
  ∀ i j l1 l2 u,
    rows !! i = Some l1 → rows !! j = Some l2 →
    campaignId l1 = campaignId l2 →
    websiteUrl l1 = Some u → websiteUrl l2 = Some u →
    i = j.

(** The [update] object of the upsert in [upsertLeadFromListing]. *)
Definition scrapeData (listing : ListingRecord) : list LeadField :=
  [ SetBusinessName (Some (li_businessName listing));
    SetPhone (li_phone listing);
    SetEmail (li_email listing);
    SetAddress (li_address listing);
    SetSourceUrl (li_sourceUrl listing);
    SetStatus SCRAPED;
    SetLastError None ].

(** How one delivery of [d] may change a row, and a table. *)
Definition rowStep (d : Delivery) (l l' : Lead) : Prop :=
  id l' = id l
  ∧ (status l' = status l ∨ status l' = writes d)
  ∧ (doNotContact l = true → doNotContact l' = true)
  ∧ emailSentCount l <= emailSentCount l'
  ∧ callAttempts l <= callAttempts l'.

Definition tableStep (d : Delivery) (rows rows' : list Lead) : Prop :=
  ∃ updated inserted,
    rows' = updated ++ inserted
    ∧ Forall2 (rowStep d) rows updated
    ∧ Forall (fun l => status l = SCRAPED) inserted
    ∧ (isScrape d = false → inserted = []).

(** The leads a delivery may write to: the lead its job names; for a Scrape
    job the leads of its campaign, found by their site.  A webhook, whose
    only status is DO_NOT_CONTACT, counts as touching every lead. *)
Definition touches (d : Delivery) (l : Lead) : bool :=
  match d with
  | Queued (ScrapeJob c) => String.eqb (campaignId l) c
  | Queued (EnrichJob k) | Queued (SiteJob k) | Queued (ImageJob k)
  | Queued (DeployJob k) | Queued (EmailJob k _) | Queued (CallJob k _) => hasId k l
  | Webhook _ _ => true
  end.

(** A row the delivery does not touch is left as it is. *)
Definition untouched (d : Delivery) (l l' : Lead) : Prop :=
  id l' = id l ∧ campaignId l' = campaignId l ∧ (touches d l = false → l' = l).

Definition tableFrame (d : Delivery) (rows rows' : list Lead) : Prop :=
  uniqueIds rows'
  ∧ ∃ updated inserted, rows' = updated ++ inserted ∧ Forall2 (untouched d) rows updated.

(** The status of [l] is not later than the one [d] writes, if [d] touches
    [l] at all. *)
Definition notLater (d : Delivery) (l : Lead) : bool :=
  negb (touches d l) || (rank (status l) <=? rank (writes d)).

(** Every delivery of [ds], handled in turn from [w], finds the leads it
    touches at a status not later than its own. *)
Fixpoint inOrder (P : Providers) (zodDetails : Json → Json) (ds : list Delivery) (w : World)
    : bool :=
  match ds with
  | [] => true
  | d :: rest =>
      forallb (notLater d) (leads w)
      && inOrder P zodDetails rest (snd (handle P zodDetails d w))
  end.

(** What one delivery of [d] does to the status of a row. *)
Definition statusStep (d : Delivery) (l l' : Lead) : Prop :=
  id l' = id l
  ∧ (status l' = status l ∨ (touches d l = true ∧ status l' = writes d)).

Definition deployData (url : string) : list LeadField :=
  [SetDemoUrl (Some url); SetStatus DEPLOYED; SetLastError None].

(** What a Deploy job can do to the lead table: nothing, or the update of a
    lead it found IMAGES_READY. *)
Definition deployOutcome (leadId : string) (rows rows' : list Lead) : Prop :=
  rows' = rows
  ∨ ∃ lead url,
      find (hasId leadId) rows = Some lead
      ∧ status lead = IMAGES_READY
      ∧ rows' = updateRows (id lead) (deployData url) rows.

(** The input [processSiteJob] hands to the site builder. *)
Definition siteInput (lead : Lead) (campaign : Campaign) (w : World) : GenerateSiteInput :=
  mkGenerateSiteInput (id lead)
    (default "Local Contractor" (businessName lead))
    (c_city campaign)
    (servicesOf (find (eventMatches (campaignId lead) (id lead) LEAD_ENRICHED) (rev (events w))))
    (phone lead) (email lead).

(** ** Provider selection (src/providers/email, src/providers/voice)

    [resolveEmailProvider] and [resolveCallProvider] read [process.env.ENV]
    once: ["production"] in any letter case selects the real adapter, whose
    only method throws; anything else selects the fake one, whose ids come
    from the clock and a random number and are left to [fake]. *)

Definition isProduction (env : option string) : bool :=
  String.eqb (toLowerCase (default "development" env)) "production".

Definition resolveEmailProvider (env : option string)
    (fake : list ProviderAction → EmailSendInput → Result string)
    : list ProviderAction → EmailSendInput → Result string :=
  if isProduction env
  then fun _ _ => Throw "Real email provider not implemented yet"
  else fake.

Definition resolveCallProvider (env : option string)
    (fake : list ProviderAction → PlaceCallInput → Result string)
    : list ProviderAction → PlaceCallInput → Result string :=
  if isProduction env
  then fun _ _ => Throw "Real call provider not implemented yet"
  else fake.

(** The collaborators [P] with the email and call providers resolved from
    [ENV]. *)
Definition withEnv (env : option string) (P : Providers) : Providers :=
  mkProviders (listingsProvider P) (fetch P) (htmlText P) (toAbsoluteUrl P)
    (bestGuessPhone P) (bestGuessEmail P) (headingKeywords P) (generateSite P)
    (generateImage P) (injectImageUrls P) (deploy P)
    (resolveEmailProvider env (sendEmail P)) (resolveCallProvider env (placeCall P))
    (env_CALL_WEBHOOK_BASE_URL P) (unicodeToLowerCase P) (unicodeTrim P).


(** ** Listing providers (src/workers/scraper.ts)

    [mockListingsProvider] is pure.  [duckDuckGoListingsProvider] asks the
    search engine first; [search] stands for [searchDuckDuckGoListings], the
    HTTP request and the parsing of its answer. *)

(** [s.replace(/\s+/g, "-")]: every run of white space becomes one dash. *)
Fixpoint dashRuns (inRun : bool) (s : string) : string :=
  match s with
  | EmptyString => EmptyString
  | String c rest =>
      if isSpace c then
        if inRun then dashRuns true rest else String "-" (dashRuns true rest)
      else String c (dashRuns false rest)
  end.

Definition slug (s : string) : string := dashRuns false (toLowerCase s).

Definition mockListing (niche city : string) (n : nat) : ListingRecord :=
  let citySlug := slug city in
  let nicheSlug := slug niche in
  let host := nicheSlug +:+ "-" +:+ citySlug +:+ "-" +:+ pretty n +:+ ".example.com" in
  mkListing
    (city +:+ " " +:+ niche +:+ " Co " +:+ pretty n)
    (Some ("https://" +:+ host))
    (Some ("+1-555-010" +:+ pretty (n mod 10 + 1)%nat))
    (Some ("hello" +:+ pretty n +:+ "@" +:+ host))
    (Some (pretty (100 + n)%nat +:+ " Main St, " +:+ city))
    (Some ("https://example.com/search/" +:+ nicheSlug +:+ "/" +:+ citySlug
             +:+ "?result=" +:+ pretty n)).

Definition mockListingsProvider (niche city : string) (limit : Z) : list ListingRecord :=
  let total := Z.max 1 (Z.min limit 25) in
  map (mockListing niche city) (seq 1 (Z.to_nat total)).

Definition duckDuckGoListingsProvider
    (search : string → string → Z → Result (list ListingRecord))
    (niche city : string) (limit : Z) : Result (list ListingRecord) :=
  let cappedLimit := Z.max 1 (Z.min limit 100) in
  match search niche city cappedLimit with
  | Throw e => Throw e
  | Ok listings =>
      if 0 <? Z.of_nat (length listings) then Ok listings
      else Ok (mockListingsProvider niche city cappedLimit)
  end.

(** [scrapeListings] with its default provider, chosen by [SCRAPER_PROVIDER]. *)
Definition scrapeListings (env_SCRAPER_PROVIDER : option string)
    (search : string → string → Z → Result (list ListingRecord))
    (niche city : string) (limit : Z) : Result (list ListingRecord) :=
  if String.eqb (default "duckduckgo" env_SCRAPER_PROVIDER) "mock"
  then Ok (mockListingsProvider niche city limit)
  else duckDuckGoListingsProvider search niche city limit.


(** ** Campaign commands (src/api/command-handler.ts) *)

Record CampaignCommand := mkCampaignCommand {
  cmd_niche : string;
  cmd_city : string;
  cmd_limit : Z
}.

(** [z.object({ niche: z.string().min(2), city: z.string().min(2),
    limit: z.number().int().min(1).max(1000) })]; a [JNum] is an integer, and
    [min(2)] compares the [length] of the string, in UTF-16 code units. *)
Definition campaignCommandSchema (body : Json) : option CampaignCommand :=
  match json_get "niche" body, json_get "city" body, json_get "limit" body with
  | Some (JStr niche), Some (JStr city), Some (JNum limit) =>
      if (2 <=? utf16Length niche) && (2 <=? utf16Length city)
         && (1 <=? limit) && (limit <=? 1000)
      then Some (mkCampaignCommand niche city limit)
      else None
  | _, _, _ => None
  end.

(** A new primary key ([@default(cuid())]): any id not yet in the table. *)
Definition newCampaignId (cs : gmap string Campaign) : string :=
  fresh_string_of_set "campaign" (dom cs).

(** [prisma.campaign.create] with its nested [events: { create: ... }]: the
    campaign row and its first event are written together. *)
Definition campaign_create (niche city : string) (limit : Z) (s : CampaignStatus)
    (t : EventType) (metadata : Json) : M string :=
  fun w =>
    let k := newCampaignId (campaigns w) in
    (Ok k,
     set_events (fun es => es ++ [mkEvent k None t metadata])
       (set_campaigns (insert k (mkCampaign niche city limit s)) w)).

Definition createCampaignHandler (zodDetails : Json → Json) (body : Json) : M Response :=
  try_catch
    (match campaignCommandSchema body with
     | None =>
         ret (mkResponse 400
                (JObj [("error", JStr "Invalid campaign command payload");
                       ("details", zodDetails body)]))
     | Some cmd =>
         campaignId <-
           campaign_create (cmd_niche cmd) (cmd_city cmd) (cmd_limit cmd) RUNNING
             CAMPAIGN_CREATED
             (JObj [("niche", JStr (cmd_niche cmd)); ("city", JStr (cmd_city cmd));
                    ("limit", JNum (cmd_limit cmd))]) ;;
         enqueueScrape campaignId ;;
         ret (mkResponse 202
                (JObj [("campaignId", JStr campaignId);
                       ("message", JStr "Pipeline running...")]))
     end)
    (fun details =>
       ret (mkResponse 500
              (JObj [("error", JStr "Failed to create campaign");
                     ("details", JStr details)]))).


(** ** Deploy providers (src/workers/deployer.ts) *)

Definition isDash (c : ascii) : bool := Nat.eqb (nat_of_ascii c) 45.

(** [a-z0-9] *)
Definition isLowerAlnum (c : ascii) : bool :=
  let n := nat_of_ascii c in
  ((Nat.leb 97 n && Nat.leb n 122) || (Nat.leb 48 n && Nat.leb n 57))%bool.

(** [a-z0-9-] *)
Definition isSlugChar (c : ascii) : bool := isLowerAlnum c || isDash c.

(** [s.replace(/[^a-z0-9-]/g, "-")] *)
Fixpoint dashOthers (s : string) : string :=
  match s with
  | EmptyString => EmptyString
  | String c rest => String (if isSlugChar c then c else "-"%char) (dashOthers rest)
  end.

(** [s.replace(/-+/g, "-")] *)
Fixpoint collapseDashes (inRun : bool) (s : string) : string :=
  match s with
  | EmptyString => EmptyString
  | String c rest =>
      if isDash c then
        if inRun then collapseDashes true rest else String c (collapseDashes true rest)
      else String c (collapseDashes false rest)
  end.

(** The two alternatives of [s.replace(/^-|-$/g, "")] *)
Definition stripLeadingDash (s : string) : string :=
  match s with
  | String c rest => if isDash c then rest else s
  | EmptyString => EmptyString
  end.

Fixpoint stripTrailingDash (s : string) : string :=
  match s with
  | EmptyString => EmptyString
  | String c rest =>
      match rest with
      | EmptyString => if isDash c then EmptyString else s
      | String _ _ => String c (stripTrailingDash rest)
      end
  end.

Definition sanitizeSlug (value : string) : string :=
  String.substring 0 48
    (stripTrailingDash
       (stripLeadingDash (collapseDashes false (dashOthers (toLowerCase value))))).

(** The address [FakeLocalDeployProvider.deploy] returns once the bundle is
    unpacked. *)
Definition localDemoUrl (projectName : string) : string :=
  "http://localhost:3000/demo/" +:+ sanitizeSlug projectName.

(** [resolveDeployProvider]: [DEPLOY_PROVIDER=cloudflare] in any letter case
    selects the Cloudflare adapter, whose [deploy] throws; anything else the
    local one, whose work on the file system is left to [local]. *)
Definition resolveDeployProvider (env_DEPLOY_PROVIDER env_CLOUDFLARE_PROJECT_NAME : option string)
    (local : string → string → Result string) : string → string → Result string :=
  if String.eqb (toLowerCase (default "local" env_DEPLOY_PROVIDER)) "cloudflare"
  then fun _ _ =>
         Throw ("Cloudflare deploy adapter is not implemented yet for project "
                  +:+ default "" env_CLOUDFLARE_PROJECT_NAME)
  else local.


(** ** The fake site builder (src/workers/site-generator.ts)

    [fakeOpenClawClient] writes the bundle and returns its path; [writeZip]
    stands for the zip library and the file system, given the path it writes
    to. *)

(** [a-zA-Z0-9_-] *)
Definition isFileChar (c : ascii) : bool :=
  let n := nat_of_ascii c in
  ((Nat.leb 97 n && Nat.leb n 122) || (Nat.leb 65 n && Nat.leb n 90)
   || (Nat.leb 48 n && Nat.leb n 57) || Nat.eqb n 95 || Nat.eqb n 45)%bool.

(** [s.replace(/[^...]/g, "")] for a class of characters to keep *)
Fixpoint keepChars (keep : ascii → bool) (s : string) : string :=
  match s with
  | EmptyString => EmptyString
  | String c rest => if keep c then String c (keepChars keep rest) else keepChars keep rest
  end.

Definition sanitizeFileSegment (value : string) : string :=
  String.substring 0 64 (keepChars isFileChar value).

Definition fakeOpenClawClient (writeZip : string → Result unit) (input : GenerateSiteInput)
    : Result GenerateSiteOutput :=
  let safeLeadId := sanitizeFileSegment (gs_leadId input) in
  let zipPath := "/tmp/" +:+ safeLeadId +:+ ".zip" in
  match writeZip zipPath with
  | Throw e => Throw e
  | Ok _ =>
      Ok (mkGenerateSiteOutput zipPath
            ("Generated MVP static site bundle for " +:+ gs_businessName input))
  end.


(** ** Campaign metrics (src/api/command-handler.ts) *)

Definition liveSiteStatuses : list LeadStatus :=
  [DEPLOYED; EMAILED_1; CALLED_1; REPLIED; BOOKED; DO_NOT_CONTACT].

(** [prisma.lead.count({ where: { campaignId, ... } })] *)
Definition lead_count (c : string) (p : Lead → bool) (rows : list Lead) : Z :=
  Z.of_nat (length (List.filter (fun l => String.eqb (campaignId l) c && p l) rows)).

Record CampaignMetrics := mkCampaignMetrics {
  m_leadsTotal : Z;
  m_liveSites : Z;
  m_emailed : Z;
  m_called : Z;
  m_interested : Z;
  m_booked : Z;
  m_doNotContact : Z
}.

Definition campaignMetrics (c : string) (rows : list Lead) : CampaignMetrics :=
  mkCampaignMetrics
    (lead_count c (fun _ => true) rows)
    (lead_count c (fun l => bool_decide (status l ∈ liveSiteStatuses)) rows)
    (lead_count c (fun l => 0 <? emailSentCount l) rows)
    (lead_count c (fun l => 0 <? callAttempts l) rows)
    (lead_count c interested rows)
    (lead_count c booked rows)
    (lead_count c doNotContact rows).

Definition formatCampaignStatus (m : CampaignMetrics) (niche city : string)
    : string * string * string :=
  ("Found " +:+ pretty (m_leadsTotal m) +:+ " " +:+ niche +:+ " in " +:+ city,
   pretty (m_liveSites m) +:+ " live · " +:+ pretty (m_emailed m) +:+ " emailed · "
     +:+ pretty (m_called m) +:+ " called",
   pretty (m_interested m) +:+ " interested · " +:+ pretty (m_booked m) +:+ " booked").

Definition metricsBody (m : CampaignMetrics) (niche city : string) : Json :=
  let '(line1, line2, line3) := formatCampaignStatus m niche city in
  JObj [("leadsTotal", JNum (m_leadsTotal m));
        ("liveSites", JNum (m_liveSites m));
        ("emailed", JNum (m_emailed m));
        ("called", JNum (m_called m));
        ("interested", JNum (m_interested m));
        ("booked", JNum (m_booked m));
        ("doNotContact", JNum (m_doNotContact m));
        ("line1", JStr line1); ("line2", JStr line2); ("line3", JStr line3)].

Definition getCampaignMetricsHandler (campaignId : string) : M Response :=
  if negb (truthy (Some campaignId)) then
    ret (mkResponse 400 (JObj [("error", JStr "Campaign id is required")]))
  else
    campaign <- campaign_findUnique campaignId ;;
    match campaign with
    | None => ret (mkResponse 404 (JObj [("error", JStr "Campaign not found")]))
    | Some campaign =>
        rows <- gets leads ;;
        ret (mkResponse 200
               (metricsBody (campaignMetrics campaignId rows)
                  (c_niche campaign) (c_city campaign)))
    end.


(** ** A simulated environment and a small ledger

    The non-production providers of the repository (fake email and call
    providers, the mock listings source), with ids numbered by the calls made
    so far, and a campaign with one deployed lead. *)

Definition fakeProviders : Providers :=
  mkProviders
    (fun niche city limit =>
       Ok [mkListing (city +:+ " " +:+ niche +:+ " Co 1")
             (Some "https://roofers-dallas-1.example.com") (Some "+1-555-0102")
             (Some "hello1@roofers-dallas-1.example.com") (Some "101 Main St")
             (Some "https://example.com/search/roofers/dallas?result=1")])
    (fun url => None)
    (fun html => html)
    (fun base path => Ok (base +:+ path))
    (fun text => None)
    (fun text => None)
    (fun html => [])
    (fun input => Ok (mkGenerateSiteOutput ("/tmp/" +:+ gs_leadId input +:+ ".zip")
                        ("Generated MVP static site bundle for " +:+ gs_businessName input)))
    (fun prompt ratio => Ok ("https://picsum.photos/seed/" +:+ prompt))
    (fun zip hero services => Ok (zip +:+ "-ready.zip"))
    (fun zip project => Ok (localDemoUrl project))
    (fun sent input => Ok ("fake-" +:+ pretty (length sent)))
    (fun placed input => Ok ("fake-call-" +:+ pretty (length placed)))
    None toLowerCase trim.

Definition acme : Lead :=
  mkLead "L1" "C1" (Some "Acme Roofing") (Some "https://roofers-dallas-1.example.com")
    (Some "+1-555-0101") (Some "owner@acme.example.com") (Some "1 Main St, Dallas")
    (Some "https://example.com/search?result=1") (Some "http://localhost:3000/demo/l1")
    None [] DEPLOYED false 0 0 false false None.

Definition dallas : Campaign := mkCampaign "roofers" "Dallas" 5 RUNNING.

Definition ledger : World :=
  mkWorld [acme] {["C1" := dallas]} [] ∅ [] [] ∅ [].

Definition acmeEmailStage : RunIdempotentStageInput :=
  mkRunInput (emailKey "L1" One) "email" "C1" "L1" "emailer" (emailRun fakeProviders acme One).

Definition optedOut : Lead :=
  mkLead "L2" "C1" (Some "Bolt Electric") (Some "https://bolt.example.com")
    (Some "+1-555-0103") (Some "owner@bolt.example.com") None None
    (Some "http://localhost:3000/demo/l2") None [] DO_NOT_CONTACT true 1 1 false false None.

Definition ledgerWithOptOut : World :=
  mkWorld [acme; optedOut] {["C1" := dallas]} [] ∅ [] [] ∅ [].

(** A provider set whose every page is a PDF. *)
Definition pdfProviders : Providers :=
  mkProviders (listingsProvider fakeProviders)
    (fun url => Some (mkFetchResponse true (Some "application/pdf") "%PDF-1.7"))
    (htmlText fakeProviders) (toAbsoluteUrl fakeProviders) (bestGuessPhone fakeProviders)
    (bestGuessEmail fakeProviders) (headingKeywords fakeProviders)
    (generateSite fakeProviders) (generateImage fakeProviders)
    (injectImageUrls fakeProviders) (deploy fakeProviders) (sendEmail fakeProviders)
    (placeCall fakeProviders) None toLowerCase trim.

(** A listing for the site of [acme], and two webhook bodies. *)
Definition acmeListing : ListingRecord :=
  mkListing "Acme Roofing LLC" (Some "https://roofers-dallas-1.example.com")
    (Some "+1-555-0199") None (Some "Dallas") (Some "https://example.com/search?result=7").

Definition optOutBody : Json :=
  JObj [("leadId", JStr "L1"); ("campaignId", JStr "C9"); ("status", JStr "answered");
        ("transcript", JStr "Please REMOVE ME from your list")].


(** Leads for the edge paths: no phone, no email, no demo url, capped calls. *)
Definition acmeWithoutPhone : Lead := applyData [SetPhone None] acme.
Definition acmeWithoutEmail : Lead := applyData [SetEmail (Some "")] acme.
Definition acmeWithoutDemo : Lead := applyData [SetDemoUrl None] acme.
Definition acmeCalledTwice : Lead := applyData [IncCallAttempts 2] acme.

(** [acme] with its images assigned and no site bundle on record. *)
Definition acmeImagesReady : Lead :=
  mkLead "L1" "C1" (Some "Acme Roofing") (Some "https://roofers-dallas-1.example.com")
    (Some "+1-555-0101") (Some "owner@acme.example.com") (Some "1 Main St, Dallas")
    (Some "https://example.com/search?result=1") None
    (Some "https://picsum.photos/seed/hero") [] IMAGES_READY false 0 0 false false None.

Definition ledgerOf (lead : Lead) : World :=
  mkWorld [lead] {["C1" := dallas]} [] ∅ [] [] ∅ [].

(** The world after an Email or Call stage whose provider threw: the call is
    on the provider's log and nothing else has changed. *)
Definition afterFailedEmail (lead : Lead) (step : OneOrTwo) (w : World) : World :=
  set_outbox (fun o => o ++ [SentEmail (emailInput lead step)]) w.

Definition afterFailedCall (P : Providers) (lead : Lead) (w : World) : World :=
  set_outbox (fun o => o ++ [PlacedCall (callInput P lead)]) w.

(** [n] deliveries in a row of the same Email, respectively Call, job. *)
Definition redeliverEmail (P : Providers) (leadId : string) (step : OneOrTwo) (n : nat)
    (w : World) : World :=
  Nat.iter n (fun w' => snd (processEmailJob P leadId step w')) w.

Definition redeliverCall (P : Providers) (leadId : string) (attempt : OneOrTwo) (n : nat)
    (w : World) : World :=
  Nat.iter n (fun w' => snd (processCallJob P leadId attempt w')) w.

(** A ledger where the claim for Email step 1 of [acme] was inserted and never
    resolved. *)
Definition ledgerWithOrphanedClaim : World :=
  set_idempotencyKeys (insert "email:L1:step:1" (claimRow acmeEmailStage)) ledger.

(** The deliveries [ds] handled one after the other; a delivery that throws
    leaves the world it reached, and the next one runs from there. *)
Definition deliverAll (P : Providers) (zodDetails : Json → Json) (ds : list Delivery)
    (w : World) : World :=
  fold_left (fun w' d => snd (handle P zodDetails d w')) ds w.


(** The three responses by which the webhook handler turns a request down. *)
Definition invalidPayload (details : Json) : Response :=
  mkResponse 400 (JObj [("error", JStr "Invalid webhook payload"); ("details", details)]).

Definition leadNotFound : Response :=
  mkResponse 404 (JObj [("error", JStr "Lead not found")]).

Definition campaignIdRequired : Response :=
  mkResponse 400
    (JObj [("error", JStr "campaignId is required when leadId is not provided")]).

(** What storing one listing does to the lead table: the row on the listing's
    site is updated, or a new row is appended. *)
Definition siteOf (listing : ListingRecord) : option string :=
  match li_websiteUrl listing with
  | Some (String _ _ as u) => Some u
  | _ => None
  end.

Definition listingCreate (c : string) (listing : ListingRecord) : LeadCreate :=
  mkLeadCreate c (Some (li_businessName listing)) (siteOf listing) (li_phone listing)
    (li_email listing) (li_address listing) (li_sourceUrl listing) SCRAPED.

Definition storeListing (c : string) (listing : ListingRecord) (rows : list Lead) : list Lead :=
  match siteOf listing with
  | Some u =>
      match find (onSite c u) rows with
      | Some existing => updateRows (id existing) (scrapeData listing) rows
      | None => rows ++ [newLead (newLeadId rows) (listingCreate c listing)]
      end
  | None => rows ++ [newLead (newLeadId rows) (listingCreate c listing)]
  end.

Definition storeListings (c : string) (listings : list ListingRecord) (rows : list Lead)
    : list Lead :=
  fold_left (fun rows' listing => storeListing c listing rows') listings rows.

Definition scrapedEvent (c k : string) (listing : ListingRecord) : Event :=
  mkEvent c (Some k) LEAD_SCRAPED
    (JObj [("websiteUrl", jstr_opt (li_websiteUrl listing));
           ("sourceUrl", jstr_opt (li_sourceUrl listing))]).

Definition enrichJob (k : string) : QueuedJob := mkQueuedJob "enrich-lead" (EnrichJob k) None.

Definition running (campaign : Campaign) : Campaign :=
  mkCampaign (c_niche campaign) (c_city campaign) (c_limit campaign) RUNNING.

Definition batchCompleted (c : string) (succeeded failed : Z) : string :=
  logLine c "-" "scraper"
    ("batch completed: " +:+ pretty succeeded +:+ " succeeded, " +:+ pretty failed
       +:+ " failed").

(** The collaborators [P] with [listings] as the answer of the listings
    provider. *)
Definition withListings (listings : string → string → Z → Result (list ListingRecord))
    (P : Providers) : Providers :=
  mkProviders listings (fetch P) (htmlText P) (toAbsoluteUrl P)
    (bestGuessPhone P) (bestGuessEmail P) (headingKeywords P) (generateSite P)
    (generateImage P) (injectImageUrls P) (deploy P) (sendEmail P) (placeCall P)
    (env_CALL_WEBHOOK_BASE_URL P) (unicodeToLowerCase P) (unicodeTrim P).

(** The pool [getOrCreateImagePool] builds when the image provider answers
    [gen prompt ratio] to every request. *)
Definition heroPrompt (niche style : string) (idx : nat) : string :=
  style +:+ " " +:+ niche +:+ " hero " +:+ pretty (idx + 1)%nat.

Definition servicePrompt (niche style : string) (idx : nat) : string :=
  style +:+ " " +:+ niche +:+ " service " +:+ pretty (idx + 1)%nat.

Definition builtPool (gen : string → string → string) (niche style : string) : ImagePool :=
  mkImagePool
    (map (fun idx => gen (heroPrompt niche style idx) "16:9") (seq 0 heroPoolSize))
    (map (fun idx => gen (servicePrompt niche style idx) "4:3") (seq 0 servicePoolSize)).

(** The [data] of the [lead.update] and the event of [processImageJob]. *)
Definition imageData (hero : string) (urls : list string) : list LeadField :=
  [SetHeroImageUrl (Some hero); SetServiceImageUrls urls; SetStatus IMAGES_READY;
   SetLastError None].

Definition imagesReadyEvent (lead : Lead) (hero : string) (urls : list string) : Event :=
  mkEvent (campaignId lead) (Some (id lead)) EV_IMAGES_READY
    (JObj [("style", JStr defaultStyle); ("heroImageUrl", JStr hero);
           ("serviceImageUrlsCount", JNum (Z.of_nat (length urls)))]).

Definition afterImages (lead : Lead) (hero : string) (urls : list string) (w : World) : World :=
  set_console
    (fun lines => lines ++ [logLine (campaignId lead) (id lead) "image-generator"
                              "images assigned and deploy queued"])
    (set_jobs (fun q => q ++ [mkQueuedJob "deploy-site" (DeployJob (id lead)) None])
       (set_events (fun es => es ++ [imagesReadyEvent lead hero urls])
          (set_leads (updateRows (id lead) (imageData hero urls)) w))).

(** The worlds after a Site-Generate and after a Deploy job that went through. *)
Definition siteData : list LeadField := [SetStatus SITE_GENERATED; SetLastError None].

Definition siteEvent (lead : Lead) (output : GenerateSiteOutput) : Event :=
  mkEvent (campaignId lead) (Some (id lead)) EV_SITE_GENERATED
    (JObj [("zipPath", JStr (zipPath output)); ("summary", JStr (summary output))]).

Definition afterSite (lead : Lead) (output : GenerateSiteOutput) (w : World) : World :=
  set_console
    (fun lines => lines ++ [logLine (campaignId lead) (id lead) "site-generator"
                              ("site generated at " +:+ zipPath output)])
    (set_jobs (fun q => q ++ [mkQueuedJob "prepare-images" (ImageJob (id lead)) None])
       (set_events (fun es => es ++ [siteEvent lead output])
          (set_leads (updateRows (id lead) siteData) w))).

Definition deployedEvent (lead : Lead) (url : string) : Event :=
  mkEvent (campaignId lead) (Some (id lead)) EV_DEPLOYED (JObj [("url", JStr url)]).

Definition afterDeploy (lead : Lead) (url : string) (w : World) : World :=
  set_console
    (fun lines => lines ++ [logLine (campaignId lead) (id lead) "deployer"
                              ("deployed to " +:+ url +:+ " and queued email step 1")])
    (set_jobs (fun q => q ++ [mkQueuedJob "send-email" (EmailJob (id lead) One) None])
       (set_events (fun es => es ++ [deployedEvent lead url])
          (set_leads (updateRows (id lead) (deployData url)) w))).

(** The bundle Deploy finds for a lead: the [zipPath] of its latest
    SITE_GENERATED event. *)
Definition latestBundle (lead : Lead) (w : World) : option string :=
  bundleOf (find (eventMatches (campaignId lead) (id lead) EV_SITE_GENERATED) (rev (events w))).

(** The pool a request finds or, with an image provider that answers [gen],
    builds. *)
Definition poolFor (P : Providers) (gen : string → string → string) (niche style : string)
    (w : World) : ImagePool :=
  default (builtPool gen niche style) (imagePoolCache w !! poolKey P niche style).

(** Site-Generate, Image-Assign and Deploy of one lead, delivered in that
    order. *)
Definition buildAndDeploy (leadId : string) : list Delivery :=
  [Queued (SiteJob leadId); Queued (ImageJob leadId); Queued (DeployJob leadId)].

(** [/^https?:\/\//i.test(url)] *)
Definition hasHttpProtocol (url : string) : bool :=
  String.prefix "http://" (toLowerCase url) || String.prefix "https://" (toLowerCase url).

(** The three claims [extractClaims] can report, in its order. *)
Definition knownClaims : list string := ["licensed"; "insured"; "free estimates"].

(** A site that answers every request with the same HTML page. *)
Definition oneHtmlPage (body : string) (url : string) : option FetchResponse :=
  Some (mkFetchResponse true (Some "text/html; charset=utf-8") body).

Definition withFetch (fetch' : string → option FetchResponse) (P : Providers) : Providers :=
  mkProviders (listingsProvider P) fetch' (htmlText P) (toAbsoluteUrl P)
    (bestGuessPhone P) (bestGuessEmail P) (headingKeywords P) (generateSite P)
    (generateImage P) (injectImageUrls P) (deploy P) (sendEmail P) (placeCall P)
    (env_CALL_WEBHOOK_BASE_URL P) (unicodeToLowerCase P) (unicodeTrim P).

(** ** What no delivery undoes

    [committedKept]: a committed idempotency row is still there, unchanged.
    [appendOnly K]: the event table only grows at its end, no lead row and
    no campaign disappears, and the idempotency store moves along [K]. *)
Definition committedKept (ks ks' : gmap string IdempotencyKey) : Prop :=
  ∀ k row v,
    ks !! k = Some row → committedValue (ik_result row) = Some v → ks' !! k = Some row.

Definition appendOnly (K : relation (gmap string IdempotencyKey)) (w w' : World) : Prop :=
  events w `prefix_of` events w'
  ∧ map id (leads w) `prefix_of` map id (leads w')
  ∧ (∀ c, is_Some (campaigns w !! c) → is_Some (campaigns w' !! c))
  ∧ K (idempotencyKeys w) (idempotencyKeys w').

Definition grows {A} (K : relation (gmap string IdempotencyKey)) (m : M A) : Prop :=
  ∀ w, appendOnly K w (snd (m w)).

(** ** Contact caps *)

(** Entries of a [lead.update] that leave both contact counters alone. *)
Definition quiet (f : LeadField) : bool :=
  match f with
  | IncEmailSentCount _ | IncCallAttempts _ => false
  | _ => true
  end.

Definition quietKeeps (J : list Lead → Prop) : Prop :=
  ∀ k data rows, forallb quiet data = true → J rows → J (updateRows k data rows).

(** At most two emails and two calls per lead. *)
Definition withinCaps (rows : list Lead) : Prop :=
  Forall (fun l => emailSentCount l <= 2 ∧ callAttempts l <= 2) rows.

(** The answer to an accepted campaign command, and the world after it. *)
Definition accepted (k : string) : Response :=
  mkResponse 202 (JObj [("campaignId", JStr k); ("message", JStr "Pipeline running...")]).

Definition campaignCreated (k : string) (cmd : CampaignCommand) : Event :=
  mkEvent k None CAMPAIGN_CREATED
    (JObj [("niche", JStr (cmd_niche cmd)); ("city", JStr (cmd_city cmd));
           ("limit", JNum (cmd_limit cmd))]).

Definition afterCommand (k : string) (cmd : CampaignCommand) (w : World) : World :=
  set_jobs (fun q => q ++ [mkQueuedJob "scrape-leads" (ScrapeJob k) None])
    (set_events (fun es => es ++ [campaignCreated k cmd])
       (set_campaigns
          (insert k (mkCampaign (cmd_niche cmd) (cmd_city cmd) (cmd_limit cmd) RUNNING)) w)).

(** Every lead belongs to a campaign of the table (the foreign key
    [Lead_campaignId_fkey]). *)
Definition leadsHaveCampaigns (w : World) : Prop :=
  ∀ lead, In lead (leads w) → campaignExists (campaignId lead) w = true.

(** The outreach of one lead as the queues deliver it: Email step 1, the
    follow-up call it queued, Email step 2, and the follow-up call that one
    queued (again with [attempt: 1]). *)
Definition outreach (leadId : string) : list Delivery :=
  [Queued (EmailJob leadId One); Queued (CallJob leadId One);
   Queued (EmailJob leadId Two); Queued (CallJob leadId One)].

(** Properties of a string read character by character. *)
Fixpoint allChars (p : ascii → bool) (s : string) : bool :=
  match s with
  | EmptyString => true
  | String c rest => p c && allChars p rest
  end.

Definition startsWithDash (s : string) : bool :=
  match s with
  | String c _ => isDash c
  | EmptyString => false
  end.

Fixpoint hasDoubleDash (s : string) : bool :=
  match s with
  | EmptyString => false
  | String c rest => (isDash c && startsWithDash rest) || hasDoubleDash rest
  end.

Definition withDeploy (deploy' : string → string → Result string) (P : Providers) : Providers :=
  mkProviders (listingsProvider P) (fetch P) (htmlText P) (toAbsoluteUrl P)
    (bestGuessPhone P) (bestGuessEmail P) (headingKeywords P) (generateSite P)
    (generateImage P) (injectImageUrls P) deploy' (sendEmail P) (placeCall P)
    (env_CALL_WEBHOOK_BASE_URL P) (unicodeToLowerCase P) (unicodeTrim P).

(** [acmeImagesReady] with a generated bundle on record. *)
Definition readyToDeploy : World :=
  set_events
    (fun es => es ++ [siteEvent acmeImagesReady
                        (mkGenerateSiteOutput "/tmp/L1.zip" "Generated MVP static site bundle")])
    (ledgerOf acmeImagesReady).

Definition withSiteBuilder (build : GenerateSiteInput → Result GenerateSiteOutput)
    (P : Providers) : Providers :=
  mkProviders (listingsProvider P) (fetch P) (htmlText P) (toAbsoluteUrl P)
    (bestGuessPhone P) (bestGuessEmail P) (headingKeywords P) build
    (generateImage P) (injectImageUrls P) (deploy P) (sendEmail P) (placeCall P)
    (env_CALL_WEBHOOK_BASE_URL P) (unicodeToLowerCase P) (unicodeTrim P).

(** What any delivery leaves of a row: its campaign and its flags, with the
    opt-out flag only ever raised and the counters only ever going up. *)
Definition rowGrows (l l' : Lead) : Prop :=
  campaignId l' = campaignId l
  ∧ interested l' = interested l
  ∧ booked l' = booked l
  ∧ (doNotContact l = true → doNotContact l' = true)
  ∧ emailSentCount l <= emailSentCount l'
  ∧ callAttempts l <= callAttempts l'.

Definition tableGrows (rows rows' : list Lead) : Prop :=
  ∃ updated inserted, rows' = updated ++ inserted ∧ Forall2 rowGrows rows updated.

(** One metrics count does not exceed another, componentwise. *)
Definition countsGrow (m m' : CampaignMetrics) : Prop :=
  m_leadsTotal m <= m_leadsTotal m'
  ∧ m_emailed m <= m_emailed m'
  ∧ m_called m <= m_called m'
  ∧ m_interested m <= m_interested m'
  ∧ m_booked m <= m_booked m'
  ∧ m_doNotContact m <= m_doNotContact m'.

(** * Properties *)

(** ** The stage runner *)

Lemma committedValue_committedRow input r :
  committedValue (ik_result (committedRow input r)) = Some r.
Proof. reflexivity. Qed.

Lemma committedValue_None_result row :
  ik_result row = None → committedValue (ik_result row) = None.
Proof. intros ->. reflexivity. Qed.

Lemma runIdempotentStage_cached input w row value :
  idempotencyKeys w !! ri_key input = Some row →
  committedValue (ik_result row) = Some value →
  runIdempotentStage input w = (Ok (mkRunOutput false value), w).
Proof.
  intros Hrow Hval. unfold runIdempotentStage, bind, idem_findUnique, gets.
  rewrite Hrow, Hval. reflexivity.
Qed.

Lemma runIdempotentStage_in_flight input w row :
  idempotencyKeys w !! ri_key input = Some row →
  committedValue (ik_result row) = None →
  runIdempotentStage input w
  = (Ok (mkRunOutput false JNull), set_console (fun c => c ++ [inFlightLine input]) w).
Proof.
  intros Hrow Hval. unfold runIdempotentStage, bind, idem_findUnique, gets.
  rewrite Hrow, Hval. reflexivity.
Qed.

Lemma runIdempotentStage_fresh input w :
  idempotencyKeys w !! ri_key input = None →
  refsOk (Some (ri_campaignId input)) (Some (ri_leadId input)) w = true →
  runIdempotentStage input w
  = try_catch
      (r <- ri_run input ;;
       idem_update (ri_key input) (JObj [("value", r)]) ;;
       ret (mkRunOutput true r))
      (fun error => idem_delete (ri_key input) ;; throw error)
      (set_idempotencyKeys (insert (ri_key input) (claimRow input)) w).
Proof.
  intros Hnone Hrefs. unfold runIdempotentStage at 1.
  unfold bind at 1. unfold idem_findUnique, gets. rewrite Hnone.
  unfold bind at 1. unfold idem_create. cbn [ik_campaignId ik_leadId].
  rewrite Hnone, Hrefs. reflexivity.
Qed.

Lemma runIdempotentStage_success input w r w2 :
  idempotencyKeys w !! ri_key input = None →
  refsOk (Some (ri_campaignId input)) (Some (ri_leadId input)) w = true →
  ri_run input (set_idempotencyKeys (insert (ri_key input) (claimRow input)) w) = (Ok r, w2) →
  idempotencyKeys w2 = <[ri_key input := claimRow input]> (idempotencyKeys w) →
  runIdempotentStage input w
  = (Ok (mkRunOutput true r),
     set_idempotencyKeys (insert (ri_key input) (committedRow input r)) w2).
Proof.
  intros Hnone Hrefs Hrun Hkeys. rewrite runIdempotentStage_fresh by done.
  unfold try_catch, bind. rewrite Hrun. unfold idem_update.
  rewrite Hkeys, lookup_insert_eq. reflexivity.
Qed.

Lemma runIdempotentStage_failure input w e w2 :
  idempotencyKeys w !! ri_key input = None →
  refsOk (Some (ri_campaignId input)) (Some (ri_leadId input)) w = true →
  ri_run input (set_idempotencyKeys (insert (ri_key input) (claimRow input)) w) = (Throw e, w2) →
  idempotencyKeys w2 = <[ri_key input := claimRow input]> (idempotencyKeys w) →
  runIdempotentStage input w
  = (Throw e, set_idempotencyKeys (delete (ri_key input)) w2).
Proof.
  intros Hnone Hrefs Hrun Hkeys. rewrite runIdempotentStage_fresh by done.
  unfold try_catch, bind. rewrite Hrun. unfold idem_delete.
  rewrite Hkeys, lookup_insert_eq. reflexivity.
Qed.

(** C1.  [runIdempotentStage] on key [k]: a row with a committed result gives
    [{executed: false, result: cached}] and leaves the world as it was (the
    stage body is not run); a row without a result gives
    [{executed: false, result: null}], only logging the skip; with no row it
    inserts the claim row, runs the body on the world holding that claim, and
    on success commits the result and returns [{executed: true, result}], while
    on a failure of the body it deletes the claim row (the key is free again)
    and rethrows the same error.  The claim row references an existing
    campaign and lead (its foreign keys), and the body is any computation that
    leaves the IdempotencyKey table alone. *)
Theorem runIdempotentStage_contract (input : RunIdempotentStageInput) (w : World) :
  let k := ri_key input in
  let claimed := set_idempotencyKeys (insert k (claimRow input)) w in
  (∀ row value,
      idempotencyKeys w !! k = Some row →
      committedValue (ik_result row) = Some value →
      runIdempotentStage input w = (Ok (mkRunOutput false value), w))
  ∧ (∀ row,
      idempotencyKeys w !! k = Some row →
      ik_result row = None →
      runIdempotentStage input w
      = (Ok (mkRunOutput false JNull),
         set_console (fun c => c ++ [inFlightLine input]) w))
  ∧ (∀ r w2,
      idempotencyKeys w !! k = None →
      refsOk (Some (ri_campaignId input)) (Some (ri_leadId input)) w = true →
      ri_run input claimed = (Ok r, w2) →
      idempotencyKeys w2 = idempotencyKeys claimed →
      ∃ w3,
        runIdempotentStage input w = (Ok (mkRunOutput true r), w3)
        ∧ idempotencyKeys w3 = <[k := committedRow input r]> (idempotencyKeys w)
        ∧ committedValue (ik_result (committedRow input r)) = Some r
        ∧ leads w3 = leads w2 ∧ events w3 = events w2 ∧ jobs w3 = jobs w2
        ∧ outbox w3 = outbox w2 ∧ console w3 = console w2
        ∧ campaigns w3 = campaigns w2 ∧ imagePoolCache w3 = imagePoolCache w2)
  ∧ (∀ e w2,
      idempotencyKeys w !! k = None →
      refsOk (Some (ri_campaignId input)) (Some (ri_leadId input)) w = true →
      ri_run input claimed = (Throw e, w2) →
      idempotencyKeys w2 = idempotencyKeys claimed →
      ∃ w3,
        runIdempotentStage input w = (Throw e, w3)
        ∧ idempotencyKeys w3 = idempotencyKeys w
        ∧ idempotencyKeys w3 !! k = None
        ∧ leads w3 = leads w2 ∧ events w3 = events w2 ∧ jobs w3 = jobs w2
        ∧ outbox w3 = outbox w2 ∧ console w3 = console w2
        ∧ campaigns w3 = campaigns w2 ∧ imagePoolCache w3 = imagePoolCache w2).
Proof.
  intros k claimed. repeat split.
  - intros row value Hrow Hval. by apply runIdempotentStage_cached with row.
  - intros row Hrow Hres. apply runIdempotentStage_in_flight with row; [done|].
    by apply committedValue_None_result.
  - intros r w2 Hnone Hrefs Hrun Hkeys. eexists. split.
    + by apply runIdempotentStage_success.
    + cbn. rewrite Hkeys. cbn. rewrite insert_insert_eq. done.
  - intros e w2 Hnone Hrefs Hrun Hkeys. eexists. split.
    + by apply runIdempotentStage_failure.
    + cbn. rewrite Hkeys. cbn. rewrite delete_insert_eq, delete_id by done. done.
Qed.

Lemma runIdempotentStage_contract_witness :
  ∃ w3,
    runIdempotentStage acmeEmailStage ledger
    = (Ok (mkRunOutput true (JObj [("providerMessageId", JStr "fake-0")])), w3)
    ∧ idempotencyKeys w3 !! "email:L1:step:1"
      = Some (committedRow acmeEmailStage (JObj [("providerMessageId", JStr "fake-0")])).
Proof.
  destruct (runIdempotentStage_contract acmeEmailStage ledger) as (_ & _ & Hfresh & _).
  destruct (Hfresh (JObj [("providerMessageId", JStr "fake-0")])
              (snd (ri_run acmeEmailStage
                      (set_idempotencyKeys
                         (insert (ri_key acmeEmailStage) (claimRow acmeEmailStage)) ledger))))
    as (w3 & Hrun & Hkeys & _).
  - vm_compute. reflexivity.
  - vm_compute. reflexivity.
  - vm_compute. reflexivity.
  - vm_compute. reflexivity.
  - exists w3. split; [exact Hrun|]. rewrite Hkeys. vm_compute. reflexivity.
Defined.

(** ** The monad and the stores *)

Lemma bind_ok {A B} (m : M A) (k : A → M B) w a w' :
  m w = (Ok a, w') → bind m k w = k a w'.
Proof. intros H. unfold bind. by rewrite H. Qed.

Lemma bind_throw {A B} (m : M A) (k : A → M B) w e w' :
  m w = (Throw e, w') → bind m k w = (Throw e, w').
Proof. intros H. unfold bind. by rewrite H. Qed.

(** Run the next statement of a handler whose outcome [tac] establishes. *)
Ltac run_with tac := erewrite bind_ok by tac; cbv beta iota.

Lemma find_hasId rows k l : find (hasId k) rows = Some l → id l = k.
Proof.
  intros H. apply find_some in H as [_ H]. unfold hasId in H.
  by apply String.eqb_eq in H.
Qed.

Lemma applyField_keys f l :
  id (applyField f l) = id l
  ∧ campaignId (applyField f l) = campaignId l
  ∧ websiteUrl (applyField f l) = websiteUrl l.
Proof. by destruct f. Qed.

Lemma applyData_keys data l :
  id (applyData data l) = id l
  ∧ campaignId (applyData data l) = campaignId l
  ∧ websiteUrl (applyData data l) = websiteUrl l.
Proof.
  unfold applyData. revert l. induction data as [|f data IH]; intros l; [done|].
  cbn. destruct (IH (applyField f l)) as (-> & -> & ->). apply applyField_keys.
Qed.

Lemma hasId_applyData k data l : hasId k (applyData data l) = hasId k l.
Proof. unfold hasId. by destruct (applyData_keys data l) as (-> & _). Qed.

Lemma find_updateRows k data rows :
  find (hasId k) (updateRows k data rows) = applyData data <$> find (hasId k) rows.
Proof.
  unfold updateRows. induction rows as [|l rows IH]; [done|]. cbn.
  destruct (hasId k l) eqn:Hl.
  - by rewrite hasId_applyData, Hl.
  - by rewrite Hl.
Qed.

Lemma existsb_hasId_updateRows k k' data rows :
  existsb (hasId k') (updateRows k data rows) = existsb (hasId k') rows.
Proof.
  unfold updateRows. induction rows as [|l rows IH]; [done|]. cbn. rewrite IH. f_equal.
  destruct (hasId k l); [apply hasId_applyData|done].
Qed.

Lemma find_existsb {A} (f : A → bool) rows l : find f rows = Some l → existsb f rows = true.
Proof.
  intros H. apply find_some in H as [Hin Hf]. apply existsb_exists. eauto.
Qed.

Lemma length_updateRows k data rows : length (updateRows k data rows) = length rows.
Proof. unfold updateRows. by rewrite length_map. Qed.

Lemma lead_update_found k data w l :
  find (hasId k) (leads w) = Some l →
  lead_update k data w = (Ok (applyData data l), set_leads (updateRows k data) w).
Proof. intros H. unfold lead_update. by rewrite H. Qed.

Lemma event_create_ok c l t metadata w :
  refsOk (Some c) l w = true →
  event_create c l t metadata w
  = (Ok tt, set_events (fun es => es ++ [mkEvent c l t metadata]) w).
Proof. intros H. unfold event_create. by rewrite H. Qed.

Lemma refsOk_lead c k w l :
  campaignExists c w = true →
  find (hasId k) (leads w) = Some l →
  refsOk (Some c) (Some k) w = true.
Proof.
  intros Hc Hl. unfold refsOk, leadExists. rewrite Hc. cbn.
  by apply find_existsb with l.
Qed.

(** ** The Email and Call stage bodies *)

Lemma emailRun_ok P lead step w messageId :
  find (hasId (id lead)) (leads w) = Some lead →
  campaignExists (campaignId lead) w = true →
  sendEmail P (outbox w) (emailInput lead step) = Ok messageId →
  emailRun P lead step w
  = (Ok (JObj [("providerMessageId", JStr messageId)]),
     set_jobs (fun q => q ++ [followUpCall (id lead)])
       (set_events (fun es => es ++ [emailEvent lead step messageId])
          (set_leads (updateRows (id lead) emailData)
             (set_outbox (fun o => o ++ [SentEmail (emailInput lead step)]) w)))).
Proof.
  intros Hfind Hcamp Hsend. unfold emailRun.
  run_with ltac:(unfold gets; reflexivity).
  run_with ltac:(unfold modify; reflexivity).
  run_with ltac:(unfold liftR; rewrite Hsend; reflexivity).
  run_with ltac:(apply lead_update_found; exact Hfind).
  run_with ltac:(apply event_create_ok; apply refsOk_lead with (applyData emailData lead);
            [exact Hcamp | cbn [leads set_leads]; rewrite find_updateRows;
                           cbn [leads set_outbox]; rewrite Hfind; reflexivity]).
  run_with ltac:(unfold queue_add, modify; reflexivity).
  reflexivity.
Qed.

Lemma callRun_ok P lead attempt w callId :
  find (hasId (id lead)) (leads w) = Some lead →
  campaignExists (campaignId lead) w = true →
  placeCall P (outbox w) (callInput P lead) = Ok callId →
  callRun P lead attempt w
  = (Ok (JObj [("callId", JStr callId)]),
     set_events (fun es => es ++ [callEvent P lead attempt callId])
       (set_leads (updateRows (id lead) callData)
          (set_outbox (fun o => o ++ [PlacedCall (callInput P lead)]) w))).
Proof.
  intros Hfind Hcamp Hcall. unfold callRun.
  run_with ltac:(unfold gets; reflexivity).
  run_with ltac:(unfold modify; reflexivity).
  run_with ltac:(unfold liftR; rewrite Hcall; reflexivity).
  run_with ltac:(apply lead_update_found; exact Hfind).
  run_with ltac:(apply event_create_ok; apply refsOk_lead with (applyData callData lead);
            [exact Hcamp | cbn [leads set_leads]; rewrite find_updateRows;
                           cbn [leads set_outbox]; rewrite Hfind; reflexivity]).
  reflexivity.
Qed.

(** The first delivery of an Email job to an eligible lead. *)
Lemma processEmailJob_first P w lead step messageId :
  find (hasId (id lead)) (leads w) = Some lead →
  campaignExists (campaignId lead) w = true →
  doNotContact lead = false →
  truthy (email lead) = true →
  truthy (demoUrl lead) = true →
  emailSentCount lead < num step →
  idempotencyKeys w !! emailKey (id lead) step = None →
  sendEmail P (outbox w) (emailInput lead step) = Ok messageId →
  processEmailJob P (id lead) step w = (Ok tt, afterEmail P lead step messageId w).
Proof.
  intros Hfind Hcamp Hdnc Hemail Hdemo Hcount Hkey Hsend. unfold processEmailJob.
  run_with ltac:(unfold lead_findUnique, gets; rewrite Hfind; reflexivity).
  rewrite Hdnc, Hemail, Hdemo. cbn [negb].
  destruct (emailSentCount lead >=? num step) eqn:Hge; [lia|].
  run_with ltac:(apply (runIdempotentStage_success (emailStage P lead step) w
                     (JObj [("providerMessageId", JStr messageId)]));
            [ exact Hkey
            | cbn [ri_campaignId ri_leadId emailStage];
              apply refsOk_lead with lead; [exact Hcamp | exact Hfind]
            | apply emailRun_ok; [exact Hfind | exact Hcamp | exact Hsend]
            | reflexivity ]).
  reflexivity.
Qed.

(** The first delivery of a Call job to an eligible lead. *)
Lemma processCallJob_first P w lead attempt callId :
  find (hasId (id lead)) (leads w) = Some lead →
  campaignExists (campaignId lead) w = true →
  doNotContact lead = false →
  truthy (phone lead) = true →
  callAttempts lead < 2 →
  idempotencyKeys w !! callKey (id lead) attempt = None →
  placeCall P (outbox w) (callInput P lead) = Ok callId →
  processCallJob P (id lead) attempt w = (Ok tt, afterCall P lead attempt callId w).
Proof.
  intros Hfind Hcamp Hdnc Hphone Hcount Hkey Hcall. unfold processCallJob.
  run_with ltac:(unfold lead_findUnique, gets; rewrite Hfind; reflexivity).
  rewrite Hdnc, Hphone. cbn [negb].
  destruct (callAttempts lead >=? 2) eqn:Hge; [lia|].
  run_with ltac:(apply (runIdempotentStage_success (callStage P lead attempt) w
                     (JObj [("callId", JStr callId)]));
            [ exact Hkey
            | cbn [ri_campaignId ri_leadId callStage];
              apply refsOk_lead with lead; [exact Hcamp | exact Hfind]
            | apply callRun_ok; [exact Hfind | exact Hcamp | exact Hcall]
            | reflexivity ]).
  reflexivity.
Qed.

Lemma afterEmail_row P lead step messageId w :
  find (hasId (id lead)) (leads w) = Some lead →
  find (hasId (id lead)) (leads (afterEmail P lead step messageId w))
  = Some (applyData emailData lead).
Proof.
  intros Hfind. unfold afterEmail. cbn [leads set_console set_idempotencyKeys set_jobs
    set_events set_leads set_outbox]. by rewrite find_updateRows, Hfind.
Qed.

Lemma afterCall_row P lead attempt callId w :
  find (hasId (id lead)) (leads w) = Some lead →
  find (hasId (id lead)) (leads (afterCall P lead attempt callId w))
  = Some (applyData callData lead).
Proof.
  intros Hfind. unfold afterCall. cbn [leads set_console set_idempotencyKeys set_jobs
    set_events set_leads set_outbox]. by rewrite find_updateRows, Hfind.
Qed.

(** Once a stage has committed, the runner replays the cached result for that
    key whatever body it is handed, and changes nothing. *)
Lemma runIdempotentStage_replay input r w run' :
  idempotencyKeys w !! ri_key input = Some (committedRow input r) →
  runIdempotentStage
    (mkRunInput (ri_key input) (ri_stage input) (ri_campaignId input) (ri_leadId input)
       (ri_workerName input) run') w
  = (Ok (mkRunOutput false r), w).
Proof.
  intros Hrow. apply runIdempotentStage_cached with (committedRow input r); [exact Hrow|].
  reflexivity.
Qed.

(** A second delivery of the same Email job, after the first one succeeded:
    a skip, visible on the console only. *)
Lemma processEmailJob_again P w lead step messageId :
  find (hasId (id lead)) (leads w) = Some lead →
  doNotContact lead = false →
  truthy (email lead) = true →
  truthy (demoUrl lead) = true →
  ∃ line,
    processEmailJob P (id lead) step (afterEmail P lead step messageId w)
    = (Ok tt, set_console (fun c => c ++ [line]) (afterEmail P lead step messageId w)).
Proof.
  intros Hfind Hdnc Hemail Hdemo. unfold processEmailJob.
  run_with ltac:(unfold lead_findUnique, gets; rewrite afterEmail_row by exact Hfind;
                 reflexivity).
  cbn [applyData emailData fold_left applyField doNotContact email demoUrl emailSentCount
       id campaignId].
  rewrite Hdnc, Hemail, Hdemo. cbn [negb].
  destruct (emailSentCount lead + 1 >=? num step).
  - eexists. reflexivity.
  - run_with ltac:(apply (runIdempotentStage_replay (emailStage P lead step)
                            (JObj [("providerMessageId", JStr messageId)]));
                   unfold afterEmail; cbn [idempotencyKeys set_console set_idempotencyKeys];
                   apply lookup_insert_eq).
    eexists. reflexivity.
Qed.

(** A second delivery of the same Call job, after the first one succeeded. *)
Lemma processCallJob_again P w lead attempt callId :
  find (hasId (id lead)) (leads w) = Some lead →
  doNotContact lead = false →
  truthy (phone lead) = true →
  ∃ line,
    processCallJob P (id lead) attempt (afterCall P lead attempt callId w)
    = (Ok tt, set_console (fun c => c ++ [line]) (afterCall P lead attempt callId w)).
Proof.
  intros Hfind Hdnc Hphone. unfold processCallJob.
  run_with ltac:(unfold lead_findUnique, gets; rewrite afterCall_row by exact Hfind;
                 reflexivity).
  cbn [applyData callData fold_left applyField doNotContact phone callAttempts
       id campaignId].
  rewrite Hdnc, Hphone. cbn [negb].
  destruct (callAttempts lead + 1 >=? 2).
  - eexists. reflexivity.
  - run_with ltac:(apply (runIdempotentStage_replay (callStage P lead attempt)
                            (JObj [("callId", JStr callId)]));
                   unfold afterCall; cbn [idempotencyKeys set_console set_idempotencyKeys];
                   apply lookup_insert_eq).
    eexists. reflexivity.
Qed.

(** ** Idempotency of the side-effecting stages *)

(** C2.  For the Email stage (any step) and the Call stage (any attempt): when
    the handler is delivered twice in a row for a lead it is due for, and the
    provider accepts the request, the provider is called exactly once (by the
    first delivery; the second adds no call), and in the world left by the
    first delivery [runIdempotentStage] on the same key returns
    [{executed: false}] with the result of the first execution, whatever body
    it is handed, without changing anything. *)
Theorem side_effect_exactly_once (P : Providers) (w : World) (lead : Lead) :
  find (hasId (id lead)) (leads w) = Some lead →
  campaignExists (campaignId lead) w = true →
  doNotContact lead = false →
  (∀ step messageId,
      truthy (email lead) = true →
      truthy (demoUrl lead) = true →
      emailSentCount lead < num step →
      idempotencyKeys w !! emailKey (id lead) step = None →
      sendEmail P (outbox w) (emailInput lead step) = Ok messageId →
      ∃ w1 w2,
        processEmailJob P (id lead) step w = (Ok tt, w1)
        ∧ processEmailJob P (id lead) step w1 = (Ok tt, w2)
        ∧ outbox w1 = outbox w ++ [SentEmail (emailInput lead step)]
        ∧ outbox w2 = outbox w1
        ∧ ∀ run',
            runIdempotentStage
              (mkRunInput (emailKey (id lead) step) "email" (campaignId lead) (id lead)
                 "emailer" run') w1
            = (Ok (mkRunOutput false (JObj [("providerMessageId", JStr messageId)])), w1))
  ∧ (∀ attempt callId,
      truthy (phone lead) = true →
      callAttempts lead < 2 →
      idempotencyKeys w !! callKey (id lead) attempt = None →
      placeCall P (outbox w) (callInput P lead) = Ok callId →
      ∃ w1 w2,
        processCallJob P (id lead) attempt w = (Ok tt, w1)
        ∧ processCallJob P (id lead) attempt w1 = (Ok tt, w2)
        ∧ outbox w1 = outbox w ++ [PlacedCall (callInput P lead)]
        ∧ outbox w2 = outbox w1
        ∧ ∀ run',
            runIdempotentStage
              (mkRunInput (callKey (id lead) attempt) "call" (campaignId lead) (id lead)
                 "caller" run') w1
            = (Ok (mkRunOutput false (JObj [("callId", JStr callId)])), w1)).
Proof.
  intros Hfind Hcamp Hdnc. split.
  - intros step messageId Hemail Hdemo Hcount Hkey Hsend.
    destruct (processEmailJob_again P w lead step messageId Hfind Hdnc Hemail Hdemo)
      as [line Hagain].
    exists (afterEmail P lead step messageId w). eexists.
    split; [by apply processEmailJob_first|]. split; [exact Hagain|].
    split; [reflexivity|]. split; [reflexivity|].
    intros run'.
    apply (runIdempotentStage_replay (emailStage P lead step)
             (JObj [("providerMessageId", JStr messageId)])).
    unfold afterEmail. cbn [idempotencyKeys set_console set_idempotencyKeys].
    apply lookup_insert_eq.
  - intros attempt callId Hphone Hcount Hkey Hcall.
    destruct (processCallJob_again P w lead attempt callId Hfind Hdnc Hphone)
      as [line Hagain].
    exists (afterCall P lead attempt callId w). eexists.
    split; [by apply processCallJob_first|]. split; [exact Hagain|].
    split; [reflexivity|]. split; [reflexivity|].
    intros run'.
    apply (runIdempotentStage_replay (callStage P lead attempt)
             (JObj [("callId", JStr callId)])).
    unfold afterCall. cbn [idempotencyKeys set_console set_idempotencyKeys].
    apply lookup_insert_eq.
Qed.

Lemma side_effect_exactly_once_witness :
  ∃ w1 w2,
    processCallJob fakeProviders "L1" One ledger = (Ok tt, w1)
    ∧ processCallJob fakeProviders "L1" One w1 = (Ok tt, w2)
    ∧ outbox w1 = [PlacedCall (callInput fakeProviders acme)]
    ∧ outbox w2 = outbox w1.
Proof.
  destruct (side_effect_exactly_once fakeProviders ledger acme) as [_ Hcall];
    [reflexivity | reflexivity | reflexivity |].
  destruct (Hcall One "fake-call-0") as (w1 & w2 & H1 & H2 & H3 & H4 & _);
    [reflexivity | cbn; lia | reflexivity | reflexivity |].
  exists w1, w2. repeat split; assumption.
Defined.

(** ** Scenario C: the follow-up call and redelivery of Email step 1 *)

(** C8.  When Email step 1 succeeds for a lead that has had no email yet, the
    handler adds exactly one job to the call queue, [{leadId, attempt: 1}]
    with a delay of 30 minutes (1 800 000 ms), and the lead's
    [emailSentCount] is 1; at that point the guard [emailSentCount >= step]
    holds and the key [email:{leadId}:step:1] is committed, and a redelivery
    of the same job returns normally leaving the lead row ([emailSentCount]
    still 1), the queues and the provider's calls as they were. *)
Theorem email_step1_then_redelivery (P : Providers) (w : World) (lead : Lead)
    (messageId : string) :
  find (hasId (id lead)) (leads w) = Some lead →
  campaignExists (campaignId lead) w = true →
  doNotContact lead = false →
  truthy (email lead) = true →
  truthy (demoUrl lead) = true →
  emailSentCount lead = 0 →
  idempotencyKeys w !! ("email:" +:+ id lead +:+ ":step:1") = None →
  sendEmail P (outbox w) (emailInput lead One) = Ok messageId →
  ∃ w1 w2 lead1 row,
    processEmailJob P (id lead) One w = (Ok tt, w1)
    ∧ jobs w1 = jobs w ++ [mkQueuedJob "place-call" (CallJob (id lead) One) (Some 1800000)]
    ∧ find (hasId (id lead)) (leads w1) = Some lead1
    ∧ emailSentCount lead1 = 1
    ∧ (emailSentCount lead1 >=? num One) = true
    ∧ idempotencyKeys w1 !! ("email:" +:+ id lead +:+ ":step:1") = Some row
    ∧ committedValue (ik_result row) = Some (JObj [("providerMessageId", JStr messageId)])
    ∧ processEmailJob P (id lead) One w1 = (Ok tt, w2)
    ∧ find (hasId (id lead)) (leads w2) = Some lead1
    ∧ jobs w2 = jobs w1
    ∧ outbox w2 = outbox w1
    ∧ events w2 = events w1.
Proof.
  intros Hfind Hcamp Hdnc Hemail Hdemo Hcount Hkey Hsend.
  destruct (processEmailJob_again P w lead One messageId Hfind Hdnc Hemail Hdemo)
    as [line Hagain].
  exists (afterEmail P lead One messageId w).
  exists (set_console (fun c => c ++ [line]) (afterEmail P lead One messageId w)).
  exists (applyData emailData lead).
  exists (committedRow (emailStage P lead One) (JObj [("providerMessageId", JStr messageId)])).
  split; [apply processEmailJob_first; try done; rewrite Hcount; done|].
  split; [reflexivity|].
  split; [by apply afterEmail_row|].
  assert (Hone : emailSentCount (applyData emailData lead) = 1) by (cbn; lia).
  split; [exact Hone|].
  split; [rewrite Hone; reflexivity|].
  split; [unfold afterEmail; cbn [idempotencyKeys set_console set_idempotencyKeys];
          apply lookup_insert_eq|].
  split; [reflexivity|].
  split; [exact Hagain|].
  split; [cbn [leads set_console]; by apply afterEmail_row|].
  repeat split.
Qed.

Lemma email_step1_then_redelivery_witness :
  ∃ w1 w2,
    processEmailJob fakeProviders "L1" One ledger = (Ok tt, w1)
    ∧ jobs w1 = [mkQueuedJob "place-call" (CallJob "L1" One) (Some 1800000)]
    ∧ processEmailJob fakeProviders "L1" One w1 = (Ok tt, w2)
    ∧ (emailSentCount <$> find (hasId "L1") (leads w2)) = Some 1.
Proof.
  destruct (email_step1_then_redelivery fakeProviders ledger acme "fake-0")
    as (w1 & w2 & lead1 & row & H1 & H2 & H3 & H4 & _ & _ & _ & H8 & H9 & _);
    [reflexivity | reflexivity | reflexivity | reflexivity | reflexivity | reflexivity
    | reflexivity | reflexivity |].
  exists w1, w2. split; [exact H1|]. split; [exact H2|]. split; [exact H8|].
  change (id acme) with "L1" in H9. rewrite H9. cbn. by rewrite H4.
Defined.

(** ** Webhook ingestion *)

Lemma append_nil_l (s : string) : "" +:+ s = s.
Proof. reflexivity. Qed.

Lemma append_cons c (s t : string) : String c s +:+ t = String c (s +:+ t).
Proof. reflexivity. Qed.

Lemma prefix_nil text : String.prefix "" text = true.
Proof. by destruct text. Qed.

Lemma prefix_cons c d phrase text :
  String.prefix (String c phrase) (String d text)
  = if Ascii.ascii_dec c d then String.prefix phrase text else false.
Proof. reflexivity. Qed.

Lemma prefix_spec phrase text :
  String.prefix phrase text = true ↔ ∃ after, text = phrase +:+ after.
Proof.
  revert text. induction phrase as [|c phrase IH]; intros text.
  - rewrite prefix_nil. split; [intros _; by exists text|done].
  - destruct text as [|d text].
    + change (String.prefix (String c phrase) "") with false.
      split; [done|]. intros [after Heq]. rewrite append_cons in Heq. done.
    + rewrite prefix_cons. destruct (Ascii.ascii_dec c d) as [->|Hne].
      * rewrite IH. split.
        -- intros [after ->]. by exists after.
        -- intros [after Heq]. exists after. rewrite append_cons in Heq. by injection Heq.
      * split; [done|]. intros [after Heq]. rewrite append_cons in Heq.
        injection Heq as ??. by subst.
Qed.

Lemma includes_nil phrase : includes "" phrase = String.prefix phrase "".
Proof. by destruct phrase. Qed.

Lemma includes_cons c text phrase :
  includes (String c text) phrase
  = if String.prefix phrase (String c text) then true else includes text phrase.
Proof. reflexivity. Qed.

Lemma includes_spec text phrase :
  includes text phrase = true ↔ isSubstring phrase text.
Proof.
  unfold isSubstring. induction text as [|c text IH].
  - rewrite includes_nil, prefix_spec. split.
    + intros [after Heq]. by exists "", after.
    + intros (before & after & Heq). destruct before as [|d before].
      * by exists after.
      * rewrite append_cons in Heq. done.
  - rewrite includes_cons. destruct (String.prefix phrase (String c text)) eqn:Hp.
    + split; [intros _|done]. apply prefix_spec in Hp as [after Heq]. by exists "", after.
    + rewrite IH. split.
      * intros (before & after & ->). by exists (String c before), after.
      * intros (before & after & Heq). destruct before as [|d before].
        -- rewrite append_nil_l in Heq.
           assert (String.prefix phrase (String c text) = true)
             by (apply prefix_spec; by exists after).
           congruence.
        -- rewrite append_cons in Heq. injection Heq as -> ->. by exists before, after.
Qed.

Lemma hasOptOutIntent_spec transcript :
  hasOptOutIntent transcript = true
  ↔ ∃ phrase, In phrase optOutPhrases ∧ isSubstring phrase (toLowerCase transcript).
Proof.
  unfold hasOptOutIntent. rewrite existsb_exists.
  split; intros (phrase & Hin & H); exists phrase; (split; [exact Hin|]);
    by apply includes_spec.
Qed.

Lemma truthy_nonempty s : s ≠ "" → truthy (Some s) = true.
Proof. by destruct s. Qed.

Lemma optOutOf_detected payload transcript :
  wp_transcript payload = Some transcript →
  hasOptOutIntent transcript = true →
  optOutOf payload = true.
Proof.
  intros Ht Hopt. unfold optOutOf. rewrite Ht. cbn [from_option Datatypes.id].
  destruct transcript as [|c rest]; [discriminate Hopt|]. exact Hopt.
Qed.

(** The handler once the correlation ids are resolved to an existing lead. *)
Lemma callWebhookHandler_lead zodDetails provider body payload k lead w :
  callWebhookSchema body = Some payload →
  wp_leadId payload = Some k →
  k ≠ "" →
  find (hasId k) (leads w) = Some lead →
  campaignId lead ≠ "" →
  campaignExists (campaignId lead) w = true →
  callWebhookHandler zodDetails provider body w
  = (Ok (webhookOk provider (optOutOf payload)),
     (if optOutOf payload
      then set_leads (updateRows (id lead) [SetDoNotContact true; SetStatus DO_NOT_CONTACT])
      else fun w' => w')
       (set_events
          (fun es => es ++ [callResultEvent provider payload (Some (id lead)) (campaignId lead)])
          w)).
Proof.
  intros Hparse Hlead Hk Hfind Hc Hcamp.
  unfold callWebhookHandler, callResultEvent, webhookOk. unfold optOutOf.
  rewrite Hparse, Hlead.
  rewrite (truthy_nonempty k Hk). cbn [from_option Datatypes.id].
  set (optOut := if 0 <? _ then hasOptOutIntent _ else false). clearbody optOut.
  run_with ltac:(erewrite bind_ok
                   by (unfold lead_findUnique, gets; rewrite Hfind; reflexivity);
                 reflexivity).
  assert (Hid : id lead = k) by (by apply find_hasId with (leads w)).
  assert (Htruthy : truthy (Some (id lead)) = true) by (rewrite Hid; by apply truthy_nonempty).
  rewrite (truthy_nonempty _ Hc). cbn [negb from_option Datatypes.id].
  run_with ltac:(apply event_create_ok; apply refsOk_lead with lead;
                 [exact Hcamp | rewrite Hid; exact Hfind]).
  rewrite Htruthy. cbn [andb from_option Datatypes.id].
  destruct optOut.
  - run_with ltac:(erewrite bind_ok
                     by (apply lead_update_found; cbn [leads set_events];
                         rewrite Hid; exact Hfind);
                   reflexivity).
    reflexivity.
  - reflexivity.
Qed.


Lemma optOutOf_spec payload :
  optOutOf payload = true
  ↔ ∃ transcript phrase,
      wp_transcript payload = Some transcript
      ∧ In phrase optOutPhrases
      ∧ isSubstring phrase (toLowerCase transcript).
Proof.
  unfold optOutOf. split.
  - destruct (wp_transcript payload) as [transcript|]; cbn [from_option Datatypes.id].
    + destruct (0 <? _); [|done]. intros H.
      apply hasOptOutIntent_spec in H as (phrase & Hin & Hsub). by exists transcript, phrase.
    + cbn. done.
  - intros (transcript & phrase & -> & Hin & Hsub). cbn [from_option Datatypes.id].
    assert (Hopt : hasOptOutIntent transcript = true)
      by (apply hasOptOutIntent_spec; by exists phrase).
    destruct transcript as [|ch rest]; [discriminate Hopt|]. exact Hopt.
Qed.

(** The claim as it stands fails: "don't call" is detected, and is none of the
    five phrases. *)
Lemma dont_call_is_not_a_specified_phrase :
  hasOptOutIntent "Please don't call me again" = true
  ∧ ¬ ∃ phrase,
        In phrase specifiedPhrases
        ∧ isSubstring phrase (toLowerCase "Please don't call me again").
Proof.
  split; [reflexivity|].
  intros (phrase & Hin & Hsub). apply includes_spec in Hsub.
  cbn in Hin. destruct Hin as [<-|[<-|[<-|[<-|[<-|[]]]]]]; vm_compute in Hsub; discriminate.
Qed.

(** C7 (amended).  The webhook handler detects opt-out intent exactly when the
    transcript contains, as a substring after lower-casing, one of the six
    phrases "do not call", "don't call", "stop calling", "remove me",
    "opt out", "unsubscribe"; on a match, with a [leadId] that resolves to a
    lead, it answers [optOutApplied: true], appends a CALL_RESULT event with
    [optOut: true] and sets the lead's [doNotContact] to true and its status
    to DO_NOT_CONTACT. *)
Theorem opt_out_detection_and_effect (zodDetails : Json → Json) (provider : string) :
  optOutPhrases
  = ["do not call"; "don't call"; "stop calling"; "remove me"; "opt out"; "unsubscribe"]
  ∧ detectsExactly optOutPhrases
  ∧ (∀ payload,
        optOutOf payload = true
        ↔ ∃ transcript phrase,
            wp_transcript payload = Some transcript
            ∧ In phrase optOutPhrases
            ∧ isSubstring phrase (toLowerCase transcript))
  ∧ (∀ body payload k lead w,
        callWebhookSchema body = Some payload →
        wp_leadId payload = Some k →
        k ≠ "" →
        find (hasId k) (leads w) = Some lead →
        campaignId lead ≠ "" →
        campaignExists (campaignId lead) w = true →
        optOutOf payload = true →
        ∃ w' e lead',
          callWebhookHandler zodDetails provider body w = (Ok (webhookOk provider true), w')
          ∧ events w' = events w ++ [e]
          ∧ ev_type e = CALL_RESULT
          ∧ ev_leadId e = Some k
          ∧ json_get "optOut" (ev_metadata e) = Some (JBool true)
          ∧ find (hasId k) (leads w') = Some lead'
          ∧ doNotContact lead' = true
          ∧ status lead' = DO_NOT_CONTACT).
Proof.
  split; [reflexivity|]. split; [exact hasOptOutIntent_spec|].
  split; [exact optOutOf_spec|].
  intros body payload k lead w Hparse Hlead Hk Hfind Hc Hcamp Hopt.
  pose proof (callWebhookHandler_lead zodDetails provider body payload k lead w
                Hparse Hlead Hk Hfind Hc Hcamp) as Hrun.
  rewrite Hopt in Hrun.
  assert (Hid : id lead = k) by (by apply find_hasId with (leads w)).
  eexists. exists (callResultEvent provider payload (Some (id lead)) (campaignId lead)).
  exists (applyData [SetDoNotContact true; SetStatus DO_NOT_CONTACT] lead).
  split; [exact Hrun|]. split; [reflexivity|]. split; [reflexivity|].
  split; [cbn; by rewrite Hid|].
  split; [cbn; by rewrite Hopt|].
  split; [|done].
  cbn [leads set_leads set_events]. rewrite Hid, find_updateRows, Hfind. reflexivity.
Qed.

Lemma opt_out_detection_and_effect_witness :
  ∃ w',
    callWebhookHandler (fun _ => JNull) "fake" optOutBody ledger
    = (Ok (webhookOk "fake" true), w')
    ∧ (status <$> find (hasId "L1") (leads w')) = Some DO_NOT_CONTACT.
Proof.
  destruct (opt_out_detection_and_effect (fun _ => JNull) "fake") as (_ & _ & _ & H).
  destruct (H optOutBody
              (mkWebhookPayload (Some "L1") (Some "C9") None "answered"
                 (Some "Please REMOVE ME from your list"))
              "L1" acme ledger)
    as (w' & e & lead' & Hrun & _ & _ & _ & _ & Hrow & _ & Hstatus);
    [reflexivity | reflexivity | discriminate | reflexivity | discriminate | reflexivity
    | reflexivity |].
  exists w'. split; [exact Hrun|]. rewrite Hrow. cbn. by rewrite Hstatus.
Defined.



(** ** Enrichment degrades, it does not fail *)

Lemma safeFetchHtml_noHtml P url : noHtml P url → safeFetchHtml P url = None.
Proof.
  unfold noHtml, safeFetchHtml. destruct (fetch P url) as [response|]; [|done].
  intros [-> | Hct]; [done|]. destruct (resp_ok response); [|done]. cbn [negb].
  by rewrite Hct.
Qed.

Lemma crawl_without_html P website extracted :
  (∀ url, noHtml P url) →
  crawlLeadWebsite P website = Ok extracted →
  ex_serviceKeywords extracted = []
  ∧ ex_claims extracted = []
  ∧ ex_pagesVisited extracted = [].
Proof.
  intros Hno. unfold crawlLeadWebsite.
  destruct (toAbsoluteUrl P _ "/services") as [servicesUrl|]; [|done].
  destruct (toAbsoluteUrl P _ "/contact") as [contactUrl|]; [|done].
  cbn [omap list_omap]. rewrite !safeFetchHtml_noHtml by apply Hno.
  intros [= <-]. done.
Qed.

(** The four writes that end every path of [processEnrichJob]. *)
Lemma enrich_writes leadId lead data metadata message w :
  find (hasId leadId) (leads w) = Some lead →
  campaignExists (campaignId lead) w = true →
  (lead_update leadId data ;;
   event_create (campaignId lead) (Some leadId) LEAD_ENRICHED metadata ;;
   enqueueSite leadId ;;
   logMessage "enricher" (campaignId lead) leadId message) w
  = (Ok tt,
     afterEnrich leadId (campaignId lead) data metadata
       (logLine (campaignId lead) leadId "enricher" message) w).
Proof.
  intros Hfind Hcamp.
  run_with ltac:(apply lead_update_found; exact Hfind).
  run_with ltac:(apply event_create_ok; apply refsOk_lead with (applyData data lead);
                 [exact Hcamp | cbn [leads set_leads]; by rewrite find_updateRows, Hfind]).
  run_with ltac:(reflexivity).
  reflexivity.
Qed.

(** C9.  An Enrich job for an existing lead that is not [doNotContact] always
    returns normally: the lead is ENRICHED, one LEAD_ENRICHED event is
    appended and one Site-Generate job is enqueued.  In the no-data cases (no
    website, no page yielding HTML, or the crawl raising an error) the lead's
    [lastError] is set to a diagnostic string and the event's
    [serviceKeywords] and [claims] are empty. *)
Theorem enrich_always_proceeds (P : Providers) (w : World) (leadId : string) (lead : Lead) :
  find (hasId leadId) (leads w) = Some lead →
  doNotContact lead = false →
  campaignExists (campaignId lead) w = true →
  ∃ data metadata line,
    processEnrichJob P leadId w
    = (Ok tt, afterEnrich leadId (campaignId lead) data metadata line w)
    ∧ find (hasId leadId) (leads (afterEnrich leadId (campaignId lead) data metadata line w))
      = Some (applyData data lead)
    ∧ status (applyData data lead) = ENRICHED
    ∧ events (afterEnrich leadId (campaignId lead) data metadata line w)
      = events w ++ [mkEvent (campaignId lead) (Some leadId) LEAD_ENRICHED metadata]
    ∧ jobs (afterEnrich leadId (campaignId lead) data metadata line w)
      = jobs w ++ [mkQueuedJob "generate-site" (SiteJob leadId) None]
    ∧ (noData P lead →
       (∃ diagnostic, lastError (applyData data lead) = Some diagnostic)
       ∧ json_get "serviceKeywords" metadata = Some (JArr [])
       ∧ json_get "claims" metadata = Some (JArr [])).
Proof.
  intros Hfind Hdnc Hcamp.
  assert (Hrow : ∀ data metadata line,
             find (hasId leadId)
               (leads (afterEnrich leadId (campaignId lead) data metadata line w))
             = Some (applyData data lead)).
  { intros. unfold afterEnrich. cbn [leads set_console set_jobs set_events set_leads].
    by rewrite find_updateRows, Hfind. }
  unfold processEnrichJob.
  run_with ltac:(unfold lead_findUnique, gets; rewrite Hfind; reflexivity).
  rewrite Hdnc. destruct (truthy (websiteUrl lead)) eqn:Hsite; cbn [negb].
  - unfold try_catch.
    destruct (crawlLeadWebsite P (default "" (websiteUrl lead))) as [extracted|e] eqn:Hcrawl.
    + erewrite bind_ok by (unfold liftR; reflexivity). cbv beta.
      rewrite (enrich_writes leadId lead) by assumption.
      do 3 eexists. split; [reflexivity|]. split; [apply Hrow|].
      split; [reflexivity|]. split; [reflexivity|]. split; [reflexivity|].
      intros [Hno | [Hno | [e He]]]; [congruence| |congruence].
      destruct (crawl_without_html P _ extracted Hno Hcrawl) as (Hkw & Hcl & Hpages).
      rewrite Hkw, Hcl, Hpages. split; [by eexists|]. done.
    + erewrite bind_throw by (unfold liftR; reflexivity).
      rewrite (enrich_writes leadId lead) by assumption.
      do 3 eexists. split; [reflexivity|]. split; [apply Hrow|].
      split; [reflexivity|]. split; [reflexivity|]. split; [reflexivity|].
      intros _. split; [by eexists|]. done.
  - rewrite (enrich_writes leadId lead) by assumption.
    do 3 eexists. split; [reflexivity|]. split; [apply Hrow|].
    split; [reflexivity|]. split; [reflexivity|]. split; [reflexivity|].
    intros _. split; [by eexists|]. done.
Qed.

Lemma enrich_always_proceeds_witness :
  ∃ w' diagnostic,
    processEnrichJob pdfProviders "L1" ledger = (Ok tt, w')
    ∧ (lastError <$> find (hasId "L1") (leads w')) = Some (Some diagnostic)
    ∧ jobs w' = [mkQueuedJob "generate-site" (SiteJob "L1") None].
Proof.
  destruct (enrich_always_proceeds pdfProviders ledger "L1" acme)
    as (data & metadata & line & Hrun & Hrow & _ & _ & Hjobs & Hno);
    [reflexivity | reflexivity | reflexivity |].
  destruct Hno as ([diagnostic Hdiag] & _).
  { right. left. intros url. right. reflexivity. }
  eexists. exists diagnostic. split; [exact Hrun|]. split; [|exact Hjobs].
  rewrite Hrow. cbn. by rewrite Hdiag.
Defined.

(** ** Properties of the lead table kept by every handler *)

Section Keeps.
Context (J : list Lead → Prop).

Lemma keeps_ret {A} (a : A) : keeps J (ret a).
Proof. by intros w H. Qed.

Lemma keeps_throw {A} e : keeps J (@throw A e).
Proof. by intros w H. Qed.

Lemma keeps_liftR {A} (r : Result A) : keeps J (liftR r).
Proof. by intros w H. Qed.

Lemma keeps_gets {A} (f : World → A) : keeps J (gets f).
Proof. by intros w H. Qed.

Lemma keeps_bind {A B} (m : M A) (k : A → M B) :
  keeps J m → (∀ a, keeps J (k a)) → keeps J (bind m k).
Proof.
  intros Hm Hk w H. unfold bind. specialize (Hm w H).
  destruct (m w) as [[a|e] w']; cbn in *; [by apply Hk|done].
Qed.

Lemma keeps_try_catch {A} (m : M A) (h : string → M A) :
  keeps J m → (∀ e, keeps J (h e)) → keeps J (try_catch m h).
Proof.
  intros Hm Hh w H. unfold try_catch. specialize (Hm w H).
  destruct (m w) as [[a|e] w']; cbn in *; [done|by apply Hh].
Qed.

(** A computation that leaves the lead table as it is. *)
Lemma keeps_frame {A} (m : M A) : (∀ w, leads (snd (m w)) = leads w) → keeps J m.
Proof. intros Hm w H. by rewrite Hm. Qed.

Lemma keeps_console_log line : keeps J (console_log line).
Proof. by apply keeps_frame. Qed.

Lemma keeps_logMessage worker c l message : keeps J (logMessage worker c l message).
Proof. by apply keeps_frame. Qed.

Lemma keeps_queue_add name data delay : keeps J (queue_add name data delay).
Proof. by apply keeps_frame. Qed.

Lemma keeps_event_create c l t metadata : keeps J (event_create c l t metadata).
Proof.
  apply keeps_frame. intros w. unfold event_create. by destruct (refsOk _ _ _).
Qed.

Lemma keeps_event_findLatest c l t : keeps J (event_findLatest c l t).
Proof. by apply keeps_frame. Qed.

Lemma keeps_campaign_setStatus c s : keeps J (campaign_setStatus c s).
Proof.
  apply keeps_frame. intros w. unfold campaign_setStatus. by destruct (campaigns w !! c).
Qed.

Lemma keeps_idem_create key row : keeps J (idem_create key row).
Proof.
  apply keeps_frame. intros w. unfold idem_create.
  destruct (idempotencyKeys w !! key); [done|]. by destruct (refsOk _ _ _).
Qed.

Lemma keeps_idem_update key r : keeps J (idem_update key r).
Proof.
  apply keeps_frame. intros w. unfold idem_update. by destruct (idempotencyKeys w !! key).
Qed.

Lemma keeps_idem_delete key : keeps J (idem_delete key).
Proof.
  apply keeps_frame. intros w. unfold idem_delete. by destruct (idempotencyKeys w !! key).
Qed.

Lemma keeps_set_outbox f : keeps J (modify (set_outbox f)).
Proof. by apply keeps_frame. Qed.

Lemma keeps_set_imagePoolCache f : keeps J (modify (set_imagePoolCache f)).
Proof. by apply keeps_frame. Qed.

Lemma keeps_lead_update d k data :
  updateKeeps d J → forallb (allowed d) data = true → keeps J (lead_update k data).
Proof.
  intros Hupd Hdata w H. unfold lead_update.
  destruct (find (hasId k) (leads w)); [|done]. cbn. by apply (Hupd k data).
Qed.

Lemma keeps_lead_create c :
  insertKeeps J → lc_status c = SCRAPED → keeps J (lead_create c).
Proof.
  intros Hins Hc w H. unfold lead_create.
  destruct (negb (campaignExists (lc_campaignId c) w)); [done|].
  destruct (violatesSiteIndex c (leads w)) eqn:Hv; [done|]. cbn. by apply Hins.
Qed.

Lemma keeps_mapM {A B} (f : A → M B) xs : (∀ x, keeps J (f x)) → keeps J (mapM f xs).
Proof.
  intros Hf. induction xs as [|x xs IH]; [apply keeps_ret|]. cbn [mapM].
  apply keeps_bind; [apply Hf|]. intros y.
  apply keeps_bind; [apply IH|]. intros ys. apply keeps_ret.
Qed.
End Keeps.

Create HintDb keeps.

#[global] Hint Resolve keeps_ret keeps_throw keeps_liftR keeps_gets keeps_console_log
  keeps_logMessage keeps_queue_add keeps_event_create keeps_event_findLatest
  keeps_campaign_setStatus keeps_idem_create keeps_idem_update keeps_idem_delete
  keeps_set_outbox keeps_set_imagePoolCache : keeps.

Lemma keeps_idem_findUnique J key : keeps J (idem_findUnique key).
Proof. by apply keeps_frame. Qed.

Lemma keeps_lead_findUnique J k : keeps J (lead_findUnique k).
Proof. by apply keeps_frame. Qed.

Lemma keeps_lead_findUnique_withCampaign J k : keeps J (lead_findUnique_withCampaign k).
Proof. by apply keeps_frame. Qed.

Lemma keeps_campaign_findUnique J k : keeps J (campaign_findUnique k).
Proof. by apply keeps_frame. Qed.

#[global] Hint Resolve keeps_idem_findUnique keeps_lead_findUnique
  keeps_lead_findUnique_withCampaign keeps_campaign_findUnique : keeps.

(** Walk through a handler: sequencing, [try]/[catch], branches, and the
    stores that do not hold leads. *)
Ltac keeps_walk :=
  repeat first
    [ progress (cbv beta zeta)
    | solve [auto with keeps]
    | match goal with
      | |- keeps _ (bind _ _) => apply keeps_bind; [|intros ?]
      | |- keeps _ (try_catch _ _) => apply keeps_try_catch; [|intros ?]
      | |- keeps _ (mapM _ _) => apply keeps_mapM; intros ?
      | |- keeps _ (match ?x with _ => _ end) => destruct x
      end ].

Lemma keeps_runIdempotentStage J input :
  keeps J (ri_run input) → keeps J (runIdempotentStage input).
Proof. intros Hrun. unfold runIdempotentStage. keeps_walk. Qed.

Section KeepsHandlers.
Context (J : list Lead → Prop) (P : Providers).

(** The remaining goals of a walk are the writes to the lead table. *)
Ltac keeps_update d :=
  try (eapply (keeps_lead_update J d); [eassumption | reflexivity]).

Lemma keeps_upsertLeadFromListing c listing :
  updateKeeps (Queued (ScrapeJob c)) J → insertKeeps J →
  keeps J (upsertLeadFromListing c listing).
Proof.
  intros Hupd Hins. unfold upsertLeadFromListing, lead_upsert.
  destruct (li_websiteUrl listing) as [[|ch rest]|];
    keeps_walk; keeps_update (Queued (ScrapeJob c));
    by apply keeps_lead_create.
Qed.

Lemma keeps_scrapeLoop c listings successCount failureCount :
  updateKeeps (Queued (ScrapeJob c)) J → insertKeeps J →
  keeps J (scrapeLoop c listings successCount failureCount).
Proof.
  intros Hupd Hins. revert successCount failureCount.
  induction listings as [|listing rest IH]; intros successCount failureCount;
    [apply keeps_ret|].
  cbn [scrapeLoop]. apply keeps_bind.
  - unfold scrapeOne, enqueueEnrich. apply keeps_try_catch; [|intros ?]; keeps_walk.
    by apply keeps_upsertLeadFromListing.
  - intros [|]; apply IH.
Qed.

Lemma keeps_processScrapeJob c :
  updateKeeps (Queued (ScrapeJob c)) J → insertKeeps J → keeps J (processScrapeJob P c).
Proof.
  intros Hupd Hins. unfold processScrapeJob. keeps_walk.
  by apply keeps_scrapeLoop.
Qed.

Lemma keeps_processEnrichJob l :
  updateKeeps (Queued (EnrichJob l)) J → keeps J (processEnrichJob P l).
Proof.
  intros Hupd. unfold processEnrichJob, enqueueSite.
  keeps_walk; keeps_update (Queued (EnrichJob l)).
Qed.

Lemma keeps_processSiteJob l :
  updateKeeps (Queued (SiteJob l)) J → keeps J (processSiteJob P l).
Proof.
  intros Hupd. unfold processSiteJob, enqueueImage.
  keeps_walk; keeps_update (Queued (SiteJob l)).
Qed.

Lemma keeps_getOrCreateImagePool niche style : keeps J (getOrCreateImagePool P niche style).
Proof. unfold getOrCreateImagePool. keeps_walk. Qed.

Lemma keeps_processImageJob l :
  updateKeeps (Queued (ImageJob l)) J → keeps J (processImageJob P l).
Proof.
  intros Hupd. unfold processImageJob, enqueueDeploy.
  keeps_walk; try apply keeps_getOrCreateImagePool.
  all: match goal with
       | |- keeps _ (lead_update _ (match ?x with _ => _ end ++ _)) => destruct x
       end; keeps_update (Queued (ImageJob l)).
Qed.

Lemma keeps_processDeployJob l :
  updateKeeps (Queued (DeployJob l)) J → keeps J (processDeployJob P l).
Proof.
  intros Hupd. unfold processDeployJob, enqueueEmail.
  keeps_walk; keeps_update (Queued (DeployJob l)).
Qed.

Lemma keeps_processEmailJob l step :
  updateKeeps (Queued (EmailJob l step)) J → keeps J (processEmailJob P l step).
Proof.
  intros Hupd. unfold processEmailJob.
  keeps_walk. apply keeps_runIdempotentStage. unfold emailRun. cbn [ri_run].
  keeps_walk; keeps_update (Queued (EmailJob l step)).
Qed.

Lemma keeps_processCallJob l attempt :
  updateKeeps (Queued (CallJob l attempt)) J → keeps J (processCallJob P l attempt).
Proof.
  intros Hupd. unfold processCallJob.
  keeps_walk. apply keeps_runIdempotentStage. unfold callRun. cbn [ri_run].
  keeps_walk; keeps_update (Queued (CallJob l attempt)).
Qed.

Lemma keeps_callWebhookHandler zodDetails provider body :
  updateKeeps (Webhook provider body) J →
  keeps J (callWebhookHandler zodDetails provider body).
Proof.
  intros Hupd. unfold callWebhookHandler.
  keeps_walk; keeps_update (Webhook provider body).
Qed.

(** Every delivery keeps [J]. *)
Lemma keeps_handle zodDetails d :
  updateKeeps d J → (isScrape d = true → insertKeeps J) →
  keeps J (handle P zodDetails d).
Proof.
  intros Hupd Hins. destruct d as [[c|l|l|l|l|l step|l attempt]|provider body]; cbn [handle].
  - apply keeps_processScrapeJob; [done|by apply Hins].
  - by apply keeps_processEnrichJob.
  - by apply keeps_processSiteJob.
  - by apply keeps_processImageJob.
  - by apply keeps_processDeployJob.
  - by apply keeps_processEmailJob.
  - by apply keeps_processCallJob.
  - apply keeps_bind; [by apply keeps_callWebhookHandler|]. intros ?. apply keeps_ret.
Qed.
End KeepsHandlers.

(** ** Uniqueness of [(campaignId, websiteUrl)] *)

Lemma updateRows_lookup k data rows i l' :
  updateRows k data rows !! i = Some l' →
  ∃ l, rows !! i = Some l
       ∧ id l' = id l ∧ campaignId l' = campaignId l ∧ websiteUrl l' = websiteUrl l.
Proof.
  unfold updateRows. intros H. change map with (@fmap list _) in H.
  rewrite list_lookup_fmap in H. destruct (rows !! i) as [l|]; [|done].
  cbn in H. injection H as <-. exists l. split; [done|].
  destruct (hasId k l); [apply applyData_keys|done].
Qed.

Lemma noSharedSite_update d : updateKeeps d noSharedSite.
Proof.
  intros k data rows _ H i j l1' l2' u Hi Hj Hc Hu1 Hu2.
  apply updateRows_lookup in Hi as (l1 & Hi & _ & Hc1 & Hw1).
  apply updateRows_lookup in Hj as (l2 & Hj & _ & Hc2 & Hw2).
  apply (H i j l1 l2 u); congruence.
Qed.

Lemma onSite_spec c u l :
  onSite c u l = true ↔ campaignId l = c ∧ websiteUrl l = Some u.
Proof.
  unfold onSite. rewrite andb_true_iff, String.eqb_eq.
  destruct (websiteUrl l) as [u'|].
  - rewrite String.eqb_eq. split; intros [? ?]; split; congruence.
  - split; intros [? ?]; done.
Qed.

Lemma noSharedSite_insert : insertKeeps noSharedSite.
Proof.
  intros c rows _ Hguard H i j l1 l2 u Hi Hj Hc Hu1 Hu2.
  assert (Hnew : ∀ n l other,
             rows !! n = Some l → campaignId l = campaignId other →
             websiteUrl l = Some u → websiteUrl other = Some u →
             other = newLead (newLeadId rows) c → False).
  { intros n l other Hn Hcamp Hl Ho ->. cbn in Hcamp, Ho.
    unfold violatesSiteIndex in Hguard. rewrite Ho in Hguard.
    assert (existsb (onSite (lc_campaignId c) u) rows = true); [|congruence].
    apply existsb_exists. exists l. split.
    - apply list_elem_of_In, list_elem_of_lookup. by exists n.
    - by apply onSite_spec. }
  apply lookup_app_Some in Hi as [Hi | [Hi1 Hi2]];
    apply lookup_app_Some in Hj as [Hj | [Hj1 Hj2]].
  - by apply (H i j l1 l2 u).
  - apply list_lookup_singleton_Some in Hj2 as [_ <-].
    exfalso. by apply (Hnew i l1 (newLead (newLeadId rows) c)).
  - apply list_lookup_singleton_Some in Hi2 as [_ <-].
    exfalso. by apply (Hnew j l2 (newLead (newLeadId rows) c)).
  - apply list_lookup_singleton_Some in Hi2 as [Hi2 _].
    apply list_lookup_singleton_Some in Hj2 as [Hj2 _]. lia.
Qed.

(** The primary key [Lead_pkey]. *)
Lemma map_id_updateRows k data rows : map id (updateRows k data rows) = map id rows.
Proof.
  unfold updateRows. rewrite map_map. apply map_ext. intros l.
  destruct (hasId k l); [apply applyData_keys|done].
Qed.

Lemma uniqueIds_update d : updateKeeps d uniqueIds.
Proof. intros k data rows _ H. unfold uniqueIds. by rewrite map_id_updateRows. Qed.

Lemma newLeadId_fresh rows : newLeadId rows ∉ map id rows.
Proof.
  unfold newLeadId. intros Hin.
  apply (fresh_string_of_set_fresh (list_to_set (map id rows)) "lead").
  by apply elem_of_list_to_set.
Qed.

Lemma uniqueIds_insert : insertKeeps uniqueIds.
Proof.
  intros c rows _ _ H. unfold uniqueIds. rewrite map_app. cbn.
  apply NoDup_app. split; [exact H|]. split; [|apply NoDup_singleton].
  intros k Hk Hnew. apply list_elem_of_singleton in Hnew as ->.
  by apply (newLeadId_fresh rows).
Qed.

Lemma find_own_id rows l :
  uniqueIds rows → In l rows → find (hasId (id l)) rows = Some l.
Proof.
  unfold uniqueIds. induction rows as [|r rows IH]; [done|].
  cbn. intros Hnd [->|Hin].
  - unfold hasId. by rewrite String.eqb_refl.
  - apply NoDup_cons in Hnd as [Hr Hnd].
    destruct (hasId (id l) r) eqn:Hid; [|by apply IH].
    exfalso. apply Hr. unfold hasId in Hid. apply String.eqb_eq in Hid. rewrite Hid.
    apply list_elem_of_In, in_map. exact Hin.
Qed.

(** Scraping a listing whose site is already in the campaign. *)
Lemma upsertLeadFromListing_existing c listing u existing w :
  uniqueIds (leads w) →
  li_websiteUrl listing = Some u →
  u ≠ "" →
  find (onSite c u) (leads w) = Some existing →
  upsertLeadFromListing c listing w
  = (Ok (applyData (scrapeData listing) existing),
     set_leads (updateRows (id existing) (scrapeData listing)) w).
Proof.
  intros Hids Hu Hne Hfind. unfold upsertLeadFromListing. rewrite Hu.
  destruct u as [|ch rest]; [done|]. unfold lead_upsert.
  run_with ltac:(unfold gets; rewrite Hfind; reflexivity).
  apply lead_update_found. apply find_own_id; [exact Hids|].
  by apply find_some in Hfind as [? _].
Qed.

(** C6.  The lead table never holds two rows with the same non-null
    [(campaignId, websiteUrl)]: every delivery (any stage job, any webhook
    call) keeps this, together with the uniqueness of the lead ids.  Scraping
    a listing whose [websiteUrl] is already in the campaign returns the
    existing row updated in place (business name, phone, email, address and
    source url from the listing, status SCRAPED, [lastError] cleared), and
    the table has as many rows as before. *)
Theorem site_uniqueness_and_upsert (P : Providers) (zodDetails : Json → Json) :
  (∀ d w,
      uniqueIds (leads w) → noSharedSite (leads w) →
      uniqueIds (leads (snd (handle P zodDetails d w)))
      ∧ noSharedSite (leads (snd (handle P zodDetails d w))))
  ∧ (∀ c listing u existing w,
      uniqueIds (leads w) →
      li_websiteUrl listing = Some u →
      u ≠ "" →
      find (onSite c u) (leads w) = Some existing →
      ∃ updated w',
        upsertLeadFromListing c listing w = (Ok updated, w')
        ∧ length (leads w') = length (leads w)
        ∧ find (hasId (id existing)) (leads w') = Some updated
        ∧ id updated = id existing
        ∧ campaignId updated = c
        ∧ websiteUrl updated = Some u
        ∧ businessName updated = Some (li_businessName listing)
        ∧ phone updated = li_phone listing
        ∧ email updated = li_email listing
        ∧ address updated = li_address listing
        ∧ sourceUrl updated = li_sourceUrl listing
        ∧ status updated = SCRAPED
        ∧ lastError updated = None).
Proof.
  split.
  - intros d w Hids Hsites. split.
    + apply (keeps_handle uniqueIds P zodDetails d);
        [apply uniqueIds_update | intros _; apply uniqueIds_insert | exact Hids].
    + apply (keeps_handle noSharedSite P zodDetails d);
        [apply noSharedSite_update | intros _; apply noSharedSite_insert | exact Hsites].
  - intros c listing u existing w Hids Hu Hne Hfind.
    exists (applyData (scrapeData listing) existing).
    exists (set_leads (updateRows (id existing) (scrapeData listing)) w).
    split; [by apply upsertLeadFromListing_existing with u|].
    split; [cbn [leads set_leads]; apply length_updateRows|].
    split.
    { cbn [leads set_leads]. rewrite find_updateRows, find_own_id; [done|exact Hids|].
      by apply find_some in Hfind as [? _]. }
    apply find_some in Hfind as [_ Hon].
    apply (proj1 (onSite_spec c u existing)) in Hon as [Hc Hw].
    cbn. repeat split; done.
Qed.

Lemma site_uniqueness_and_upsert_witness :
  ∃ updated w',
    upsertLeadFromListing "C1" acmeListing ledger = (Ok updated, w')
    ∧ length (leads w') = 1%nat
    ∧ status updated = SCRAPED
    ∧ id updated = "L1".
Proof.
  destruct (site_uniqueness_and_upsert fakeProviders (fun _ => JNull)) as [_ H].
  destruct (H "C1" acmeListing "https://roofers-dallas-1.example.com" acme ledger)
    as (updated & w' & Hrun & Hlen & _ & Hid & _ & _ & _ & _ & _ & _ & _ & Hstatus & _);
    [apply NoDup_singleton | reflexivity | discriminate | reflexivity |].
  exists updated, w'. repeat split; assumption.
Defined.

(** ** The status written by each handler *)

Lemma applyField_step d f l :
  allowed d f = true → rowStep d l (applyField f l).
Proof.
  unfold rowStep. destruct f; cbn; intros H; try (by auto with lia).
  apply bool_decide_eq_true in H. auto with lia.
Qed.

Lemma rowStep_trans d l1 l2 l3 : rowStep d l1 l2 → rowStep d l2 l3 → rowStep d l1 l3.
Proof.
  unfold rowStep. intros (Hi1 & Hs1 & Hd1 & He1 & Hc1) (Hi2 & Hs2 & Hd2 & He2 & Hc2).
  split; [congruence|]. split; [|split; [auto|lia]].
  destruct Hs2 as [Hs2|Hs2]; [|by right]. rewrite Hs2. exact Hs1.
Qed.

Lemma rowStep_refl d l : rowStep d l l.
Proof. unfold rowStep. auto with lia. Qed.

Lemma applyData_step d data l :
  forallb (allowed d) data = true → rowStep d l (applyData data l).
Proof.
  unfold applyData. revert l. induction data as [|f data IH]; intros l H.
  - apply rowStep_refl.
  - cbn in H. apply andb_true_iff in H as [Hf Hdata]. cbn [fold_left].
    apply rowStep_trans with (applyField f l); [by apply applyField_step|by apply IH].
Qed.

Lemma updateRows_step d k data rows :
  forallb (allowed d) data = true → Forall2 (rowStep d) rows (updateRows k data rows).
Proof.
  intros H. unfold updateRows. induction rows as [|l rows IH]; [constructor|].
  cbn. constructor; [|exact IH].
  destruct (hasId k l); [by apply applyData_step|apply rowStep_refl].
Qed.

Lemma Forall2_rowStep_trans d rows1 rows2 rows3 :
  Forall2 (rowStep d) rows1 rows2 → Forall2 (rowStep d) rows2 rows3 →
  Forall2 (rowStep d) rows1 rows3.
Proof.
  intros H12. revert rows3. induction H12 as [|l1 l2 r1 r2 H Hrest IH]; intros rows3 H23.
  - inversion H23. constructor.
  - inversion H23 as [|? l3 ? r3 H' Hrest']; subst. constructor.
    + by apply rowStep_trans with l2.
    + by apply IH.
Qed.

Lemma tableStep_refl d rows : tableStep d rows rows.
Proof.
  exists rows, []. rewrite app_nil_r. split; [done|]. split; [|done].
  induction rows; constructor; [apply rowStep_refl|done].
Qed.

Lemma tableStep_update d rows0 : updateKeeps d (tableStep d rows0).
Proof.
  intros k data rows Hdata (updated & inserted & -> & Hupd & Hins & Hnone).
  exists (updateRows k data updated), (updateRows k data inserted).
  split; [unfold updateRows; by rewrite map_app|].
  split; [apply Forall2_rowStep_trans with updated; [done|by apply updateRows_step]|].
  split.
  - destruct (isScrape d) eqn:Hd.
    + pose proof (updateRows_step d k data inserted Hdata) as Hstep.
      clear Hupd Hnone. induction Hstep as [|l l' r r' Hl Hr IH]; [constructor|].
      apply Forall_cons in Hins as [Hl0 Hins]. constructor; [|by apply IH].
      destruct Hl as (_ & [Hs|Hs] & _); [congruence|].
      rewrite Hs. by destruct d as [[]|].
    + rewrite Hnone by done. constructor.
  - intros Hd. by rewrite Hnone.
Qed.

Lemma tableStep_insert d rows0 : isScrape d = true → insertKeeps (tableStep d rows0).
Proof.
  intros Hd c rows Hc _ (updated & inserted & -> & Hupd & Hins & Hnone).
  exists updated, (inserted ++ [newLead (newLeadId (updated ++ inserted)) c]).
  split; [by rewrite app_assoc|]. split; [done|]. split.
  - apply Forall_app. split; [done|]. by constructor.
  - congruence.
Qed.

(** Every delivery changes the lead table by [tableStep]. *)
Lemma handle_tableStep P zodDetails d w :
  tableStep d (leads w) (leads (snd (handle P zodDetails d w))).
Proof.
  apply (keeps_handle (tableStep d (leads w)) P zodDetails d).
  - apply tableStep_update.
  - apply tableStep_insert.
  - apply tableStep_refl.
Qed.

(** Deploy refuses a lead that is not IMAGES_READY, before any write. *)
Lemma processDeployJob_rejects P leadId lead w :
  find (hasId leadId) (leads w) = Some lead →
  status lead ≠ IMAGES_READY →
  processDeployJob P leadId w
  = (Throw ("Lead " +:+ leadId +:+ " must be IMAGES_READY before deploy (current="
              +:+ LeadStatus_name (status lead) +:+ ")"), w).
Proof.
  intros Hfind Hstatus. unfold processDeployJob.
  run_with ltac:(unfold lead_findUnique, gets; rewrite Hfind; reflexivity).
  rewrite bool_decide_eq_false_2 by done. reflexivity.
Qed.

Lemma processDeployJob_leads P leadId w :
  deployOutcome leadId (leads w) (leads (snd (processDeployJob P leadId w))).
Proof.
  unfold processDeployJob, bind at 1, lead_findUnique, gets. cbv beta iota.
  destruct (find (hasId leadId) (leads w)) as [lead|] eqn:Hfind; [|by left].
  destruct (bool_decide (status lead = IMAGES_READY)) eqn:Hstatus; cbn [negb]; [|by left].
  apply bool_decide_eq_true in Hstatus.
  unfold bind at 1, event_findLatest, gets. cbv beta iota.
  destruct (bundleOf _) as [zipPath|]; [|by left].
  unfold bind at 1, liftR. cbv beta iota.
  destruct (injectImageUrls P zipPath _ _) as [injected|]; [|by left].
  unfold bind at 1. cbv beta iota.
  destruct (deploy P injected (id lead)) as [url|]; [|by left].
  right. exists lead, url. split; [done|]. split; [done|].
  assert (Hid : id lead = leadId) by (by apply find_hasId with (leads w)).
  unfold bind at 1. rewrite (lead_update_found (id lead) _ w lead) by (by rewrite Hid).
  cbv beta iota. unfold bind at 1, event_create.
  destruct (refsOk _ _ _); reflexivity.
Qed.

Lemma touches_ext d l l' :
  id l' = id l → campaignId l' = campaignId l → touches d l' = touches d l.
Proof.
  intros Hid Hc. destruct d as [[c|k|k|k|k|k step|k attempt]|provider body];
    cbn [touches]; unfold hasId; congruence.
Qed.

Lemma same_id_same_row rows a b :
  uniqueIds rows → In a rows → In b rows → id a = id b → a = b.
Proof.
  intros Hids Ha Hb Hid.
  pose proof (find_own_id rows a Hids Ha) as Hfa.
  pose proof (find_own_id rows b Hids Hb) as Hfb.
  rewrite Hid in Hfa. congruence.
Qed.

Lemma tableFrame_refl d rows : uniqueIds rows → tableFrame d rows rows.
Proof.
  intros Hids. split; [exact Hids|]. exists rows, []. rewrite app_nil_r. split; [done|].
  clear Hids. induction rows; constructor; [by repeat split|done].
Qed.

Lemma Forall2_map_r_In {A B} (R S : A → B → Prop) (g : B → B) xs ys :
  Forall2 R xs ys → (∀ x y, In y ys → R x y → S x (g y)) → Forall2 S xs (map g ys).
Proof.
  intros H. induction H as [|x y xs ys Hxy Hrest IH]; intros Himpl; [constructor|].
  cbn. constructor; [apply Himpl; [by left|exact Hxy]|].
  apply IH. intros x' y' Hin. apply Himpl. by right.
Qed.

(** An update of the row of a lead the delivery touches. *)
Lemma tableFrame_update d rows0 rows lead data :
  In lead rows → touches d lead = true →
  tableFrame d rows0 rows → tableFrame d rows0 (updateRows (id lead) data rows).
Proof.
  intros Hin Htouch (Hids & updated & inserted & -> & Hupd).
  split; [unfold uniqueIds; by rewrite map_id_updateRows|].
  exists (updateRows (id lead) data updated), (updateRows (id lead) data inserted).
  split; [unfold updateRows; by rewrite map_app|].
  unfold updateRows. apply (Forall2_map_r_In (untouched d)); [exact Hupd|].
  intros l l' Hl' (Hid & Hc & Hsame).
  destruct (hasId (id lead) l') eqn:Hk; [|by repeat split].
  destruct (applyData_keys data l') as (Hid' & Hc' & _).
  split; [congruence|]. split; [congruence|].
  intros Hno. exfalso.
  assert (l' = lead) as ->.
  { apply (same_id_same_row (updated ++ inserted)); [exact Hids| |exact Hin|].
    - apply in_or_app. by left.
    - unfold hasId in Hk. by apply String.eqb_eq in Hk. }
  rewrite <- (touches_ext d l lead) in Hno by done. congruence.
Qed.

Lemma tableFrame_insert d rows0 : insertKeeps (tableFrame d rows0).
Proof.
  intros c rows Hc Hv (Hids & updated & inserted & -> & Hupd).
  split; [by apply uniqueIds_insert|].
  exists updated, (inserted ++ [newLead (newLeadId (updated ++ inserted)) c]).
  split; [by rewrite app_assoc|exact Hupd].
Qed.

(** [lead.update] on a key whose rows the delivery touches. *)
Lemma tableFrame_lead_update d rows0 k data :
  (∀ l, id l = k → touches d l = true) → keeps (tableFrame d rows0) (lead_update k data).
Proof.
  intros Hk w HJ. unfold lead_update.
  destruct (find (hasId k) (leads w)) as [l|] eqn:Hfind; [|exact HJ].
  cbn [snd leads set_leads]. pose proof (find_hasId _ _ _ Hfind) as Hid.
  apply find_some in Hfind as [Hin _]. rewrite <- Hid.
  apply tableFrame_update; [exact Hin|by apply Hk|exact HJ].
Qed.

Lemma keeps_found J k {B} (f : option Lead → M B) :
  keeps J (f None) → (∀ lead, id lead = k → keeps J (f (Some lead))) →
  keeps J (bind (lead_findUnique k) f).
Proof.
  intros Hnone Hsome w HJ. unfold bind, lead_findUnique, gets.
  destruct (find (hasId k) (leads w)) as [lead|] eqn:Hfind.
  - apply (Hsome lead); [by apply find_hasId with (leads w)|exact HJ].
  - by apply Hnone.
Qed.

Lemma keeps_found_withCampaign J k {B} (f : option (Lead * option Campaign) → M B) :
  keeps J (f None) → (∀ lead campaign, id lead = k → keeps J (f (Some (lead, campaign)))) →
  keeps J (bind (lead_findUnique_withCampaign k) f).
Proof.
  intros Hnone Hsome w HJ. unfold bind, lead_findUnique_withCampaign, gets.
  destruct (find (hasId k) (leads w)) as [lead|] eqn:Hfind.
  - apply (Hsome lead); [by apply find_hasId with (leads w)|exact HJ].
  - by apply Hnone.
Qed.

(** The writes left by a walk: updates of the lead the job names. *)
Ltac frame_update :=
  try (apply tableFrame_lead_update; intros ? ?; cbn [touches]; unfold hasId;
       apply String.eqb_eq; congruence).

Section FrameHandlers.
Context (P : Providers) (rows0 : list Lead).

Lemma tableFrame_upsertLeadFromListing c listing :
  keeps (tableFrame (Queued (ScrapeJob c)) rows0) (upsertLeadFromListing c listing).
Proof.
  assert (Hcreate : ∀ create, lc_status create = SCRAPED →
            keeps (tableFrame (Queued (ScrapeJob c)) rows0) (lead_create create))
    by (intros create; apply keeps_lead_create, tableFrame_insert).
  unfold upsertLeadFromListing.
  destruct (li_websiteUrl listing) as [[|ch rest]|]; try by apply Hcreate.
  intros w HJ. unfold lead_upsert, bind, gets.
  destruct (find (onSite c (String ch rest)) (leads w)) as [existing|] eqn:Hfind;
    [|by apply Hcreate].
  apply find_some in Hfind as [Hin Hon].
  apply (proj1 (onSite_spec c _ existing)) in Hon as [Hc _].
  unfold lead_update. destruct (find (hasId (id existing)) (leads w)); [|exact HJ].
  cbn [snd leads set_leads]. apply tableFrame_update; [exact Hin| |exact HJ].
  cbn [touches]. by apply String.eqb_eq.
Qed.

Lemma tableFrame_scrapeLoop c listings : ∀ successCount failureCount,
  keeps (tableFrame (Queued (ScrapeJob c)) rows0)
    (scrapeLoop c listings successCount failureCount).
Proof.
  induction listings as [|listing rest IH]; intros successCount failureCount;
    [apply keeps_ret|].
  cbn [scrapeLoop]. apply keeps_bind.
  - unfold scrapeOne, enqueueEnrich. apply keeps_try_catch; [|intros ?]; keeps_walk.
    apply tableFrame_upsertLeadFromListing.
  - intros [|]; apply IH.
Qed.

Lemma tableFrame_handle zodDetails d :
  keeps (tableFrame d rows0) (handle P zodDetails d).
Proof.
  destruct d as [[c|l|l|l|l|l step|l attempt]|provider body]; cbn [handle].
  - unfold processScrapeJob. keeps_walk. apply tableFrame_scrapeLoop.
  - unfold processEnrichJob, enqueueSite.
    apply keeps_found; [keeps_walk|intros lead Hid]. keeps_walk; frame_update.
  - unfold processSiteJob, enqueueImage.
    apply keeps_found_withCampaign; [keeps_walk|intros lead campaign Hid].
    keeps_walk; frame_update.
  - unfold processImageJob, enqueueDeploy.
    apply keeps_found_withCampaign; [keeps_walk|intros lead campaign Hid].
    keeps_walk; try apply keeps_getOrCreateImagePool; frame_update.
  - unfold processDeployJob, enqueueEmail.
    apply keeps_found; [keeps_walk|intros lead Hid]. keeps_walk; frame_update.
  - unfold processEmailJob.
    apply keeps_found; [keeps_walk|intros lead Hid]. keeps_walk.
    apply keeps_runIdempotentStage. unfold emailRun. cbn [ri_run]. keeps_walk; frame_update.
  - unfold processCallJob.
    apply keeps_found; [keeps_walk|intros lead Hid]. keeps_walk.
    apply keeps_runIdempotentStage. unfold callRun. cbn [ri_run]. keeps_walk; frame_update.
  - apply keeps_bind; [|intros ?; apply keeps_ret].
    unfold callWebhookHandler. keeps_walk;
      try (apply tableFrame_lead_update; intros ? ?; reflexivity).
Qed.
End FrameHandlers.

Lemma Forall2_conj {A B} (R S : A → B → Prop) xs ys :
  Forall2 R xs ys → Forall2 S xs ys → Forall2 (fun x y => R x y ∧ S x y) xs ys.
Proof.
  intros H. induction H as [|x y xs ys Hxy Hrest IH]; intros HS; [constructor|].
  inversion HS; subst. constructor; [done|by apply IH].
Qed.

(** A delivery writes its own status, and only on the leads it touches. *)
Lemma handle_statusStep P zodDetails d w :
  uniqueIds (leads w) →
  ∃ updated inserted,
    leads (snd (handle P zodDetails d w)) = updated ++ inserted
    ∧ Forall2 (statusStep d) (leads w) updated
    ∧ Forall (fun l => status l = SCRAPED) inserted
    ∧ (isScrape d = false → inserted = []).
Proof.
  intros Hids.
  destruct (handle_tableStep P zodDetails d w)
    as (updated & inserted & Heq & Hupd & Hins & Hnone).
  destruct (tableFrame_handle P (leads w) zodDetails d w (tableFrame_refl d _ Hids))
    as (_ & updated' & inserted' & Heq' & Hupd').
  assert (updated' = updated) as ->.
  { rewrite Heq in Heq'. apply app_inj_1 in Heq' as [? _]; [done|].
    apply Forall2_length in Hupd, Hupd'. congruence. }
  exists updated, inserted. split; [exact Heq|]. split; [|by split].
  eapply Forall2_impl; [exact (Forall2_conj _ _ _ _ Hupd Hupd')|].
  intros l l' ((Hid & Hs & _) & (_ & _ & Hsame)). split; [exact Hid|].
  destruct (touches d l); [|left; by rewrite Hsame].
  destruct Hs as [Hs|Hs]; [by left|by right].
Qed.

Lemma nonDecreasing_trans a b c :
  nonDecreasing a b → nonDecreasing b c → nonDecreasing a c.
Proof.
  unfold nonDecreasing. intros [->|Hab] [->|Hbc]; [by left|..|by left|right; lia].
  destruct c; cbn in Hbc; try lia. by left.
Qed.

Lemma statusStep_forward d l l' :
  notLater d l = true → statusStep d l l' → nonDecreasing (status l) (status l').
Proof.
  unfold notLater, nonDecreasing. intros Hle (_ & [->|[Htouch ->]]); [right; lia|].
  rewrite Htouch in Hle. cbn in Hle. right. lia.
Qed.

Lemma deliverAll_app P zodDetails ds1 ds2 w :
  deliverAll P zodDetails (ds1 ++ ds2) w
  = deliverAll P zodDetails ds2 (deliverAll P zodDetails ds1 w).
Proof. unfold deliverAll. apply fold_left_app. Qed.

Lemma uniqueIds_deliverAll P zodDetails ds : ∀ w,
  uniqueIds (leads w) → uniqueIds (leads (deliverAll P zodDetails ds w)).
Proof.
  induction ds as [|d ds IH]; intros w Hids; [exact Hids|].
  apply IH. apply (keeps_handle uniqueIds P zodDetails d);
    [apply uniqueIds_update|intros _; apply uniqueIds_insert|exact Hids].
Qed.

Lemma inOrder_app P zodDetails ds1 ds2 : ∀ w,
  inOrder P zodDetails (ds1 ++ ds2) w = true →
  inOrder P zodDetails ds2 (deliverAll P zodDetails ds1 w) = true.
Proof.
  induction ds1 as [|d ds1 IH]; intros w H; [exact H|].
  cbn in H. apply andb_true_iff in H as [_ H]. by apply IH.
Qed.

(** Along deliveries that come in order, each lead only moves forward. *)
Lemma deliverAll_forward P zodDetails ds : ∀ w,
  uniqueIds (leads w) →
  inOrder P zodDetails ds w = true →
  ∃ updated inserted,
    leads (deliverAll P zodDetails ds w) = updated ++ inserted
    ∧ Forall2 (fun l l' => id l' = id l ∧ nonDecreasing (status l) (status l'))
        (leads w) updated.
Proof.
  induction ds as [|d ds IH]; intros w Hids Horder.
  - exists (leads w), []. rewrite app_nil_r. split; [done|].
    clear. induction (leads w) as [|r rows IHrows]; constructor; [|exact IHrows].
    split; [done|]. right. lia.
  - cbn in Horder. apply andb_true_iff in Horder as [Hnow Hrest].
    destruct (handle_statusStep P zodDetails d w Hids)
      as (updated1 & inserted1 & Heq1 & Hupd1 & _).
    assert (Hids1 : uniqueIds (leads (snd (handle P zodDetails d w)))).
    { apply (keeps_handle uniqueIds P zodDetails d);
        [apply uniqueIds_update|intros _; apply uniqueIds_insert|exact Hids]. }
    destruct (IH _ Hids1 Hrest) as (updated & inserted & Heq & Hupd).
    rewrite Heq1 in Hupd. apply Forall2_app_inv_l in Hupd as (upd & ins & Hupd & _ & ->).
    exists upd, (ins ++ inserted). split; [by rewrite app_assoc|].
    rewrite forallb_forall in Hnow.
    clear Heq Heq1 IH Hids Hids1 Hrest.
    revert upd Hupd. induction Hupd1 as [|l l1 rows rows1 Hl Hrows IHrows]; intros upd Hupd.
    + inversion Hupd. constructor.
    + inversion Hupd as [|? l2 ? rows2 Hl2 Hrows2]; subst. constructor.
      * destruct Hl2 as [Hid2 Hs2]. split; [destruct Hl as [Hid1 _]; congruence|].
        apply nonDecreasing_trans with (status l1); [|exact Hs2].
        apply (statusStep_forward d); [apply Hnow; by left|exact Hl].
      * apply IHrows; [intros x Hx; apply Hnow; by right|exact Hrows2].
Qed.

Lemma rescrape_resets c listing u existing w :
  uniqueIds (leads w) →
  li_websiteUrl listing = Some u →
  u ≠ "" →
  find (onSite c u) (leads w) = Some existing →
  ∃ updated w',
    upsertLeadFromListing c listing w = (Ok updated, w')
    ∧ find (hasId (id existing)) (leads w') = Some updated
    ∧ status updated = SCRAPED.
Proof.
  intros Hids Hu Hne Hfind.
  exists (applyData (scrapeData listing) existing).
  exists (set_leads (updateRows (id existing) (scrapeData listing)) w).
  split; [by apply upsertLeadFromListing_existing with u|].
  split; [|reflexivity].
  cbn [leads set_leads]. rewrite find_updateRows, find_own_id; [done|exact Hids|].
  by apply find_some in Hfind as [? _].
Qed.

(** C3 (amended).  With distinct lead ids, one delivery of a handler leaves
    the lead table as the old rows followed by the rows a Scrape inserted,
    which are SCRAPED; each old row keeps its id, and its status is unchanged
    or, on a lead the delivery touches (the lead a job names, the leads of
    the campaign of a Scrape), set to the handler's own status: Scrape
    SCRAPED, Enrich ENRICHED, Site-Generate SITE_GENERATED, Image-Assign
    IMAGES_READY, Deploy DEPLOYED, Email EMAILED_1, Call CALLED_1, the
    webhook DO_NOT_CONTACT.  So along any sequence of deliveries each of
    which finds the leads it touches at a status not later than its own, the
    status of every lead is non-decreasing along NEW < SCRAPED < ... <
    BOOKED, or moves to DO_NOT_CONTACT, from every point of the sequence to
    its end.  Deploy alone checks the current status: every status it writes
    is non-decreasing.  A scrape of a listing whose site is already in the
    campaign sets that lead to SCRAPED whatever its status was, which is a
    step back for every lead past SCRAPED. *)
Theorem status_written_by_each_handler (P : Providers) (zodDetails : Json → Json) :
  (∀ d w,
      uniqueIds (leads w) →
      ∃ updated inserted,
        leads (snd (handle P zodDetails d w)) = updated ++ inserted
        ∧ Forall2
            (fun l l' =>
               id l' = id l
               ∧ (status l' = status l ∨ (touches d l = true ∧ status l' = writes d)))
            (leads w) updated
        ∧ Forall (fun l => status l = SCRAPED) inserted
        ∧ (isScrape d = false → inserted = []))
  ∧ (∀ ds1 ds2 w,
      uniqueIds (leads w) →
      inOrder P zodDetails (ds1 ++ ds2) w = true →
      ∃ updated inserted,
        leads (deliverAll P zodDetails (ds1 ++ ds2) w) = updated ++ inserted
        ∧ Forall2 (fun l l' => id l' = id l ∧ nonDecreasing (status l) (status l'))
            (leads (deliverAll P zodDetails ds1 w)) updated)
  ∧ (∀ leadId w,
      uniqueIds (leads w) →
      Forall2 (fun l l' => nonDecreasing (status l) (status l'))
        (leads w) (leads (snd (handle P zodDetails (Queued (DeployJob leadId)) w))))
  ∧ (∀ c listing u existing w,
      uniqueIds (leads w) →
      li_websiteUrl listing = Some u →
      u ≠ "" →
      find (onSite c u) (leads w) = Some existing →
      ∃ updated w',
        upsertLeadFromListing c listing w = (Ok updated, w')
        ∧ find (hasId (id existing)) (leads w') = Some updated
        ∧ status updated = SCRAPED
        ∧ (rank SCRAPED < rank (status existing) →
           ¬ nonDecreasing (status existing) (status updated))).
Proof.
  split; [|split; [|split]].
  - intros d w Hids. apply handle_statusStep. exact Hids.
  - intros ds1 ds2 w Hids Horder. rewrite deliverAll_app.
    apply deliverAll_forward.
    + by apply uniqueIds_deliverAll.
    + by apply inOrder_app.
  - intros leadId w Hids. cbn [handle].
    destruct (processDeployJob_leads P leadId w) as [-> | (lead & url & Hfind & Hstatus & ->)].
    + clear Hids. induction (leads w) as [|r rows IH]; [constructor|].
      constructor; [right; lia|exact IH].
    + assert (Hin : In lead (leads w)) by (by apply find_some in Hfind as [? _]).
      revert Hids Hin. clear Hfind. unfold uniqueIds, updateRows.
      induction (leads w) as [|r rows IH]; [constructor|].
      cbn. intros Hnd Hin. apply NoDup_cons in Hnd as [Hr Hnd]. constructor.
      * destruct (hasId (id lead) r) eqn:Hid; [|right; lia].
        assert (r = lead) as ->.
        { destruct Hin as [->|Hin]; [done|]. exfalso. apply Hr.
          unfold hasId in Hid. apply String.eqb_eq in Hid. rewrite Hid.
          apply list_elem_of_In, in_map. exact Hin. }
        rewrite Hstatus. right. cbn. lia.
      * destruct Hin as [->|Hin]; [|by apply IH].
        clear IH. assert (Hnone : ∀ x, In x rows → hasId (id lead) x = false).
        { intros x Hx. unfold hasId. apply String.eqb_neq. intros Heq. apply Hr.
          rewrite <- Heq. apply list_elem_of_In, in_map. exact Hx. }
        clear Hr Hnd. induction rows as [|x rows IH]; [constructor|].
        cbn. rewrite Hnone by (by left). constructor; [right; lia|].
        apply IH. intros y Hy. apply Hnone. by right.
  - intros c listing u existing w Hids Hu Hne Hfind.
    destruct (rescrape_resets c listing u existing w Hids Hu Hne Hfind)
      as (updated & w' & Hrun & Hrow & Hstatus).
    exists updated, w'. split; [exact Hrun|]. split; [exact Hrow|]. split; [exact Hstatus|].
    rewrite Hstatus. unfold nonDecreasing. cbn. intros Hlater [H|H]; [discriminate|lia].
Qed.

(** The claim as it stands fails: re-scraping the site of a DEPLOYED lead
    sets it back to SCRAPED. *)
Lemma rescrape_moves_status_back :
  (status <$> find (hasId "L1") (leads ledger)) = Some DEPLOYED
  ∧ fst (handle fakeProviders (fun _ => JNull) (Queued (ScrapeJob "C1")) ledger) = Ok tt
  ∧ (status <$> find (hasId "L1")
                  (leads (snd (handle fakeProviders (fun _ => JNull)
                                 (Queued (ScrapeJob "C1")) ledger))))
    = Some SCRAPED
  ∧ ¬ nonDecreasing DEPLOYED SCRAPED.
Proof.
  split; [reflexivity|]. split; [vm_compute; reflexivity|].
  split; [vm_compute; reflexivity|].
  unfold nonDecreasing. cbn. intros [H|H]; [discriminate|lia].
Qed.

Lemma status_written_by_each_handler_witness :
  (∃ updated inserted,
      leads (snd (handle fakeProviders (fun _ => JNull)
                    (Queued (DeployJob "L1")) readyToDeploy))
      = updated ++ inserted
      ∧ Forall2
          (fun l l' =>
             id l' = id l
             ∧ (status l' = status l
                ∨ (touches (Queued (DeployJob "L1")) l = true
                   ∧ status l' = writes (Queued (DeployJob "L1")))))
          (leads readyToDeploy) updated
      ∧ Forall (fun l => status l = SCRAPED) inserted
      ∧ (isScrape (Queued (DeployJob "L1")) = false → inserted = []))
  ∧ (status <$> find (hasId "L1") (leads readyToDeploy)) = Some IMAGES_READY
  ∧ (status <$> find (hasId "L1")
                  (leads (snd (handle fakeProviders (fun _ => JNull)
                                 (Queued (DeployJob "L1")) readyToDeploy))))
    = Some DEPLOYED
  ∧ Forall2 (fun l l' => nonDecreasing (status l) (status l'))
      (leads readyToDeploy)
      (leads (snd (handle fakeProviders (fun _ => JNull)
                     (Queued (DeployJob "L1")) readyToDeploy)))
  ∧ (∃ updated inserted,
        leads (deliverAll fakeProviders (fun _ => JNull)
                 ([Queued (DeployJob "L1")]
                  ++ [Queued (EmailJob "L1" One); Queued (CallJob "L1" One)])
                 readyToDeploy)
        = updated ++ inserted
        ∧ map status updated = [CALLED_1]
        ∧ Forall2 (fun l l' => id l' = id l ∧ nonDecreasing (status l) (status l'))
            (leads (deliverAll fakeProviders (fun _ => JNull) [Queued (DeployJob "L1")]
                      readyToDeploy))
            updated)
  ∧ (∃ updated w',
        upsertLeadFromListing "C1" acmeListing ledger = (Ok updated, w')
        ∧ status acme = DEPLOYED
        ∧ status updated = SCRAPED
        ∧ ¬ nonDecreasing (status acme) (status updated)).
Proof.
  destruct (status_written_by_each_handler fakeProviders (fun _ => JNull))
    as (Hstep & Hsequence & Hdeploy & Hrescrape).
  split; [apply (Hstep (Queued (DeployJob "L1")) readyToDeploy); apply NoDup_singleton|].
  split; [reflexivity|]. split; [vm_compute; reflexivity|].
  split; [apply (Hdeploy "L1" readyToDeploy); apply NoDup_singleton|].
  split.
  - destruct (Hsequence [Queued (DeployJob "L1")]
                [Queued (EmailJob "L1" One); Queued (CallJob "L1" One)] readyToDeploy)
      as (updated & inserted & Heq & Hforward);
      [apply NoDup_singleton | vm_compute; reflexivity |].
    exists updated, inserted. split; [exact Heq|]. split; [|exact Hforward].
    assert (Hfinal : map status
                       (leads (deliverAll fakeProviders (fun _ => JNull)
                                 ([Queued (DeployJob "L1")]
                                  ++ [Queued (EmailJob "L1" One); Queued (CallJob "L1" One)])
                                 readyToDeploy))
                     = [CALLED_1]) by (vm_compute; reflexivity).
    rewrite Heq, map_app in Hfinal. apply Forall2_length in Hforward.
    destruct updated as [|l1 [|l2 rest]]; [discriminate Hforward | |discriminate Hforward].
    cbn [map app] in Hfinal. injection Hfinal as Hs _. cbn [map]. by rewrite Hs.
  - destruct (Hrescrape "C1" acmeListing "https://roofers-dallas-1.example.com" acme ledger)
      as (updated & w' & Hrun & _ & Hstatus & Hback);
      [apply NoDup_singleton | reflexivity | discriminate | reflexivity |].
    exists updated, w'. split; [exact Hrun|]. split; [reflexivity|]. split; [exact Hstatus|].
    apply Hback. cbn. lia.
Defined.

(** ** Status preconditions *)

Lemma campaignExists_lookup c campaign w :
  campaigns w !! c = Some campaign → campaignExists c w = true.
Proof. intros H. unfold campaignExists. by rewrite H. Qed.

(** Site-Generate on a lead in any status. *)
Lemma processSiteJob_any_status P leadId lead campaign output w :
  find (hasId leadId) (leads w) = Some lead →
  campaigns w !! campaignId lead = Some campaign →
  generateSite P (siteInput lead campaign w) = Ok output →
  ∃ w',
    processSiteJob P leadId w = (Ok tt, w')
    ∧ find (hasId leadId) (leads w')
      = Some (applyData [SetStatus SITE_GENERATED; SetLastError None] lead).
Proof.
  intros Hfind Hcamp Hgen.
  assert (Hid : id lead = leadId) by (by apply find_hasId with (leads w)).
  unfold processSiteJob.
  run_with ltac:(unfold lead_findUnique_withCampaign, gets; rewrite Hfind, Hcamp;
                 reflexivity).
  run_with ltac:(unfold event_findLatest, gets; reflexivity).
  unfold siteInput in Hgen. rewrite Hid in Hgen.
  run_with ltac:(unfold liftR; rewrite Hid, Hgen; reflexivity).
  run_with ltac:(apply lead_update_found; by rewrite Hid).
  run_with ltac:(apply event_create_ok;
                 apply refsOk_lead
                   with (applyData [SetStatus SITE_GENERATED; SetLastError None] lead);
                 [ by apply campaignExists_lookup with campaign
                 | cbn [leads set_leads]; by rewrite Hid, find_updateRows, Hfind ]).
  run_with ltac:(reflexivity).
  eexists. split; [reflexivity|].
  cbn [leads set_console set_jobs set_events set_leads logMessage console_log modify snd].
  by rewrite Hid, find_updateRows, Hfind.
Qed.

Lemma mapM_liftR_frame {A B} (f : A → Result B) xs w :
  snd (mapM (fun x => liftR (f x)) xs w) = w.
Proof.
  revert w. induction xs as [|x xs IH]; intros w; [done|].
  cbn [mapM]. unfold bind at 1, liftR at 1. destruct (f x) as [y|e]; [|done].
  unfold bind at 1. specialize (IH w).
  destruct (mapM (λ x0 : A, liftR (f x0)) xs w) as [[ys|e] w']; cbn in *; by subst.
Qed.

(** Building (or finding) the image pool leaves the tables alone. *)
Lemma getOrCreateImagePool_frame P niche style w r w1 :
  getOrCreateImagePool P niche style w = (r, w1) →
  leads w1 = leads w ∧ campaigns w1 = campaigns w.
Proof.
  unfold getOrCreateImagePool, bind at 1, gets. cbv beta iota.
  destruct (imagePoolCache w !! poolKey P niche style); [by intros [= _ <-]|].
  unfold bind at 1.
  match goal with
  | |- context [mapM ?f ?xs w] =>
      pose proof (mapM_liftR_frame _ xs w : snd (mapM f xs w) = w) as Hhero;
      destruct (mapM f xs w) as [[heroes|e] w2]
  end; cbn in Hhero; subst w2; [|by intros [= _ <-]].
  unfold bind at 1.
  match goal with
  | |- context [mapM ?f ?xs w] =>
      pose proof (mapM_liftR_frame _ xs w : snd (mapM f xs w) = w) as Hservice;
      destruct (mapM f xs w) as [[services|e] w2]
  end; cbn in Hservice; subst w2; [|by intros [= _ <-]].
  by intros [= _ <-].
Qed.

Lemma pick_defined leadId pool :
  serviceImages pool ≠ [] →
  ∃ urls, allDefined (snd (pickLeadImages leadId pool)) = Some urls.
Proof.
  intros Hne. unfold pickLeadImages. cbn [snd serviceImagesPerLead seq map].
  assert (Hlen : 0 < Z.of_nat (length (serviceImages pool))).
  { destruct (serviceImages pool); [done|]. cbn [length]. lia. }
  assert (Hget : ∀ n, is_Some (serviceImages pool
                                 !! Z.to_nat (n mod Z.of_nat (length (serviceImages pool))))).
  { intros n. apply lookup_lt_is_Some.
    pose proof (Z.mod_pos_bound n _ Hlen). lia. }
  destruct (Hget (hashString leadId + Z.of_nat 0 * 13)) as [u0 ->].
  destruct (Hget (hashString leadId + Z.of_nat 1 * 13)) as [u1 ->].
  destruct (Hget (hashString leadId + Z.of_nat 2 * 13)) as [u2 ->].
  by eexists.
Qed.

(** Image-Assign on a lead in any status. *)
Lemma processImageJob_any_status P leadId lead campaign pool w1 w :
  find (hasId leadId) (leads w) = Some lead →
  campaigns w !! campaignId lead = Some campaign →
  getOrCreateImagePool P (c_niche campaign) defaultStyle w = (Ok pool, w1) →
  serviceImages pool ≠ [] →
  ∃ w' lead',
    processImageJob P leadId w = (Ok tt, w')
    ∧ find (hasId leadId) (leads w') = Some lead'
    ∧ status lead' = IMAGES_READY.
Proof.
  intros Hfind Hcamp Hpool Hne.
  assert (Hid : id lead = leadId) by (by apply find_hasId with (leads w)).
  destruct (getOrCreateImagePool_frame P (c_niche campaign) defaultStyle w _ _ Hpool)
    as [Hleads Hcampaigns].
  destruct (pick_defined (id lead) pool Hne) as [urls Hurls].
  unfold processImageJob.
  run_with ltac:(unfold lead_findUnique_withCampaign, gets; rewrite Hfind, Hcamp;
                 reflexivity).
  run_with ltac:(exact Hpool).
  rewrite Hurls.
  set (data := _ ++ [SetServiceImageUrls urls; SetStatus IMAGES_READY; SetLastError None]).
  assert (Hstatus : status (applyData data lead) = IMAGES_READY)
    by (unfold data; by destruct (fst (pickLeadImages (id lead) pool))).
  clearbody data.
  run_with ltac:(apply lead_update_found; by rewrite Hid, Hleads).
  run_with ltac:(apply event_create_ok; apply refsOk_lead with (applyData data lead);
                 [ apply campaignExists_lookup with campaign;
                   cbn [campaigns set_leads]; by rewrite Hcampaigns
                 | cbn [leads set_leads];
                   by rewrite Hid, find_updateRows, Hleads, Hfind ]).
  run_with ltac:(reflexivity).
  eexists. exists (applyData data lead). split; [reflexivity|]. split; [|exact Hstatus].
  cbn [leads set_console set_jobs set_events set_leads logMessage console_log modify snd].
  by rewrite Hid, find_updateRows, Hleads, Hfind.
Qed.

(** The claim as it stands fails: Site-Generate and Image-Assign both run to
    completion on a DEPLOYED lead, and overwrite its status. *)
Lemma site_and_image_accept_a_deployed_lead :
  (status <$> find (hasId "L1") (leads ledger)) = Some DEPLOYED
  ∧ fst (processSiteJob fakeProviders "L1" ledger) = Ok tt
  ∧ (status <$> find (hasId "L1") (leads (snd (processSiteJob fakeProviders "L1" ledger))))
    = Some SITE_GENERATED
  ∧ fst (processImageJob fakeProviders "L1" ledger) = Ok tt
  ∧ (status <$> find (hasId "L1") (leads (snd (processImageJob fakeProviders "L1" ledger))))
    = Some IMAGES_READY.
Proof. repeat split; vm_compute; reflexivity. Qed.

(** C4 (amended).  Deploy throws, before any write, when the lead it loads is
    not IMAGES_READY.  Site-Generate and Image-Assign make no status check:
    for a lead in any status they complete as soon as the site builder,
    respectively the image pool, delivers, and set the status to
    SITE_GENERATED, respectively IMAGES_READY. *)
Theorem status_precondition_only_at_deploy
    (P : Providers) (w : World) (leadId : string) (lead : Lead) :
  find (hasId leadId) (leads w) = Some lead →
  (status lead ≠ IMAGES_READY →
   processDeployJob P leadId w
   = (Throw ("Lead " +:+ leadId +:+ " must be IMAGES_READY before deploy (current="
               +:+ LeadStatus_name (status lead) +:+ ")"), w))
  ∧ (∀ campaign output,
        campaigns w !! campaignId lead = Some campaign →
        generateSite P (siteInput lead campaign w) = Ok output →
        ∃ w' lead',
          processSiteJob P leadId w = (Ok tt, w')
          ∧ find (hasId leadId) (leads w') = Some lead'
          ∧ status lead' = SITE_GENERATED)
  ∧ (∀ campaign pool w1,
        campaigns w !! campaignId lead = Some campaign →
        getOrCreateImagePool P (c_niche campaign) defaultStyle w = (Ok pool, w1) →
        serviceImages pool ≠ [] →
        ∃ w' lead',
          processImageJob P leadId w = (Ok tt, w')
          ∧ find (hasId leadId) (leads w') = Some lead'
          ∧ status lead' = IMAGES_READY).
Proof.
  intros Hfind. split; [|split].
  - intros Hstatus. by apply processDeployJob_rejects.
  - intros campaign output Hcamp Hgen.
    destruct (processSiteJob_any_status P leadId lead campaign output w Hfind Hcamp Hgen)
      as (w' & Hrun & Hrow).
    exists w'. eexists. split; [exact Hrun|]. split; [exact Hrow|]. reflexivity.
  - intros campaign pool w1 Hcamp Hpool Hne.
    by apply (processImageJob_any_status P leadId lead campaign pool w1 w).
Qed.

Lemma status_precondition_only_at_deploy_witness :
  processDeployJob fakeProviders "L1" ledger
  = (Throw "Lead L1 must be IMAGES_READY before deploy (current=DEPLOYED)", ledger).
Proof.
  destruct (status_precondition_only_at_deploy fakeProviders ledger "L1" acme) as [H _];
    [reflexivity|].
  apply H. discriminate.
Defined.

(** ** Opt-out stickiness at the Email and Call stages *)

Lemma find_after_tableStep d rows updated inserted k l :
  Forall2 (rowStep d) rows updated →
  find (hasId k) rows = Some l →
  ∃ l', find (hasId k) (updated ++ inserted) = Some l' ∧ rowStep d l l'.
Proof.
  intros Hstep. induction Hstep as [|r r' rows updated Hr Hrest IH]; [done|].
  cbn. destruct Hr as (Hid & Hr). unfold hasId at 1 3. rewrite Hid.
  destruct (String.eqb (id r) k).
  - intros [= <-]. exists r'. by split.
  - apply IH.
Qed.

(** No delivery resets [doNotContact]. *)
Lemma doNotContact_stays P zodDetails d w k l :
  find (hasId k) (leads w) = Some l →
  doNotContact l = true →
  ∃ l', find (hasId k) (leads (snd (handle P zodDetails d w))) = Some l'
        ∧ doNotContact l' = true.
Proof.
  intros Hfind Hdnc.
  destruct (handle_tableStep P zodDetails d w) as (updated & inserted & -> & Hupd & _).
  destruct (find_after_tableStep d _ updated inserted k l Hupd Hfind)
    as (l' & Hfind' & _ & _ & Hkeep & _).
  exists l'. split; [exact Hfind'|by apply Hkeep].
Qed.

(** C5.  For a lead with [doNotContact = true], the Email handler (any step)
    and the Call handler (any attempt) return normally, and the only change
    to the world is one console line reporting the skip: no provider call, no
    event, no change to the lead (nor to the queues or the idempotency
    store).  The flag stays set over every later delivery, of any stage job
    or webhook call, so this holds for every subsequent invocation. *)
Theorem doNotContact_skips_email_and_call
    (P : Providers) (w : World) (leadId : string) (lead : Lead) :
  find (hasId leadId) (leads w) = Some lead →
  doNotContact lead = true →
  (∀ step,
      processEmailJob P leadId step w
      = (Ok tt,
         set_console
           (fun c => c ++ [logLine (campaignId lead) (id lead) "emailer"
                             "skipped email (doNotContact=true)"]) w))
  ∧ (∀ attempt,
      processCallJob P leadId attempt w
      = (Ok tt,
         set_console
           (fun c => c ++ [logLine (campaignId lead) (id lead) "caller"
                             "skipped call (doNotContact=true)"]) w))
  ∧ (∀ step, outbox (snd (processEmailJob P leadId step w)) = outbox w
             ∧ events (snd (processEmailJob P leadId step w)) = events w
             ∧ leads (snd (processEmailJob P leadId step w)) = leads w)
  ∧ (∀ attempt, outbox (snd (processCallJob P leadId attempt w)) = outbox w
                ∧ events (snd (processCallJob P leadId attempt w)) = events w
                ∧ leads (snd (processCallJob P leadId attempt w)) = leads w)
  ∧ (∀ zodDetails d,
        ∃ lead', find (hasId leadId) (leads (snd (handle P zodDetails d w))) = Some lead'
                 ∧ doNotContact lead' = true).
Proof.
  intros Hfind Hdnc.
  assert (Hemail : ∀ step,
             processEmailJob P leadId step w
             = (Ok tt,
                set_console
                  (fun c => c ++ [logLine (campaignId lead) (id lead) "emailer"
                                    "skipped email (doNotContact=true)"]) w)).
  { intros step. unfold processEmailJob.
    run_with ltac:(unfold lead_findUnique, gets; rewrite Hfind; reflexivity).
    rewrite Hdnc. reflexivity. }
  assert (Hcall : ∀ attempt,
             processCallJob P leadId attempt w
             = (Ok tt,
                set_console
                  (fun c => c ++ [logLine (campaignId lead) (id lead) "caller"
                                    "skipped call (doNotContact=true)"]) w)).
  { intros attempt. unfold processCallJob.
    run_with ltac:(unfold lead_findUnique, gets; rewrite Hfind; reflexivity).
    rewrite Hdnc. reflexivity. }
  split; [exact Hemail|]. split; [exact Hcall|]. split; [|split].
  - intros step. by rewrite Hemail.
  - intros attempt. by rewrite Hcall.
  - intros zodDetails d. by apply doNotContact_stays with lead.
Qed.

Lemma doNotContact_skips_email_and_call_witness :
  processEmailJob fakeProviders "L2" One ledgerWithOptOut
  = (Ok tt,
     set_console (fun c => c ++ ["[C1][L2][emailer] skipped email (doNotContact=true)"])
       ledgerWithOptOut).
Proof.
  destruct (doNotContact_skips_email_and_call fakeProviders ledgerWithOptOut "L2" optedOut)
    as [Hemail _]; [reflexivity | reflexivity |].
  exact (Hemail One).
Defined.

(** * Further properties of the handlers *)

(** ** Missing rows *)

(** X1.  A stage job whose lead does not exist throws [Lead not found: id]
    and changes nothing: this holds for Enrich, Site-Generate, Image-Assign,
    Deploy, Email (any step) and Call (any attempt).  A Scrape job whose
    campaign does not exist throws [Campaign not found: id] after its first
    console line, with no other change. *)
Theorem missing_row_is_fatal (P : Providers) (w : World) (k : string) :
  (find (hasId k) (leads w) = None →
   processEnrichJob P k w = (Throw ("Lead not found: " +:+ k), w)
   ∧ processSiteJob P k w = (Throw ("Lead not found: " +:+ k), w)
   ∧ processImageJob P k w = (Throw ("Lead not found: " +:+ k), w)
   ∧ processDeployJob P k w = (Throw ("Lead not found: " +:+ k), w)
   ∧ (∀ step, processEmailJob P k step w = (Throw ("Lead not found: " +:+ k), w))
   ∧ (∀ attempt, processCallJob P k attempt w = (Throw ("Lead not found: " +:+ k), w)))
  ∧ (campaigns w !! k = None →
     processScrapeJob P k w
     = (Throw ("Campaign not found: " +:+ k),
        set_console (fun c => c ++ [logLine k "-" "scraper" "starting scrape batch"]) w)).
Proof.
  split.
  - intros Hnone.
    assert (Hfind : lead_findUnique k w = (Ok None, w))
      by (unfold lead_findUnique, gets; by rewrite Hnone).
    assert (Hfind' : lead_findUnique_withCampaign k w = (Ok None, w))
      by (unfold lead_findUnique_withCampaign, gets; by rewrite Hnone).
    repeat split; try intros ?.
    + unfold processEnrichJob. run_with ltac:(exact Hfind). reflexivity.
    + unfold processSiteJob. run_with ltac:(exact Hfind'). reflexivity.
    + unfold processImageJob. run_with ltac:(exact Hfind'). reflexivity.
    + unfold processDeployJob. run_with ltac:(exact Hfind). reflexivity.
    + unfold processEmailJob. run_with ltac:(exact Hfind). reflexivity.
    + unfold processCallJob. run_with ltac:(exact Hfind). reflexivity.
  - intros Hnone. unfold processScrapeJob.
    run_with ltac:(reflexivity).
    run_with ltac:(unfold campaign_findUnique, gets; cbn [campaigns set_console];
                   rewrite Hnone; reflexivity).
    reflexivity.
Qed.

Lemma missing_row_is_fatal_witness :
  processDeployJob fakeProviders "L404" ledger = (Throw "Lead not found: L404", ledger).
Proof.
  destruct (missing_row_is_fatal fakeProviders ledger "L404") as [H _].
  destruct H as (_ & _ & _ & Hdeploy & _); [reflexivity|]. exact Hdeploy.
Defined.

(** ** Guards of the Call and Email stages *)

(** X2.  A Call job for a contactable lead without a phone number, or whose
    [callAttempts] has reached 2, is a logged skip whatever the attempt
    number in the job: the handler returns normally and only the console
    changes, so no call is placed, no CALL_PLACED event is written and the
    idempotency key is not claimed. *)
Theorem call_skipped_without_phone_or_at_cap
    (P : Providers) (w : World) (leadId : string) (lead : Lead) (attempt : OneOrTwo) :
  find (hasId leadId) (leads w) = Some lead →
  doNotContact lead = false →
  (truthy (phone lead) = false →
   processCallJob P leadId attempt w
   = (Ok tt,
      set_console
        (fun c => c ++ [logLine (campaignId lead) (id lead) "caller"
                          "skipped call (missing phone)"]) w))
  ∧ (truthy (phone lead) = true → 2 <= callAttempts lead →
     processCallJob P leadId attempt w
     = (Ok tt,
        set_console
          (fun c => c ++ [logLine (campaignId lead) (id lead) "caller"
                            "skipped call (callAttempts >= 2)"]) w)).
Proof.
  intros Hfind Hdnc. split.
  - intros Hphone. unfold processCallJob.
    run_with ltac:(unfold lead_findUnique, gets; rewrite Hfind; reflexivity).
    rewrite Hdnc, Hphone. reflexivity.
  - intros Hphone Hcap. unfold processCallJob.
    run_with ltac:(unfold lead_findUnique, gets; rewrite Hfind; reflexivity).
    rewrite Hdnc, Hphone. cbn [negb].
    destruct (callAttempts lead >=? 2) eqn:Hge; [reflexivity|lia].
Qed.

Lemma call_skipped_without_phone_or_at_cap_witness :
  processCallJob fakeProviders "L1" One (ledgerOf acmeCalledTwice)
  = (Ok tt,
     set_console (fun c => c ++ ["[C1][L1][caller] skipped call (callAttempts >= 2)"])
       (ledgerOf acmeCalledTwice)).
Proof.
  destruct (call_skipped_without_phone_or_at_cap fakeProviders (ledgerOf acmeCalledTwice)
              "L1" acmeCalledTwice One) as [_ H]; [reflexivity | reflexivity |].
  apply H; [reflexivity | cbn; lia].
Defined.

(** X3.  An Email job for a contactable lead: without an email address it is
    a logged skip; with an address but no [demoUrl] it throws
    [Lead id missing demoUrl; cannot email] and changes nothing; with both, and
    [emailSentCount] already at the step or beyond, it is a logged skip.  In
    none of these cases is the provider called or the idempotency key
    claimed. *)
Theorem email_guards
    (P : Providers) (w : World) (leadId : string) (lead : Lead) (step : OneOrTwo) :
  find (hasId leadId) (leads w) = Some lead →
  doNotContact lead = false →
  (truthy (email lead) = false →
   processEmailJob P leadId step w
   = (Ok tt,
      set_console
        (fun c => c ++ [logLine (campaignId lead) (id lead) "emailer"
                          "skipped email (missing email)"]) w))
  ∧ (truthy (email lead) = true → truthy (demoUrl lead) = false →
     processEmailJob P leadId step w
     = (Throw ("Lead " +:+ id lead +:+ " missing demoUrl; cannot email"), w))
  ∧ (truthy (email lead) = true → truthy (demoUrl lead) = true →
     num step <= emailSentCount lead →
     processEmailJob P leadId step w
     = (Ok tt,
        set_console
          (fun c => c ++ [logLine (campaignId lead) (id lead) "emailer"
                            ("step " +:+ num_str step +:+ " already sent; skipping duplicate")])
          w)).
Proof.
  intros Hfind Hdnc. split; [|split].
  - intros Hemail. unfold processEmailJob.
    run_with ltac:(unfold lead_findUnique, gets; rewrite Hfind; reflexivity).
    rewrite Hdnc, Hemail. reflexivity.
  - intros Hemail Hdemo. unfold processEmailJob.
    run_with ltac:(unfold lead_findUnique, gets; rewrite Hfind; reflexivity).
    rewrite Hdnc, Hemail, Hdemo. reflexivity.
  - intros Hemail Hdemo Hcount. unfold processEmailJob.
    run_with ltac:(unfold lead_findUnique, gets; rewrite Hfind; reflexivity).
    rewrite Hdnc, Hemail, Hdemo. cbn [negb].
    destruct (emailSentCount lead >=? num step) eqn:Hge; [reflexivity|lia].
Qed.

Lemma email_guards_witness :
  processEmailJob fakeProviders "L1" One (ledgerOf acmeWithoutDemo)
  = (Throw "Lead L1 missing demoUrl; cannot email", ledgerOf acmeWithoutDemo).
Proof.
  destruct (email_guards fakeProviders (ledgerOf acmeWithoutDemo) "L1" acmeWithoutDemo One)
    as (_ & H & _); [reflexivity | reflexivity |].
  apply H; reflexivity.
Defined.



(** ** Failure and replay of the side-effecting stages *)

Lemma rollback_claim k row f w :
  idempotencyKeys w !! k = None →
  set_idempotencyKeys (delete k) (set_outbox f (set_idempotencyKeys (insert k row) w))
  = set_outbox f w.
Proof.
  intros Hnone. destruct w as [ls cs es ks js ob cache con]. cbn in *.
  unfold set_idempotencyKeys, set_outbox. cbn. f_equal.
  rewrite delete_insert_eq. by apply delete_id.
Qed.

Lemma emailRun_throw P lead step w e :
  sendEmail P (outbox w) (emailInput lead step) = Throw e →
  emailRun P lead step w = (Throw e, afterFailedEmail lead step w).
Proof.
  intros Hsend. unfold emailRun.
  run_with ltac:(unfold gets; reflexivity).
  run_with ltac:(unfold modify; reflexivity).
  erewrite bind_throw by (unfold liftR; rewrite Hsend; reflexivity). reflexivity.
Qed.

Lemma callRun_throw P lead attempt w e :
  placeCall P (outbox w) (callInput P lead) = Throw e →
  callRun P lead attempt w = (Throw e, afterFailedCall P lead w).
Proof.
  intros Hcall. unfold callRun.
  run_with ltac:(unfold gets; reflexivity).
  run_with ltac:(unfold modify; reflexivity).
  erewrite bind_throw by (unfold liftR; rewrite Hcall; reflexivity). reflexivity.
Qed.

Lemma processEmailJob_provider_fails P w lead step e :
  find (hasId (id lead)) (leads w) = Some lead →
  campaignExists (campaignId lead) w = true →
  doNotContact lead = false →
  truthy (email lead) = true →
  truthy (demoUrl lead) = true →
  emailSentCount lead < num step →
  idempotencyKeys w !! emailKey (id lead) step = None →
  sendEmail P (outbox w) (emailInput lead step) = Throw e →
  processEmailJob P (id lead) step w = (Throw e, afterFailedEmail lead step w).
Proof.
  intros Hfind Hcamp Hdnc Hemail Hdemo Hcount Hkey Hsend. unfold processEmailJob.
  run_with ltac:(unfold lead_findUnique, gets; rewrite Hfind; reflexivity).
  rewrite Hdnc, Hemail, Hdemo. cbn [negb].
  destruct (emailSentCount lead >=? num step) eqn:Hge; [lia|].
  erewrite bind_throw
    by (apply (runIdempotentStage_failure (emailStage P lead step) w e
                 (afterFailedEmail lead step
                    (set_idempotencyKeys
                       (insert (emailKey (id lead) step) (claimRow (emailStage P lead step)))
                       w)));
        [ exact Hkey
        | cbn [ri_campaignId ri_leadId emailStage];
          apply refsOk_lead with lead; [exact Hcamp | exact Hfind]
        | apply emailRun_throw; exact Hsend
        | reflexivity ]).
  cbn [ri_key emailStage]. unfold afterFailedEmail. by rewrite rollback_claim.
Qed.

Lemma processCallJob_provider_fails P w lead attempt e :
  find (hasId (id lead)) (leads w) = Some lead →
  campaignExists (campaignId lead) w = true →
  doNotContact lead = false →
  truthy (phone lead) = true →
  callAttempts lead < 2 →
  idempotencyKeys w !! callKey (id lead) attempt = None →
  placeCall P (outbox w) (callInput P lead) = Throw e →
  processCallJob P (id lead) attempt w = (Throw e, afterFailedCall P lead w).
Proof.
  intros Hfind Hcamp Hdnc Hphone Hcount Hkey Hcall. unfold processCallJob.
  run_with ltac:(unfold lead_findUnique, gets; rewrite Hfind; reflexivity).
  rewrite Hdnc, Hphone. cbn [negb].
  destruct (callAttempts lead >=? 2) eqn:Hge; [lia|].
  erewrite bind_throw
    by (apply (runIdempotentStage_failure (callStage P lead attempt) w e
                 (afterFailedCall P lead
                    (set_idempotencyKeys
                       (insert (callKey (id lead) attempt) (claimRow (callStage P lead attempt)))
                       w)));
        [ exact Hkey
        | cbn [ri_campaignId ri_leadId callStage];
          apply refsOk_lead with lead; [exact Hcamp | exact Hfind]
        | apply callRun_throw; exact Hcall
        | reflexivity ]).
  cbn [ri_key callStage]. unfold afterFailedCall. by rewrite rollback_claim.
Qed.

(** X5.  When the provider throws during an Email or Call stage for a lead
    that is due, the handler throws the provider's error and the ledger is as
    before: lead row (status and counters), events, queues and idempotency
    store are unchanged, only the provider's call log has the failed call.
    The key is therefore free, and a retry that the provider accepts goes
    through as a first delivery does. *)
Theorem provider_failure_rolls_back (P : Providers) (w : World) (lead : Lead) (e : string) :
  find (hasId (id lead)) (leads w) = Some lead →
  campaignExists (campaignId lead) w = true →
  doNotContact lead = false →
  (∀ step,
      truthy (email lead) = true →
      truthy (demoUrl lead) = true →
      emailSentCount lead < num step →
      idempotencyKeys w !! emailKey (id lead) step = None →
      sendEmail P (outbox w) (emailInput lead step) = Throw e →
      processEmailJob P (id lead) step w = (Throw e, afterFailedEmail lead step w)
      ∧ ∀ messageId,
          sendEmail P (outbox (afterFailedEmail lead step w)) (emailInput lead step)
          = Ok messageId →
          processEmailJob P (id lead) step (afterFailedEmail lead step w)
          = (Ok tt, afterEmail P lead step messageId (afterFailedEmail lead step w)))
  ∧ (∀ attempt,
      truthy (phone lead) = true →
      callAttempts lead < 2 →
      idempotencyKeys w !! callKey (id lead) attempt = None →
      placeCall P (outbox w) (callInput P lead) = Throw e →
      processCallJob P (id lead) attempt w = (Throw e, afterFailedCall P lead w)
      ∧ ∀ callId,
          placeCall P (outbox (afterFailedCall P lead w)) (callInput P lead) = Ok callId →
          processCallJob P (id lead) attempt (afterFailedCall P lead w)
          = (Ok tt, afterCall P lead attempt callId (afterFailedCall P lead w))).
Proof.
  intros Hfind Hcamp Hdnc. split.
  - intros step Hemail Hdemo Hcount Hkey Hsend.
    split; [by apply processEmailJob_provider_fails|].
    intros messageId Hretry. by apply processEmailJob_first.
  - intros attempt Hphone Hcount Hkey Hcall.
    split; [by apply processCallJob_provider_fails|].
    intros callId Hretry. by apply processCallJob_first.
Qed.

Lemma provider_failure_rolls_back_witness :
  processEmailJob (withEnv (Some "production") fakeProviders) "L1" One ledger
  = (Throw "Real email provider not implemented yet", afterFailedEmail acme One ledger).
Proof.
  destruct (provider_failure_rolls_back (withEnv (Some "production") fakeProviders) ledger acme
              "Real email provider not implemented yet") as [H _];
    [reflexivity | reflexivity | reflexivity |].
  destruct (H One) as [Hfail _]; [reflexivity | reflexivity | cbn; lia | reflexivity
                                 | reflexivity |].
  exact Hfail.
Defined.

Lemma isProduction_spec env :
  isProduction env = true ↔ ∃ name, env = Some name ∧ toLowerCase name = "production".
Proof.
  unfold isProduction. rewrite String.eqb_eq. destruct env as [name|]; cbn.
  - split; [by exists name|]. by intros (? & [= <-] & ?).
  - split; [done|]. by intros (? & ? & ?).
Qed.

(** X6.  With [ENV] set to "production" in any letter case, the email and
    call providers are the real adapters, which are not implemented: every
    Email or Call job that reaches the provider throws
    [Real ... provider not implemented yet] and leaves the lead as it was, so
    [emailSentCount] and [callAttempts] never move.  With [ENV] unset or set to
    anything else the fake providers are used. *)
Theorem production_providers_always_fail
    (env : option string) (P : Providers) (w : World) (lead : Lead) :
  (isProduction env = false →
   sendEmail (withEnv env P) = sendEmail P ∧ placeCall (withEnv env P) = placeCall P)
  ∧ (isProduction env = true →
     find (hasId (id lead)) (leads w) = Some lead →
     campaignExists (campaignId lead) w = true →
     doNotContact lead = false →
     (∀ step,
         truthy (email lead) = true →
         truthy (demoUrl lead) = true →
         emailSentCount lead < num step →
         idempotencyKeys w !! emailKey (id lead) step = None →
         fst (processEmailJob (withEnv env P) (id lead) step w)
         = Throw "Real email provider not implemented yet"
         ∧ leads (snd (processEmailJob (withEnv env P) (id lead) step w)) = leads w)
     ∧ (∀ attempt,
         truthy (phone lead) = true →
         callAttempts lead < 2 →
         idempotencyKeys w !! callKey (id lead) attempt = None →
         fst (processCallJob (withEnv env P) (id lead) attempt w)
         = Throw "Real call provider not implemented yet"
         ∧ leads (snd (processCallJob (withEnv env P) (id lead) attempt w)) = leads w)).
Proof.
  split.
  - intros Henv. unfold withEnv, resolveEmailProvider, resolveCallProvider. cbn.
    by rewrite Henv.
  - intros Henv Hfind Hcamp Hdnc. split.
    + intros step Hemail Hdemo Hcount Hkey.
      rewrite (processEmailJob_provider_fails (withEnv env P) w lead step
                 "Real email provider not implemented yet"); try done.
      cbn. unfold resolveEmailProvider. by rewrite Henv.
    + intros attempt Hphone Hcount Hkey.
      rewrite (processCallJob_provider_fails (withEnv env P) w lead attempt
                 "Real call provider not implemented yet"); try done.
      cbn. unfold resolveCallProvider. by rewrite Henv.
Qed.

Lemma production_providers_always_fail_witness :
  fst (processCallJob (withEnv (Some "Production") fakeProviders) "L1" Two ledger)
  = Throw "Real call provider not implemented yet".
Proof.
  destruct (production_providers_always_fail (Some "Production") fakeProviders ledger acme)
    as [_ H].
  destruct H as [_ Hcall]; [reflexivity | reflexivity | reflexivity | reflexivity |].
  destruct (Hcall Two) as [Hfail _]; [reflexivity | cbn; lia | reflexivity |].
  exact Hfail.
Defined.

Lemma set_console_app l1 l2 w :
  set_console (fun c => c ++ l2) (set_console (fun c => c ++ l1) w)
  = set_console (fun c => c ++ (l1 ++ l2)) w.
Proof.
  destruct w. unfold set_console. cbn. f_equal. by rewrite app_assoc.
Qed.

Lemma processEmailJob_in_flight P w lead step row :
  find (hasId (id lead)) (leads w) = Some lead →
  doNotContact lead = false →
  truthy (email lead) = true →
  truthy (demoUrl lead) = true →
  emailSentCount lead < num step →
  idempotencyKeys w !! emailKey (id lead) step = Some row →
  committedValue (ik_result row) = None →
  processEmailJob P (id lead) step w
  = (Ok tt,
     set_console
       (fun c => c ++ [inFlightLine (emailStage P lead step);
                       logLine (campaignId lead) (id lead) "emailer"
                         ("idempotency skip for step " +:+ num_str step)]) w).
Proof.
  intros Hfind Hdnc Hemail Hdemo Hcount Hkey Hval. unfold processEmailJob.
  run_with ltac:(unfold lead_findUnique, gets; rewrite Hfind; reflexivity).
  rewrite Hdnc, Hemail, Hdemo. cbn [negb].
  destruct (emailSentCount lead >=? num step) eqn:Hge; [lia|].
  run_with ltac:(apply (runIdempotentStage_in_flight (emailStage P lead step) w row);
                 [exact Hkey | exact Hval]).
  cbn [executed negb]. unfold logMessage, console_log, modify. by rewrite set_console_app.
Qed.

Lemma processCallJob_in_flight P w lead attempt row :
  find (hasId (id lead)) (leads w) = Some lead →
  doNotContact lead = false →
  truthy (phone lead) = true →
  callAttempts lead < 2 →
  idempotencyKeys w !! callKey (id lead) attempt = Some row →
  committedValue (ik_result row) = None →
  processCallJob P (id lead) attempt w
  = (Ok tt,
     set_console
       (fun c => c ++ [inFlightLine (callStage P lead attempt);
                       logLine (campaignId lead) (id lead) "caller"
                         ("idempotency skip for attempt " +:+ num_str attempt)]) w).
Proof.
  intros Hfind Hdnc Hphone Hcount Hkey Hval. unfold processCallJob.
  run_with ltac:(unfold lead_findUnique, gets; rewrite Hfind; reflexivity).
  rewrite Hdnc, Hphone. cbn [negb].
  destruct (callAttempts lead >=? 2) eqn:Hge; [lia|].
  run_with ltac:(apply (runIdempotentStage_in_flight (callStage P lead attempt) w row);
                 [exact Hkey | exact Hval]).
  cbn [executed negb]. unfold logMessage, console_log, modify. by rewrite set_console_app.
Qed.

(** X7.  A claim row that was inserted and never resolved (the worker died
    between the claim and the commit) blocks its stage for good: every later
    delivery of the same Email or Call job returns normally, calls no provider
    and writes nothing, and only adds its two log lines.  After [n] deliveries
    the world is the one before them with [2 * n] more log lines, and the next
    delivery again returns normally. *)
Theorem orphaned_claim_blocks_stage
    (P : Providers) (w : World) (lead : Lead) (row : IdempotencyKey) (n : nat) :
  find (hasId (id lead)) (leads w) = Some lead →
  doNotContact lead = false →
  committedValue (ik_result row) = None →
  (∀ step,
      truthy (email lead) = true →
      truthy (demoUrl lead) = true →
      emailSentCount lead < num step →
      idempotencyKeys w !! emailKey (id lead) step = Some row →
      (∃ lines,
          redeliverEmail P (id lead) step n w = set_console (fun c => c ++ lines) w
          ∧ length lines = (2 * n)%nat)
      ∧ fst (processEmailJob P (id lead) step (redeliverEmail P (id lead) step n w)) = Ok tt)
  ∧ (∀ attempt,
      truthy (phone lead) = true →
      callAttempts lead < 2 →
      idempotencyKeys w !! callKey (id lead) attempt = Some row →
      (∃ lines,
          redeliverCall P (id lead) attempt n w = set_console (fun c => c ++ lines) w
          ∧ length lines = (2 * n)%nat)
      ∧ fst (processCallJob P (id lead) attempt (redeliverCall P (id lead) attempt n w)) = Ok tt).
Proof.
  intros Hfind Hdnc Hval. split.
  - intros step Hemail Hdemo Hcount Hkey.
    assert (Hiter : ∀ m, ∃ lines,
               redeliverEmail P (id lead) step m w = set_console (fun c => c ++ lines) w
               ∧ length lines = (2 * m)%nat).
    { induction m as [|m (lines & IH & Hlen)].
      - exists []. split; [|reflexivity]. destruct w. unfold set_console. cbn.
        by rewrite app_nil_r.
      - change (redeliverEmail P (id lead) step (S m) w)
          with (snd (processEmailJob P (id lead) step (redeliverEmail P (id lead) step m w))).
        rewrite IH.
        rewrite (processEmailJob_in_flight P _ lead step row) by done.
        cbn [snd]. rewrite set_console_app. eexists. split; [reflexivity|].
        rewrite length_app. cbn [length]. lia. }
    split; [apply Hiter|]. destruct (Hiter n) as (lines & -> & _).
    by rewrite (processEmailJob_in_flight P _ lead step row).
  - intros attempt Hphone Hcount Hkey.
    assert (Hiter : ∀ m, ∃ lines,
               redeliverCall P (id lead) attempt m w = set_console (fun c => c ++ lines) w
               ∧ length lines = (2 * m)%nat).
    { induction m as [|m (lines & IH & Hlen)].
      - exists []. split; [|reflexivity]. destruct w. unfold set_console. cbn.
        by rewrite app_nil_r.
      - change (redeliverCall P (id lead) attempt (S m) w)
          with (snd (processCallJob P (id lead) attempt (redeliverCall P (id lead) attempt m w))).
        rewrite IH.
        rewrite (processCallJob_in_flight P _ lead attempt row) by done.
        cbn [snd]. rewrite set_console_app. eexists. split; [reflexivity|].
        rewrite length_app. cbn [length]. lia. }
    split; [apply Hiter|]. destruct (Hiter n) as (lines & -> & _).
    by rewrite (processCallJob_in_flight P _ lead attempt row).
Qed.

Lemma orphaned_claim_blocks_stage_witness :
  ∃ lines,
    redeliverEmail fakeProviders "L1" One 3 ledgerWithOrphanedClaim
    = set_console (fun c => c ++ lines) ledgerWithOrphanedClaim
    ∧ length lines = 6%nat.
Proof.
  destruct (orphaned_claim_blocks_stage fakeProviders ledgerWithOrphanedClaim acme
              (claimRow acmeEmailStage) 3) as [H _];
    [reflexivity | reflexivity | reflexivity |].
  destruct (H One) as [Hlines _]; [reflexivity | reflexivity | cbn; lia | reflexivity |].
  exact Hlines.
Defined.

(** ** Webhook ingestion *)

(** X8.  The webhook handler turns a request down without writing anything:
    a body that is not an object with a string [status] (and string or absent
    [leadId], [campaignId], [callId], [transcript]) gets 400
    [Invalid webhook payload]; a [leadId] naming no lead gets 404
    [Lead not found]; a body with neither a usable [leadId] nor a usable
    [campaignId] gets 400 [campaignId is required when leadId is not provided].
    In all three cases the handler returns normally and the world is
    unchanged. *)
Theorem webhook_rejections_write_nothing
    (zodDetails : Json → Json) (provider : string) (body : Json) (w : World) :
  ((∀ s, json_get "status" body ≠ Some (JStr s)) → callWebhookSchema body = None)
  ∧ (callWebhookSchema body = None →
     callWebhookHandler zodDetails provider body w
     = (Ok (invalidPayload (zodDetails body)), w))
  ∧ (∀ payload k,
        callWebhookSchema body = Some payload →
        wp_leadId payload = Some k →
        k ≠ "" →
        find (hasId k) (leads w) = None →
        callWebhookHandler zodDetails provider body w = (Ok leadNotFound, w))
  ∧ (∀ payload,
        callWebhookSchema body = Some payload →
        truthy (wp_leadId payload) = false →
        truthy (wp_campaignId payload) = false →
        callWebhookHandler zodDetails provider body w = (Ok campaignIdRequired, w)).
Proof.
  repeat split.
  - intros Hstatus. unfold callWebhookSchema. destruct body; try reflexivity.
    destruct (optionalString "leadId" _); [|reflexivity].
    destruct (optionalString "campaignId" _); [|reflexivity].
    destruct (optionalString "callId" _); [|reflexivity].
    destruct (json_get "status" _) as [[]|] eqn:Hs; try reflexivity.
    by destruct (Hstatus _ eq_refl).
  - intros Hparse. unfold callWebhookHandler. by rewrite Hparse.
  - intros payload k Hparse Hlead Hk Hfind. unfold callWebhookHandler.
    rewrite Hparse, Hlead. rewrite (truthy_nonempty k Hk). cbn [from_option Datatypes.id].
    run_with ltac:(erewrite bind_ok
                     by (unfold lead_findUnique, gets; rewrite Hfind; reflexivity);
                   reflexivity).
    reflexivity.
  - intros payload Hparse Hlead Hcamp. unfold callWebhookHandler.
    rewrite Hparse, Hlead.
    run_with ltac:(reflexivity).
    rewrite Hcamp. reflexivity.
Qed.

Lemma webhook_rejections_write_nothing_witness :
  callWebhookHandler (fun _ => JNull) "twilio" (JObj [("leadId", JStr "L404")]) ledger
  = (Ok (invalidPayload JNull), ledger).
Proof.
  destruct (webhook_rejections_write_nothing (fun _ => JNull) "twilio"
              (JObj [("leadId", JStr "L404")]) ledger) as (Hschema & Hinvalid & _).
  apply Hinvalid. apply Hschema. intros s. discriminate.
Defined.







(** ** Scrape batches *)

Lemma find_none_existsb {A} (f : A → bool) rows : find f rows = None → existsb f rows = false.
Proof.
  induction rows as [|x rows IH]; [done|]. cbn. destruct (f x); [done|]. exact IH.
Qed.

Lemma existsb_find {A} (f : A → bool) rows : existsb f rows = true → ∃ x, find f rows = Some x.
Proof.
  induction rows as [|x rows IH]; [done|]. cbn. destruct (f x); [by exists x|]. exact IH.
Qed.

Lemma existsb_onSite_updateRows c u k data rows :
  existsb (onSite c u) (updateRows k data rows) = existsb (onSite c u) rows.
Proof.
  unfold updateRows. induction rows as [|l rows IH]; [done|]. cbn. rewrite IH. f_equal.
  destruct (hasId k l); [|done]. unfold onSite.
  destruct (applyData_keys data l) as (_ & -> & ->). reflexivity.
Qed.

Lemma lead_create_ok d w :
  campaignExists (lc_campaignId d) w = true →
  violatesSiteIndex d (leads w) = false →
  lead_create d w
  = (Ok (newLead (newLeadId (leads w)) d),
     set_leads (fun _ => leads w ++ [newLead (newLeadId (leads w)) d]) w).
Proof. intros Hc Hv. unfold lead_create. by rewrite Hc, Hv. Qed.

Lemma existsb_hasId_new rows d :
  existsb (hasId (newLeadId rows)) (rows ++ [newLead (newLeadId rows) d]) = true.
Proof.
  rewrite existsb_app. apply orb_true_iff. right. cbn [existsb]. unfold hasId.
  cbn [id newLead]. by rewrite String.eqb_refl.
Qed.

(** Storing one listing of an existing campaign always succeeds. *)
Lemma upsertLeadFromListing_ok c listing w :
  campaignExists c w = true →
  ∃ lead,
    upsertLeadFromListing c listing w
    = (Ok lead, set_leads (fun _ => storeListing c listing (leads w)) w)
    ∧ existsb (hasId (id lead)) (storeListing c listing (leads w)) = true.
Proof.
  intros Hc. unfold upsertLeadFromListing, storeListing, listingCreate, siteOf.
  destruct (li_websiteUrl listing) as [[|ch u]|].
  - eexists. split; [by apply lead_create_ok|]. apply existsb_hasId_new.
  - unfold lead_upsert.
    destruct (find (onSite c (String ch u)) (leads w)) as [existing|] eqn:Hfind.
    + run_with ltac:(unfold gets; rewrite Hfind; reflexivity).
      assert (Hin : existsb (hasId (id existing)) (leads w) = true).
      { apply existsb_exists. exists existing. apply find_some in Hfind as [Hin _].
        split; [exact Hin|]. unfold hasId. apply String.eqb_refl. }
      destruct (existsb_find _ _ Hin) as (l0 & Hl0).
      exists (applyData (scrapeData listing) l0). split.
      * by rewrite (lead_update_found _ _ _ l0 Hl0).
      * rewrite existsb_hasId_updateRows.
        destruct (applyData_keys (scrapeData listing) l0) as (-> & _).
        by rewrite (find_hasId _ _ _ Hl0).
    + run_with ltac:(unfold gets; rewrite Hfind; reflexivity).
      eexists. split.
      * apply lead_create_ok; [exact Hc|]. unfold violatesSiteIndex. cbn.
        by apply find_none_existsb.
      * apply existsb_hasId_new.
  - eexists. split; [by apply lead_create_ok|]. apply existsb_hasId_new.
Qed.

(** One turn of the loop of [processScrapeJob]. *)
Lemma scrapeOne_ok c listing w :
  campaignExists c w = true →
  ∃ k,
    scrapeOne c listing w
    = (Ok true,
       set_console
         (fun lines => lines ++ [logLine c k "scraper" "scraped and queued for enrichment"])
         (set_jobs (fun q => q ++ [enrichJob k])
            (set_events (fun es => es ++ [scrapedEvent c k listing])
               (set_leads (fun _ => storeListing c listing (leads w)) w))))
    ∧ existsb (hasId k) (storeListing c listing (leads w)) = true.
Proof.
  intros Hc. destruct (upsertLeadFromListing_ok c listing w Hc) as (lead & Hup & Hid).
  exists (id lead). split; [|exact Hid].
  unfold scrapeOne, try_catch.
  run_with ltac:(exact Hup).
  run_with ltac:(apply event_create_ok; unfold refsOk, leadExists, campaignExists in *;
                 cbn [campaigns leads set_leads]; rewrite Hid;
                 destruct (campaigns w !! c); [reflexivity|discriminate Hc]).
  reflexivity.
Qed.

Lemma scrapeLoop_ok c listings : ∀ successCount failureCount w,
  campaignExists c w = true →
  ∃ w' ids,
    scrapeLoop c listings successCount failureCount w
    = (Ok (successCount + Z.of_nat (length listings), failureCount), w')
    ∧ length ids = length listings
    ∧ leads w' = storeListings c listings (leads w)
    ∧ events w' = events w ++ zip_with (scrapedEvent c) ids listings
    ∧ jobs w' = jobs w ++ map enrichJob ids
    ∧ Forall (fun k => leadExists k w' = true) ids
    ∧ (∀ k, leadExists k w = true → leadExists k w' = true)
    ∧ campaigns w' = campaigns w
    ∧ idempotencyKeys w' = idempotencyKeys w
    ∧ outbox w' = outbox w
    ∧ imagePoolCache w' = imagePoolCache w.
Proof.
  induction listings as [|listing rest IH]; intros s f w Hc.
  - exists w, []. cbn. rewrite Z.add_0_r, !app_nil_r. repeat split; auto.
  - destruct (scrapeOne_ok c listing w Hc) as (k & Hone & Hk).
    cbn [scrapeLoop]. run_with ltac:(exact Hone).
    match goal with |- context [scrapeLoop c rest _ _ ?w1] => set (w1' := w1) end.
    destruct (IH (s + 1) f w1') as
      (w' & ids & Hloop & Hlen & Hleads & Hevents & Hjobs & Hids & Hkeep & Hcs & Hks & Hob & Hpool);
      [exact Hc|].
    exists w', (k :: ids). rewrite Hloop.
    replace (s + Z.of_nat (length (listing :: rest))) with (s + 1 + Z.of_nat (length rest))
      by (cbn [length]; lia).
    repeat split.
    + cbn. by rewrite Hlen.
    + exact Hleads.
    + rewrite Hevents. cbn. by rewrite <- app_assoc.
    + rewrite Hjobs. cbn. by rewrite <- app_assoc.
    + constructor; [|exact Hids]. apply Hkeep. exact Hk.
    + intros k' Hk'. apply Hkeep. unfold leadExists, w1'. cbn.
      unfold leadExists in Hk'. unfold storeListing.
      destruct (siteOf listing) as [u|].
      * destruct (find (onSite c u) (leads w)).
        -- by rewrite existsb_hasId_updateRows.
        -- rewrite existsb_app, Hk'. reflexivity.
      * rewrite existsb_app, Hk'. reflexivity.
    + exact Hcs.
    + exact Hks.
    + exact Hob.
    + exact Hpool.
Qed.

Lemma length_storeListings c listings : ∀ rows,
  (length rows <= length (storeListings c listings rows) <= length rows + length listings)%nat.
Proof.
  induction listings as [|listing rest IH]; intros rows; [cbn; lia|].
  cbn [storeListings fold_left length]. specialize (IH (storeListing c listing rows)).
  unfold storeListings in IH.
  assert (length rows <= length (storeListing c listing rows) <= length rows + 1)%nat; [|lia].
  unfold storeListing. destruct (siteOf listing) as [u|].
  - destruct (find (onSite c u) rows).
    + rewrite length_updateRows. lia.
    + rewrite length_app. cbn. lia.
  - rewrite length_app. cbn. lia.
Qed.

Lemma storeListing_keeps_site c c' listing u rows :
  existsb (onSite c' u) rows = true →
  existsb (onSite c' u) (storeListing c listing rows) = true.
Proof.
  intros H. unfold storeListing. destruct (siteOf listing) as [u'|].
  - destruct (find (onSite c u') rows).
    + by rewrite existsb_onSite_updateRows.
    + by rewrite existsb_app, H.
  - by rewrite existsb_app, H.
Qed.

Lemma storeListing_on_site c listing u rows :
  siteOf listing = Some u →
  existsb (onSite c u) (storeListing c listing rows) = true.
Proof.
  intros Hu. unfold storeListing. rewrite Hu.
  destruct (find (onSite c u) rows) as [existing|] eqn:Hfind.
  - rewrite existsb_onSite_updateRows. by apply find_existsb with existing.
  - rewrite existsb_app. cbn. unfold onSite at 2, listingCreate. cbn. rewrite Hu.
    rewrite !String.eqb_refl. cbn. by rewrite orb_true_r.
Qed.

Lemma storeListings_on_site c listings : ∀ rows listing u,
  In listing listings → siteOf listing = Some u →
  existsb (onSite c u) (storeListings c listings rows) = true.
Proof.
  induction listings as [|first rest IH]; intros rows listing u Hin Hu; [done|].
  cbn [storeListings fold_left]. destruct Hin as [->|Hin].
  - clear IH. assert (H := storeListing_on_site c listing u rows Hu).
    revert H. generalize (storeListing c listing rows). clear rows.
    induction rest as [|l rest IH]; intros rows H; [exact H|].
    cbn. apply IH. by apply storeListing_keeps_site.
  - by apply IH with listing.
Qed.

(** The Scrape job on an existing campaign whose listings provider answers. *)
Lemma processScrapeJob_ok P c campaign listings w :
  campaigns w !! c = Some campaign →
  listingsProvider P (c_niche campaign) (c_city campaign) (c_limit campaign) = Ok listings →
  ∃ w' ids,
    processScrapeJob P c w = (Ok tt, w')
    ∧ length ids = length listings
    ∧ leads w' = storeListings c listings (leads w)
    ∧ events w' = events w ++ zip_with (scrapedEvent c) ids listings
    ∧ jobs w' = jobs w ++ map enrichJob ids
    ∧ Forall (fun k => leadExists k w' = true) ids
    ∧ campaigns w' = <[c := running campaign]> (campaigns w)
    ∧ last (console w') = Some (batchCompleted c (Z.of_nat (length listings)) 0)
    ∧ outbox w' = outbox w
    ∧ idempotencyKeys w' = idempotencyKeys w.
Proof.
  intros Hcamp Hlist. unfold processScrapeJob.
  run_with ltac:(reflexivity).
  run_with ltac:(unfold campaign_findUnique, gets; cbn [campaigns set_console];
                 rewrite Hcamp; reflexivity).
  run_with ltac:(unfold liftR; rewrite Hlist; reflexivity).
  destruct (scrapeLoop_ok c listings 0 0
              (set_console
                 (fun lines => lines ++ [logLine c "-" "scraper" "starting scrape batch"]) w))
    as (w2 & ids & Hloop & Hlen & Hleads & Hevents & Hjobs & Hids & _ & Hcs & Hks & Hob & _).
  { unfold campaignExists. cbn. by rewrite Hcamp. }
  run_with ltac:(exact Hloop).
  run_with ltac:(unfold campaign_setStatus; rewrite Hcs; cbn [campaigns set_console];
                 rewrite Hcamp; reflexivity).
  eexists _, ids. split; [reflexivity|].
  cbn [leads events jobs campaigns console outbox idempotencyKeys set_console set_campaigns
       fst snd].
  rewrite Hleads, Hevents, Hjobs, Hcs, Hob, Hks. cbn [leads events jobs campaigns outbox
    idempotencyKeys set_console].
  repeat split; try done.
  by rewrite last_snoc.
Qed.

(** X10.  A scrape batch stores every listing.  For an existing campaign and
    a listings provider that answers, the Scrape job returns normally and no
    listing fails: the lead table is the old one with each listing stored in
    turn (the row on its site updated, or a new row appended), so it grows by
    at most one row per listing and holds a row on the site of every listing
    that has one; one LEAD_SCRAPED event and one Enrich job are appended per
    listing, in order, each naming a lead that exists; the campaign is set to
    RUNNING; the last log line reports all listings succeeded and none failed;
    provider log and idempotency store are untouched. *)
Theorem scrape_stores_every_listing
    (P : Providers) (c : string) (campaign : Campaign) (listings : list ListingRecord)
    (w : World) :
  campaigns w !! c = Some campaign →
  listingsProvider P (c_niche campaign) (c_city campaign) (c_limit campaign) = Ok listings →
  ∃ w' ids,
    processScrapeJob P c w = (Ok tt, w')
    ∧ length ids = length listings
    ∧ leads w' = storeListings c listings (leads w)
    ∧ (length (leads w) <= length (leads w') <= length (leads w) + length listings)%nat
    ∧ (∀ listing u, In listing listings → siteOf listing = Some u →
                    existsb (onSite c u) (leads w') = true)
    ∧ events w' = events w ++ zip_with (scrapedEvent c) ids listings
    ∧ jobs w' = jobs w ++ map enrichJob ids
    ∧ Forall (fun k => leadExists k w' = true) ids
    ∧ campaigns w' = <[c := running campaign]> (campaigns w)
    ∧ last (console w') = Some (batchCompleted c (Z.of_nat (length listings)) 0)
    ∧ outbox w' = outbox w
    ∧ idempotencyKeys w' = idempotencyKeys w.
Proof.
  intros Hcamp Hlist.
  destruct (processScrapeJob_ok P c campaign listings w Hcamp Hlist)
    as (w' & ids & Hrun & Hlen & Hleads & Hevents & Hjobs & Hids & Hcs & Hlog & Hob & Hks).
  exists w', ids. rewrite Hleads.
  split; [exact Hrun|]. split; [exact Hlen|]. split; [reflexivity|].
  split; [apply length_storeListings|].
  split; [intros listing u; apply storeListings_on_site|].
  done.
Qed.

Lemma scrape_stores_every_listing_witness :
  ∃ w' ids,
    processScrapeJob (withListings (fun niche city limit =>
                                      Ok (mockListingsProvider niche city limit)) fakeProviders)
      "C1" ledger = (Ok tt, w')
    ∧ length ids = 5%nat
    ∧ jobs w' = jobs ledger ++ map enrichJob ids.
Proof.
  destruct (scrape_stores_every_listing
              (withListings (fun niche city limit =>
                               Ok (mockListingsProvider niche city limit)) fakeProviders)
              "C1" dallas (mockListingsProvider (c_niche dallas) (c_city dallas)
                             (c_limit dallas)) ledger)
    as (w' & ids & Hrun & Hlen & _ & _ & _ & _ & Hjobs & _);
    [reflexivity | reflexivity |].
  exists w', ids. split; [exact Hrun|]. split; [exact Hlen|exact Hjobs].
Defined.

Lemma siteOf_truthy listing :
  truthy (li_websiteUrl listing) = true → ∃ u, siteOf listing = Some u.
Proof.
  unfold siteOf. destruct (li_websiteUrl listing) as [[|ch u]|]; try done. by eexists.
Qed.

Lemma siteOf_falsy listing : truthy (li_websiteUrl listing) = false → siteOf listing = None.
Proof. unfold siteOf. by destruct (li_websiteUrl listing) as [[|ch u]|]. Qed.

Lemma storeListings_known_sites c listings : ∀ rows,
  (∀ listing, In listing listings →
              ∃ u, siteOf listing = Some u ∧ existsb (onSite c u) rows = true) →
  map id (storeListings c listings rows) = map id rows.
Proof.
  induction listings as [|first rest IH]; intros rows Hknown; [done|].
  cbn [storeListings fold_left].
  destruct (Hknown first (or_introl eq_refl)) as (u & Hu & Hon).
  destruct (existsb_find _ _ Hon) as (existing & Hfind).
  assert (Hstep : storeListing c first rows = updateRows (id existing) (scrapeData first) rows).
  { unfold storeListing. by rewrite Hu, Hfind. }
  rewrite Hstep. unfold storeListings in IH. rewrite IH; [apply map_id_updateRows|].
  intros listing Hin. destruct (Hknown listing (or_intror Hin)) as (u' & Hu' & Hon').
  exists u'. split; [exact Hu'|]. by rewrite existsb_onSite_updateRows.
Qed.

Lemma storeListings_without_site c listings : ∀ rows,
  Forall (fun listing => truthy (li_websiteUrl listing) = false) listings →
  length (storeListings c listings rows) = (length rows + length listings)%nat.
Proof.
  induction listings as [|first rest IH]; intros rows Hall; [cbn; lia|].
  apply Forall_cons in Hall as [Hfirst Hall].
  cbn [storeListings fold_left]. unfold storeListings in IH. rewrite IH by exact Hall.
  unfold storeListing. rewrite (siteOf_falsy _ Hfirst). rewrite length_app. cbn. lia.
Qed.

(** X11.  Scraping the same listings again.  When the campaign exists and
    the listings provider gives the same answer, a second Scrape job after a
    first one adds no lead if every listing has a website: the table keeps the
    same rows under the same ids, in the same order.  Listings without a
    website are not recognised: each run appends one new lead per such
    listing, so two runs over [n] of them leave [2 * n] more rows. *)
Theorem rescrape_grows_only_without_website
    (P : Providers) (c : string) (campaign : Campaign) (listings : list ListingRecord)
    (w : World) :
  campaigns w !! c = Some campaign →
  listingsProvider P (c_niche campaign) (c_city campaign) (c_limit campaign) = Ok listings →
  let w1 := snd (processScrapeJob P c w) in
  let w2 := snd (processScrapeJob P c w1) in
  fst (processScrapeJob P c w1) = Ok tt
  ∧ (Forall (fun listing => truthy (li_websiteUrl listing) = true) listings →
     map id (leads w2) = map id (leads w1))
  ∧ (Forall (fun listing => truthy (li_websiteUrl listing) = false) listings →
     length (leads w2) = (length (leads w) + 2 * length listings)%nat).
Proof.
  intros Hcamp Hlist w1 w2.
  destruct (processScrapeJob_ok P c campaign listings w Hcamp Hlist)
    as (w1' & ids1 & Hrun1 & _ & Hleads1 & _ & _ & _ & Hcs1 & _).
  assert (Hw1 : w1 = w1') by (subst w1; by rewrite Hrun1).
  assert (Hcamp1 : campaigns w1 !! c = Some (running campaign)).
  { rewrite Hw1, Hcs1. apply lookup_insert_eq. }
  destruct (processScrapeJob_ok P c (running campaign) listings w1 Hcamp1 Hlist)
    as (w2' & ids2 & Hrun2 & _ & Hleads2 & _).
  assert (Hw2 : w2 = w2') by (subst w2; by rewrite Hrun2).
  split; [by rewrite Hrun2|]. rewrite Hw2, Hleads2, Hw1, Hleads1. split.
  - intros Hall. apply storeListings_known_sites. intros listing Hin.
    rewrite Forall_forall in Hall.
    destruct (siteOf_truthy listing (Hall _ (proj2 (list_elem_of_In _ _) Hin))) as (u & Hu).
    exists u. split; [exact Hu|]. by apply storeListings_on_site with listing.
  - intros Hall. rewrite !storeListings_without_site by exact Hall. lia.
Qed.

Lemma rescrape_grows_only_without_website_witness :
  fst (processScrapeJob
         (withListings (fun niche city limit => Ok (mockListingsProvider niche city limit))
            fakeProviders) "C1"
         (snd (processScrapeJob
                 (withListings (fun niche city limit =>
                                  Ok (mockListingsProvider niche city limit))
                    fakeProviders) "C1" ledger)))
  = Ok tt.
Proof.
  destruct (rescrape_grows_only_without_website
              (withListings (fun niche city limit =>
                               Ok (mockListingsProvider niche city limit)) fakeProviders)
              "C1" dallas (mockListingsProvider (c_niche dallas) (c_city dallas)
                             (c_limit dallas)) ledger)
    as (Hok & _); [reflexivity | reflexivity |].
  exact Hok.
Defined.

(** ** Listing providers *)

Lemma length_append (s t : string) :
  String.length (s +:+ t) = (String.length s + String.length t)%nat.
Proof. induction s as [|ch s IH]; [done|]. rewrite append_cons. cbn. by rewrite IH. Qed.

Lemma append_inj_r (t s1 s2 : string) : s1 +:+ t = s2 +:+ t → s1 = s2.
Proof.
  revert s2. induction s1 as [|ch s1 IH]; intros [|ch2 s2] H.
  - reflexivity.
  - apply (f_equal String.length) in H. rewrite append_nil_l, append_cons in H.
    cbn in H. rewrite length_append in H. lia.
  - apply (f_equal String.length) in H. rewrite append_nil_l, append_cons in H.
    cbn in H. rewrite length_append in H. lia.
  - rewrite !append_cons in H. injection H as -> H. f_equal. by apply IH.
Qed.

Lemma mockListing_site niche city n :
  siteOf (mockListing niche city n) = li_websiteUrl (mockListing niche city n).
Proof. reflexivity. Qed.

Lemma mockListing_site_inj niche city n m :
  li_websiteUrl (mockListing niche city n) = li_websiteUrl (mockListing niche city m) → n = m.
Proof.
  unfold mockListing. cbn [li_websiteUrl]. intros [= H].
  repeat apply (inj (String.app _)) in H.
  apply append_inj_r in H. by apply (inj pretty) in H.
Qed.

Lemma length_mockListingsProvider niche city limit :
  length (mockListingsProvider niche city limit) = Z.to_nat (Z.max 1 (Z.min limit 25)).
Proof. unfold mockListingsProvider. by rewrite length_map, length_seq. Qed.

Lemma NoDup_mock_sites niche city limit :
  NoDup (map siteOf (mockListingsProvider niche city limit)).
Proof.
  unfold mockListingsProvider. rewrite map_map.
  apply (NoDup_fmap_2_strong (fun n => siteOf (mockListing niche city n))); [|apply NoDup_seq].
  intros n m _ _ H. rewrite !mockListing_site in H. by apply mockListing_site_inj in H.
Qed.

(** X12.  The listing providers.  The mock provider always returns between 1
    and 25 listings, exactly [limit] of them when [limit] is in that range;
    their website URLs are pairwise distinct and every listing has a website,
    a phone and an email.  The DuckDuckGo provider passes a failure of the
    search on, returns what the search found when that is not empty, and
    otherwise falls back to the mock listings for the same request: when it
    returns, it never returns an empty list. *)
Theorem listing_providers_never_come_back_empty
    (search : string → string → Z → Result (list ListingRecord))
    (niche city : string) (limit : Z) :
  let mock := mockListingsProvider niche city limit in
  let capped := Z.max 1 (Z.min limit 100) in
  (1 <= length mock <= 25)%nat
  ∧ (1 <= limit <= 25 → Z.of_nat (length mock) = limit)
  ∧ NoDup (map li_websiteUrl mock)
  ∧ Forall (fun listing => truthy (li_websiteUrl listing) = true
                           ∧ truthy (li_phone listing) = true
                           ∧ truthy (li_email listing) = true) mock
  ∧ (∀ e, search niche city capped = Throw e →
          duckDuckGoListingsProvider search niche city limit = Throw e)
  ∧ (∀ found, search niche city capped = Ok found → found ≠ [] →
              duckDuckGoListingsProvider search niche city limit = Ok found)
  ∧ (search niche city capped = Ok [] →
     duckDuckGoListingsProvider search niche city limit = Ok mock)
  ∧ (∀ listings, duckDuckGoListingsProvider search niche city limit = Ok listings →
                 listings ≠ []).
Proof.
  intros mock capped.
  assert (Hlen : length mock = Z.to_nat (Z.max 1 (Z.min limit 25)))
    by apply length_mockListingsProvider.
  assert (Hfallback : mockListingsProvider niche city capped = mock).
  { unfold mock, capped, mockListingsProvider. do 2 f_equal. lia. }
  assert (Hmock : mock ≠ []).
  { intros Hnil. rewrite Hnil in Hlen. cbn in Hlen. lia. }
  split; [lia|]. split; [lia|]. split; [|split].
  - assert (H := NoDup_mock_sites niche city limit). fold mock in H.
    replace (map li_websiteUrl mock) with (map siteOf mock); [exact H|].
    apply map_ext_in. intros listing Hin. unfold mock, mockListingsProvider in Hin.
    apply in_map_iff in Hin as (n & <- & _). reflexivity.
  - apply Forall_forall. intros listing Hin. unfold mock, mockListingsProvider in Hin.
    apply list_elem_of_In, in_map_iff in Hin as (n & <- & _). done.
  - unfold duckDuckGoListingsProvider. fold capped. rewrite Hfallback.
    repeat split.
    + intros e He. by rewrite He.
    + intros found Hfound Hne. rewrite Hfound. by destruct found.
    + intros Hfound. by rewrite Hfound.
    + intros listings. destruct (search niche city capped) as [found|e]; [|done].
      destruct found as [|first rest]; cbn -[mock]; intros [= <-]; done.
Qed.

Lemma listing_providers_never_come_back_empty_witness :
  duckDuckGoListingsProvider (fun _ _ _ => Ok []) "roofers" "Dallas" 500
  = Ok (mockListingsProvider "roofers" "Dallas" 500)
  ∧ length (mockListingsProvider "roofers" "Dallas" 500) = 25%nat.
Proof.
  destruct (listing_providers_never_come_back_empty (fun _ _ _ => Ok []) "roofers" "Dallas" 500)
    as (_ & _ & _ & _ & _ & _ & Hfallback & _).
  split; [apply Hfallback; reflexivity | reflexivity].
Defined.

Lemma existsb_false_find {A} (f : A → bool) rows : existsb f rows = false → find f rows = None.
Proof.
  intros H. destruct (find f rows) as [x|] eqn:Hfind; [|done].
  apply find_existsb in Hfind. congruence.
Qed.

Lemma storeListings_new_sites c listings : ∀ rows,
  NoDup (map siteOf listings) →
  (∀ listing, In listing listings →
              ∃ u, siteOf listing = Some u ∧ existsb (onSite c u) rows = false) →
  length (storeListings c listings rows) = (length rows + length listings)%nat.
Proof.
  induction listings as [|first rest IH]; intros rows Hnd Hnew; [cbn; lia|].
  cbn [map] in Hnd. apply NoDup_cons in Hnd as [Hfirst Hnd].
  destruct (Hnew first (or_introl eq_refl)) as (u & Hu & Hoff).
  cbn [storeListings fold_left].
  assert (Hstep : storeListing c first rows
                  = rows ++ [newLead (newLeadId rows) (listingCreate c first)]).
  { unfold storeListing. by rewrite Hu, (existsb_false_find _ _ Hoff). }
  rewrite Hstep. unfold storeListings in IH. rewrite IH.
  - rewrite length_app. cbn. lia.
  - exact Hnd.
  - intros listing Hin. destruct (Hnew listing (or_intror Hin)) as (u' & Hu' & Hoff').
    exists u'. split; [exact Hu'|]. rewrite existsb_app, Hoff'. cbn.
    unfold onSite, listingCreate. cbn. rewrite Hu.
    destruct (String.eqb u u') eqn:Heq; [|by rewrite andb_false_r].
    apply String.eqb_eq in Heq as ->. exfalso. apply Hfirst.
    rewrite Hu, <- Hu'. apply list_elem_of_In, in_map. exact Hin.
Qed.

(** The first scrape of a campaign with the mock listings. *)
Lemma mock_scrape_counts (P : Providers) (c : string) (campaign : Campaign) (w : World) :
  campaigns w !! c = Some campaign →
  (∀ lead, In lead (leads w) → campaignId lead ≠ c) →
  listingsProvider P (c_niche campaign) (c_city campaign) (c_limit campaign)
  = Ok (mockListingsProvider (c_niche campaign) (c_city campaign) (c_limit campaign)) →
  let total := Z.to_nat (Z.max 1 (Z.min (c_limit campaign) 25)) in
  let w' := snd (processScrapeJob P c w) in
  fst (processScrapeJob P c w) = Ok tt
  ∧ length (leads w') = (length (leads w) + total)%nat
  ∧ length (events w') = (length (events w) + total)%nat
  ∧ length (jobs w') = (length (jobs w) + total)%nat.
Proof.
  intros Hcamp Hnone Hlist total w'.
  destruct (processScrapeJob_ok P c campaign _ w Hcamp Hlist)
    as (w1 & ids & Hrun & Hlen & Hleads & Hevents & Hjobs & _).
  subst w'. rewrite Hrun. cbn [fst snd]. rewrite Hleads, Hevents, Hjobs.
  rewrite length_mockListingsProvider in Hlen. fold total in Hlen.
  split; [reflexivity|]. split; [|split].
  - rewrite storeListings_new_sites.
    + by rewrite length_mockListingsProvider.
    + apply NoDup_mock_sites.
    + intros listing Hin. unfold mockListingsProvider in Hin.
      apply in_map_iff in Hin as (n & <- & _). eexists. split; [reflexivity|].
      apply not_true_is_false. intros Hon. apply existsb_exists in Hon as (lead & Hin & Hon).
      apply onSite_spec in Hon as [Hc _]. by apply (Hnone lead Hin).
  - rewrite length_app, length_zip_with.
    rewrite length_mockListingsProvider. fold total. lia.
  - rewrite length_app, length_map. lia.
Qed.


(** X13.  First scrape of a campaign with the mock provider.  When no lead
    of the table belongs to the campaign yet, one Scrape job with the mock
    listings creates exactly [max(1, min(limit, 25))] leads, with as many
    LEAD_SCRAPED events and Enrich jobs: a campaign created with limit 0 or a
    negative one still gets one lead, and one with limit 1000 gets 25. *)
Theorem mock_scrape_of_a_new_campaign
    (P : Providers) (c : string) (campaign : Campaign) (w : World) :
  campaigns w !! c = Some campaign →
  (∀ lead, In lead (leads w) → campaignId lead ≠ c) →
  listingsProvider P (c_niche campaign) (c_city campaign) (c_limit campaign)
  = Ok (mockListingsProvider (c_niche campaign) (c_city campaign) (c_limit campaign)) →
  let total := Z.to_nat (Z.max 1 (Z.min (c_limit campaign) 25)) in
  let w' := snd (processScrapeJob P c w) in
  fst (processScrapeJob P c w) = Ok tt
  ∧ length (leads w') = (length (leads w) + total)%nat
  ∧ length (events w') = (length (events w) + total)%nat
  ∧ length (jobs w') = (length (jobs w) + total)%nat.
Proof.
  intros Hcamp Hnone Hlist total w'.
  destruct (mock_scrape_counts P c campaign w Hcamp Hnone Hlist)
    as (Hok & Hleads & Hevents & Hjobs).
  split; [exact Hok|]. split; [exact Hleads|]. split; [exact Hevents|exact Hjobs].
Qed.

Lemma mock_scrape_of_a_new_campaign_witness :
  length (leads (snd (processScrapeJob
                        (withListings (fun niche city limit =>
                                         Ok (mockListingsProvider niche city limit))
                           fakeProviders) "C2"
                        (set_campaigns (insert "C2" (mkCampaign "plumbers" "Fort Worth" 1000
                                                       CREATED)) ledger))))
  = 26%nat.
Proof.
  destruct (mock_scrape_of_a_new_campaign
              (withListings (fun niche city limit =>
                               Ok (mockListingsProvider niche city limit)) fakeProviders)
              "C2" (mkCampaign "plumbers" "Fort Worth" 1000 CREATED)
              (set_campaigns (insert "C2" (mkCampaign "plumbers" "Fort Worth" 1000 CREATED))
                 ledger))
    as (_ & Hleads & _).
  - reflexivity.
  - intros lead [<-|[]]. discriminate.
  - reflexivity.
  - exact Hleads.
Defined.

(** ** Image pools *)

Lemma mapM_liftR_ok {A B} (f : A → Result B) (g : A → B) xs w :
  (∀ x, f x = Ok (g x)) →
  mapM (fun x => liftR (f x)) xs w = (Ok (map g xs), w).
Proof.
  intros Hf. induction xs as [|x xs IH]; [done|].
  cbn [mapM map]. run_with ltac:(unfold liftR; rewrite Hf; reflexivity).
  run_with ltac:(exact IH). reflexivity.
Qed.

Lemma getOrCreateImagePool_hit P niche style pool w :
  imagePoolCache w !! poolKey P niche style = Some pool →
  getOrCreateImagePool P niche style w = (Ok pool, w).
Proof.
  intros Hhit. unfold getOrCreateImagePool.
  run_with ltac:(unfold gets; rewrite Hhit; reflexivity). reflexivity.
Qed.

Lemma getOrCreateImagePool_miss P gen niche style w :
  imagePoolCache w !! poolKey P niche style = None →
  (∀ prompt ratio, generateImage P prompt ratio = Ok (gen prompt ratio)) →
  getOrCreateImagePool P niche style w
  = (Ok (builtPool gen niche style),
     set_imagePoolCache (insert (poolKey P niche style) (builtPool gen niche style)) w).
Proof.
  intros Hmiss Hgen. unfold getOrCreateImagePool.
  run_with ltac:(unfold gets; rewrite Hmiss; reflexivity).
  run_with ltac:(apply (mapM_liftR_ok _ (fun idx => gen (heroPrompt niche style idx) "16:9"));
                 intros idx; apply Hgen).
  run_with ltac:(apply (mapM_liftR_ok _ (fun idx => gen (servicePrompt niche style idx) "4:3"));
                 intros idx; apply Hgen).
  reflexivity.
Qed.

Lemma getOrCreateImagePool_throw P niche style w e w' :
  getOrCreateImagePool P niche style w = (Throw e, w') → w' = w.
Proof.
  unfold getOrCreateImagePool, bind at 1, gets. cbv beta iota.
  destruct (imagePoolCache w !! poolKey P niche style); [by intros [= _ <-]|].
  unfold bind at 1.
  match goal with
  | |- context [mapM ?f ?xs w] =>
      pose proof (mapM_liftR_frame _ xs w : snd (mapM f xs w) = w) as Hhero;
      destruct (mapM f xs w) as [[heroes|e1] w2]
  end; cbn in Hhero; subst w2; [|by intros [= _ <-]].
  unfold bind at 1.
  match goal with
  | |- context [mapM ?f ?xs w] =>
      pose proof (mapM_liftR_frame _ xs w : snd (mapM f xs w) = w) as Hservice;
      destruct (mapM f xs w) as [[services|e2] w2]
  end; cbn in Hservice; subst w2; [|by intros [= _ <-]].
  cbn. discriminate.
Qed.

(** X14.  The image pool of a niche and style is built once.  A pool found
    in the cache under [poolKey P niche style] is returned as it is and
    nothing changes.  On a miss with a provider that answers, the pool has
    exactly 50 hero and 100 service images, one per prompt in index order,
    and is cached under that key: the next request whose niche and style give
    the same key, whatever its image provider, is a hit that returns this
    pool and changes nothing.  On a miss with a provider that throws for some
    image, nothing is cached: the world is as before. *)
Theorem image_pool_is_built_once
    (P : Providers) (gen : string → string → string) (niche style : string) (w : World) :
  let key := poolKey P niche style in
  (∀ pool, imagePoolCache w !! key = Some pool →
           getOrCreateImagePool P niche style w = (Ok pool, w))
  ∧ (imagePoolCache w !! key = None →
     (∀ prompt ratio, generateImage P prompt ratio = Ok (gen prompt ratio)) →
     let pool := builtPool gen niche style in
     let w' := set_imagePoolCache (insert key pool) w in
     getOrCreateImagePool P niche style w = (Ok pool, w')
     ∧ length (heroImages pool) = 50%nat
     ∧ length (serviceImages pool) = 100%nat
     ∧ ∀ P' niche' style',
         poolKey P' niche' style' = key →
         getOrCreateImagePool P' niche' style' w' = (Ok pool, w'))
  ∧ (∀ e w', getOrCreateImagePool P niche style w = (Throw e, w') → w' = w).
Proof.
  intros key. split; [|split].
  - intros pool. apply getOrCreateImagePool_hit.
  - intros Hmiss Hgen pool w'. split; [by apply getOrCreateImagePool_miss|].
    split; [reflexivity|]. split; [reflexivity|].
    intros P' niche' style' Hkey. apply getOrCreateImagePool_hit. rewrite Hkey. unfold w'.
    cbn [imagePoolCache set_imagePoolCache]. apply lookup_insert_eq.
  - intros e w'. apply getOrCreateImagePool_throw.
Qed.

Lemma image_pool_is_built_once_witness :
  let pool := builtPool (fun prompt ratio => "https://picsum.photos/seed/" +:+ prompt)
                "Roofers" defaultStyle in
  let cached := set_imagePoolCache (insert "roofers::clean-local" pool) ledger in
  getOrCreateImagePool fakeProviders "Roofers" defaultStyle ledger = (Ok pool, cached)
  ∧ getOrCreateImagePool pdfProviders " roofers" "Clean-Local " cached = (Ok pool, cached).
Proof.
  intros pool cached.
  destruct (image_pool_is_built_once fakeProviders
              (fun prompt ratio => "https://picsum.photos/seed/" +:+ prompt)
              "Roofers" defaultStyle ledger) as (_ & Hmiss & _).
  destruct Hmiss as (Hbuilt & _ & _ & Hnext); [reflexivity | reflexivity |].
  split; [exact Hbuilt|].
  apply (Hnext pdfProviders " roofers" "Clean-Local "). reflexivity.
Defined.

Lemma hashString_range value : 0 <= hashString value < 2 ^ 32.
Proof.
  unfold hashString. generalize (utf16Units value). intros units.
  assert (H : ∀ h, 0 <= h < 2 ^ 32 →
              0 <= fold_left (fun hash unit => (hash * 31 + unit) mod 2 ^ 32) units h
              < 2 ^ 32).
  { induction units as [|u units IH]; intros h Hh; [exact Hh|].
    cbn [fold_left]. apply IH. apply Z.mod_pos_bound. lia. }
  apply H. lia.
Qed.

Lemma lookup_mod {A} (xs : list A) (n : Z) :
  xs ≠ [] → ∃ x, xs !! Z.to_nat (n mod Z.of_nat (length xs)) = Some x ∧ In x xs.
Proof.
  intros Hne.
  assert (Hlen : 0 < Z.of_nat (length xs)) by (destruct xs; [done|cbn [length]; lia]).
  pose proof (Z.mod_pos_bound n _ Hlen).
  destruct (lookup_lt_is_Some_2 xs (Z.to_nat (n mod Z.of_nat (length xs)))) as [x Hx]; [lia|].
  exists x. split; [exact Hx|]. apply list_elem_of_In. by apply list_elem_of_lookup_2 in Hx.
Qed.

Lemma mod_shift_distinct (s n a b : Z) :
  26 < n → 0 <= a < b → b <= 26 → (s + a) mod n ≠ (s + b) mod n.
Proof.
  intros Hn Hab Hb Heq.
  pose proof (Z.div_mod (s + a) n ltac:(lia)) as Ha.
  pose proof (Z.div_mod (s + b) n ltac:(lia)) as Hb'.
  rewrite Heq in Ha.
  set (k := (s + b) / n - (s + a) / n).
  assert (Hk : b - a = n * k) by (unfold k; lia).
  destruct (Z_le_gt_dec k 0) as [Hle|Hgt].
  - assert (n * k <= 0) by (apply Z.mul_nonneg_nonpos; lia). lia.
  - assert (n * 1 <= n * k) by (apply Z.mul_le_mono_nonneg_l; lia). lia.
Qed.

(** X15.  Image picks stay inside the pool.  [hashString] is an unsigned
    32-bit number.  From a pool with hero images the lead gets one of them;
    from a pool with service images it gets exactly three, each from the
    pool, and three different ones when the pool holds more than 26 images
    without repetition (the offsets are 0, 13 and 26 past the seed).  From an
    empty hero pool it gets no hero image. *)
Theorem picked_images_come_from_the_pool (leadId : string) (pool : ImagePool) :
  0 <= hashString leadId < 2 ^ 32
  ∧ (heroImages pool ≠ [] →
     ∃ hero, fst (pickLeadImages leadId pool) = Some hero ∧ In hero (heroImages pool))
  ∧ (heroImages pool = [] → fst (pickLeadImages leadId pool) = None)
  ∧ (serviceImages pool ≠ [] →
     ∃ urls, allDefined (snd (pickLeadImages leadId pool)) = Some urls
             ∧ length urls = 3%nat
             ∧ (∀ u, In u urls → In u (serviceImages pool))
             ∧ ((26 < length (serviceImages pool))%nat → NoDup (serviceImages pool) →
                NoDup urls)).
Proof.
  split; [apply hashString_range|]. split; [|split].
  - intros Hne. unfold pickLeadImages. cbn [fst]. by apply lookup_mod.
  - intros Hnil. unfold pickLeadImages. cbn [fst]. by rewrite Hnil.
  - intros Hne. unfold pickLeadImages. cbn [snd serviceImagesPerLead seq map].
    set (seed := hashString leadId). set (n := Z.of_nat (length (serviceImages pool))).
    destruct (lookup_mod (serviceImages pool) (seed + Z.of_nat 0 * 13) Hne) as (u0 & H0 & Hin0).
    destruct (lookup_mod (serviceImages pool) (seed + Z.of_nat 1 * 13) Hne) as (u1 & H1 & Hin1).
    destruct (lookup_mod (serviceImages pool) (seed + Z.of_nat 2 * 13) Hne) as (u2 & H2 & Hin2).
    fold n in H0, H1, H2. rewrite H0, H1, H2. cbn [allDefined].
    exists [u0; u1; u2]. split; [reflexivity|]. split; [reflexivity|]. split.
    + intros u [<-|[<-|[<-|[]]]]; assumption.
    + intros Hlen Hnd.
      assert (Hn : 26 < n) by (unfold n; lia).
      assert (Hpos : ∀ m, 0 <= m mod n < n) by (intros m; apply Z.mod_pos_bound; lia).
      assert (Hdiff : ∀ a b x y,
                 0 <= a < b → b <= 26 →
                 serviceImages pool !! Z.to_nat ((seed + a) mod n) = Some x →
                 serviceImages pool !! Z.to_nat ((seed + b) mod n) = Some y → x ≠ y).
      { intros a b x y Hab Hb Hx Hy ->.
        pose proof (NoDup_lookup _ _ _ _ Hnd Hx Hy) as Heq.
        apply (mod_shift_distinct seed n a b Hn Hab Hb).
        pose proof (Hpos (seed + a)). pose proof (Hpos (seed + b)). lia. }
      assert (H01 : u0 ≠ u1) by (apply (Hdiff (Z.of_nat 0 * 13) (Z.of_nat 1 * 13)); try done; lia).
      assert (H02 : u0 ≠ u2) by (apply (Hdiff (Z.of_nat 0 * 13) (Z.of_nat 2 * 13)); try done; lia).
      assert (H12 : u1 ≠ u2) by (apply (Hdiff (Z.of_nat 1 * 13) (Z.of_nat 2 * 13)); try done; lia).
      constructor; [rewrite list_elem_of_In; cbn; intros [?|[?|[]]]; congruence|].
      constructor; [rewrite list_elem_of_In; cbn; intros [?|[]]; congruence|].
      constructor; [rewrite list_elem_of_In; cbn; tauto|constructor].
Qed.

Lemma picked_images_come_from_the_pool_witness :
  ∃ hero,
    fst (pickLeadImages "L1"
           (builtPool (fun prompt ratio => "https://picsum.photos/seed/" +:+ prompt)
              "roofers" defaultStyle)) = Some hero
    ∧ In hero (heroImages
                 (builtPool (fun prompt ratio => "https://picsum.photos/seed/" +:+ prompt)
                    "roofers" defaultStyle)).
Proof.
  destruct (picked_images_come_from_the_pool "L1"
              (builtPool (fun prompt ratio => "https://picsum.photos/seed/" +:+ prompt)
                 "roofers" defaultStyle)) as (_ & Hhero & _).
  apply Hhero. discriminate.
Defined.

(** ** Site-Generate, Image-Assign and Deploy *)

Lemma processSiteJob_ok P lead campaign output w :
  find (hasId (id lead)) (leads w) = Some lead →
  campaigns w !! campaignId lead = Some campaign →
  generateSite P (siteInput lead campaign w) = Ok output →
  processSiteJob P (id lead) w = (Ok tt, afterSite lead output w).
Proof.
  intros Hfind Hcamp Hgen. unfold processSiteJob.
  run_with ltac:(unfold lead_findUnique_withCampaign, gets; rewrite Hfind, Hcamp;
                 reflexivity).
  run_with ltac:(unfold event_findLatest, gets; reflexivity).
  unfold siteInput in Hgen.
  run_with ltac:(unfold liftR; rewrite Hgen; reflexivity).
  run_with ltac:(by apply lead_update_found).
  run_with ltac:(apply event_create_ok;
                 apply refsOk_lead with (applyData siteData lead);
                 [ by apply campaignExists_lookup with campaign
                 | cbn [leads set_leads]; by rewrite find_updateRows, Hfind ]).
  run_with ltac:(reflexivity).
  reflexivity.
Qed.

Lemma processSiteJob_fails P lead campaign e w :
  find (hasId (id lead)) (leads w) = Some lead →
  campaigns w !! campaignId lead = Some campaign →
  generateSite P (siteInput lead campaign w) = Throw e →
  processSiteJob P (id lead) w = (Throw e, w).
Proof.
  intros Hfind Hcamp Hgen. unfold processSiteJob.
  run_with ltac:(unfold lead_findUnique_withCampaign, gets; rewrite Hfind, Hcamp;
                 reflexivity).
  run_with ltac:(unfold event_findLatest, gets; reflexivity).
  unfold siteInput in Hgen.
  erewrite bind_throw by (unfold liftR; rewrite Hgen; reflexivity). reflexivity.
Qed.

Lemma processImageJob_ok P lead campaign pool hero urls w1 w :
  find (hasId (id lead)) (leads w) = Some lead →
  campaigns w !! campaignId lead = Some campaign →
  getOrCreateImagePool P (c_niche campaign) defaultStyle w = (Ok pool, w1) →
  fst (pickLeadImages (id lead) pool) = Some hero →
  allDefined (snd (pickLeadImages (id lead) pool)) = Some urls →
  processImageJob P (id lead) w = (Ok tt, afterImages lead hero urls w1).
Proof.
  intros Hfind Hcamp Hpool Hhero Hurls.
  destruct (getOrCreateImagePool_frame P (c_niche campaign) defaultStyle w _ _ Hpool)
    as [Hleads Hcampaigns].
  unfold processImageJob.
  run_with ltac:(unfold lead_findUnique_withCampaign, gets; rewrite Hfind, Hcamp;
                 reflexivity).
  run_with ltac:(exact Hpool).
  rewrite Hurls, Hhero. cbn [app].
  run_with ltac:(apply lead_update_found; by rewrite Hleads).
  run_with ltac:(apply event_create_ok;
                 apply refsOk_lead with (applyData (imageData hero urls) lead);
                 [ apply campaignExists_lookup with campaign;
                   cbn [campaigns set_leads]; by rewrite Hcampaigns
                 | cbn [leads set_leads]; by rewrite find_updateRows, Hleads, Hfind ]).
  run_with ltac:(reflexivity).
  reflexivity.
Qed.

Lemma processImageJob_fails P lead campaign e w1 w :
  find (hasId (id lead)) (leads w) = Some lead →
  campaigns w !! campaignId lead = Some campaign →
  getOrCreateImagePool P (c_niche campaign) defaultStyle w = (Throw e, w1) →
  processImageJob P (id lead) w = (Throw e, w).
Proof.
  intros Hfind Hcamp Hpool.
  assert (w1 = w) as -> by (by apply getOrCreateImagePool_throw in Hpool).
  unfold processImageJob.
  run_with ltac:(unfold lead_findUnique_withCampaign, gets; rewrite Hfind, Hcamp;
                 reflexivity).
  erewrite bind_throw by exact Hpool. reflexivity.
Qed.

Lemma processDeployJob_ok P lead zip injected url w :
  find (hasId (id lead)) (leads w) = Some lead →
  campaignExists (campaignId lead) w = true →
  status lead = IMAGES_READY →
  latestBundle lead w = Some zip →
  injectImageUrls P zip (heroImageUrl lead) (serviceImageUrls lead) = Ok injected →
  deploy P injected (id lead) = Ok url →
  processDeployJob P (id lead) w = (Ok tt, afterDeploy lead url w).
Proof.
  intros Hfind Hcamp Hstatus Hzip Hinject Hdeploy. unfold processDeployJob.
  run_with ltac:(unfold lead_findUnique, gets; rewrite Hfind; reflexivity).
  rewrite bool_decide_eq_true_2 by exact Hstatus. cbn [negb].
  run_with ltac:(unfold event_findLatest, gets; reflexivity).
  unfold latestBundle in Hzip. rewrite Hzip.
  run_with ltac:(unfold liftR; rewrite Hinject; reflexivity).
  run_with ltac:(unfold liftR; rewrite Hdeploy; reflexivity).
  run_with ltac:(by apply lead_update_found).
  run_with ltac:(apply event_create_ok;
                 apply refsOk_lead with (applyData (deployData url) lead);
                 [ exact Hcamp
                 | cbn [leads set_leads]; by rewrite find_updateRows, Hfind ]).
  run_with ltac:(reflexivity).
  reflexivity.
Qed.

(** X16.  A failing collaborator leaves the ledger untouched.  When the
    site builder throws, Site-Generate rethrows its error; when the image
    provider throws while the pool is built, Image-Assign rethrows it; when
    Deploy finds no bundle (no SITE_GENERATED event with a non-empty
    [zipPath]) it throws [No generated site bundle found], and when the
    image injection or the deploy provider throws it rethrows.  In every one
    of these cases the world after the job is exactly the world before it: no
    status change, no event, no follow-up job, no cached pool. *)
Theorem failed_stage_writes_nothing
    (P : Providers) (lead : Lead) (campaign : Campaign) (w : World) :
  find (hasId (id lead)) (leads w) = Some lead →
  campaigns w !! campaignId lead = Some campaign →
  (∀ e, generateSite P (siteInput lead campaign w) = Throw e →
        processSiteJob P (id lead) w = (Throw e, w))
  ∧ (∀ e w1, getOrCreateImagePool P (c_niche campaign) defaultStyle w = (Throw e, w1) →
             processImageJob P (id lead) w = (Throw e, w))
  ∧ (status lead = IMAGES_READY →
     (latestBundle lead w = None →
      processDeployJob P (id lead) w
      = (Throw ("No generated site bundle found for lead " +:+ id lead), w))
     ∧ (∀ zip e,
           latestBundle lead w = Some zip →
           injectImageUrls P zip (heroImageUrl lead) (serviceImageUrls lead) = Throw e →
           processDeployJob P (id lead) w = (Throw e, w))
     ∧ (∀ zip injected e,
           latestBundle lead w = Some zip →
           injectImageUrls P zip (heroImageUrl lead) (serviceImageUrls lead) = Ok injected →
           deploy P injected (id lead) = Throw e →
           processDeployJob P (id lead) w = (Throw e, w))).
Proof.
  intros Hfind Hcamp. split; [|split].
  - intros e. by apply processSiteJob_fails.
  - intros e w1. by apply processImageJob_fails.
  - intros Hstatus.
    assert (Hstart :
               processDeployJob P (id lead) w
               = bind (event_findLatest (campaignId lead) (id lead) EV_SITE_GENERATED)
                   (fun siteGeneratedEvent =>
                      match bundleOf siteGeneratedEvent with
                      | None => throw ("No generated site bundle found for lead " +:+ id lead)
                      | Some zipPath =>
                          injectedZipPath <-
                            liftR (injectImageUrls P zipPath (heroImageUrl lead)
                                     (serviceImageUrls lead)) ;;
                          url <- liftR (deploy P injectedZipPath (id lead)) ;;
                          lead_update (id lead)
                            [SetDemoUrl (Some url); SetStatus DEPLOYED; SetLastError None] ;;
                          event_create (campaignId lead) (Some (id lead)) EV_DEPLOYED
                            (JObj [("url", JStr url)]) ;;
                          enqueueEmail (id lead) One ;;
                          logMessage "deployer" (campaignId lead) (id lead)
                            ("deployed to " +:+ url +:+ " and queued email step 1")
                      end) w).
    { unfold processDeployJob.
      run_with ltac:(unfold lead_findUnique, gets; rewrite Hfind; reflexivity).
      rewrite bool_decide_eq_true_2 by exact Hstatus. reflexivity. }
    rewrite Hstart. clear Hstart.
    unfold latestBundle. split; [|split].
    + intros Hnone.
      run_with ltac:(unfold event_findLatest, gets; reflexivity).
      by rewrite Hnone.
    + intros zip e Hzip Hinject.
      run_with ltac:(unfold event_findLatest, gets; reflexivity).
      rewrite Hzip.
      erewrite bind_throw by (unfold liftR; rewrite Hinject; reflexivity). reflexivity.
    + intros zip injected e Hzip Hinject Hdeploy.
      run_with ltac:(unfold event_findLatest, gets; reflexivity).
      rewrite Hzip.
      run_with ltac:(unfold liftR; rewrite Hinject; reflexivity).
      erewrite bind_throw by (unfold liftR; rewrite Hdeploy; reflexivity). reflexivity.
Qed.

Lemma failed_stage_writes_nothing_witness :
  processDeployJob fakeProviders "L1" (ledgerOf acmeImagesReady)
  = (Throw "No generated site bundle found for lead L1", ledgerOf acmeImagesReady).
Proof.
  destruct (failed_stage_writes_nothing fakeProviders acmeImagesReady dallas
              (ledgerOf acmeImagesReady)) as (_ & _ & Hdeploy); [reflexivity | reflexivity |].
  destruct Hdeploy as (Hnone & _); [reflexivity|].
  apply Hnone. reflexivity.
Defined.

Lemma getOrCreateImagePool_total P gen niche style w :
  (∀ prompt ratio, generateImage P prompt ratio = Ok (gen prompt ratio)) →
  getOrCreateImagePool P niche style w
  = (Ok (poolFor P gen niche style w),
     set_imagePoolCache (insert (poolKey P niche style) (poolFor P gen niche style w)) w).
Proof.
  intros Hgen. unfold poolFor.
  destruct (imagePoolCache w !! poolKey P niche style) as [pool|] eqn:Hcache;
    cbn [from_option Datatypes.id].
  - rewrite (getOrCreateImagePool_hit P niche style pool w Hcache). f_equal.
    destruct w as [ls cs es ks js ob cache lines]. unfold set_imagePoolCache. cbn in *.
    f_equal. symmetry. by apply insert_id.
  - by apply getOrCreateImagePool_miss.
Qed.

Lemma eventMatches_own c k t metadata :
  eventMatches c k t (mkEvent c (Some k) t metadata) = true.
Proof.
  unfold eventMatches. cbn. rewrite !String.eqb_refl. cbn. by apply bool_decide_eq_true_2.
Qed.

(** X17.  Site-Generate, Image-Assign and Deploy fit together.  For an
    existing lead in any status, with a site builder that returns a bundle
    path, an image provider, an injection step and a deploy provider that
    answer, and a usable image pool, the three jobs delivered in this order
    all go through: Deploy finds the lead IMAGES_READY and finds the bundle
    the site builder has just returned, and deploys it with the images
    Image-Assign picked.  The lead ends DEPLOYED with [demoUrl] the deployed
    url, one hero and three service images; the events SITE_GENERATED,
    IMAGES_READY and DEPLOYED are appended in this order, and the jobs queued
    are the Image-Assign, the Deploy and the Email step 1 job of that lead. *)
Theorem site_image_deploy_pipeline
    (P : Providers) (zodDetails : Json → Json)
    (gen : string → string → string)
    (inject : string → option string → list string → string)
    (dep : string → string → string)
    (lead : Lead) (campaign : Campaign) (output : GenerateSiteOutput) (w : World) :
  find (hasId (id lead)) (leads w) = Some lead →
  campaigns w !! campaignId lead = Some campaign →
  generateSite P (siteInput lead campaign w) = Ok output →
  zipPath output ≠ "" →
  (∀ prompt ratio, generateImage P prompt ratio = Ok (gen prompt ratio)) →
  (∀ zip hero services, injectImageUrls P zip hero services = Ok (inject zip hero services)) →
  (∀ zip project, deploy P zip project = Ok (dep zip project)) →
  let pool := poolFor P gen (c_niche campaign) defaultStyle w in
  heroImages pool ≠ [] →
  serviceImages pool ≠ [] →
  ∃ hero urls final,
    let url := dep (inject (zipPath output) (Some hero) urls) (id lead) in
    let w' := deliverAll P zodDetails (buildAndDeploy (id lead)) w in
    fst (pickLeadImages (id lead) pool) = Some hero
    ∧ allDefined (snd (pickLeadImages (id lead) pool)) = Some urls
    ∧ find (hasId (id lead)) (leads w') = Some final
    ∧ final = applyData (siteData ++ imageData hero urls ++ deployData url) lead
    ∧ status final = DEPLOYED
    ∧ demoUrl final = Some url
    ∧ events w' = events w ++ [siteEvent lead output;
                               imagesReadyEvent lead hero urls;
                               deployedEvent lead url]
    ∧ jobs w' = jobs w ++ [mkQueuedJob "prepare-images" (ImageJob (id lead)) None;
                           mkQueuedJob "deploy-site" (DeployJob (id lead)) None;
                           mkQueuedJob "send-email" (EmailJob (id lead) One) None].
Proof.
  intros Hfind Hcamp Hsite Hzip Hgen Hinject Hdeploy pool Hheroes Hservices.
  destruct (lookup_mod (heroImages pool) (hashString (id lead)) Hheroes) as (hero & Hhero & _).
  destruct (pick_defined (id lead) pool Hservices) as (urls & Hurls).
  set (lead1 := applyData siteData lead).
  set (lead2 := applyData (imageData hero urls) lead1).
  set (url := dep (inject (zipPath output) (Some hero) urls) (id lead)).
  set (w1 := afterSite lead output w).
  set (w1' := set_imagePoolCache (insert (poolKey P (c_niche campaign) defaultStyle) pool) w1).
  set (w2 := afterImages lead1 hero urls w1').
  set (w3 := afterDeploy lead2 url w2).
  assert (Hfind1 : find (hasId (id lead1)) (leads w1) = Some lead1).
  { unfold w1, afterSite. cbn [leads set_console set_jobs set_events set_leads].
    change (id lead1) with (id lead). by rewrite find_updateRows, Hfind. }
  assert (Hstep1 : processSiteJob P (id lead) w = (Ok tt, w1))
    by (by apply processSiteJob_ok with campaign).
  assert (Hpool1 : poolFor P gen (c_niche campaign) defaultStyle w1 = pool) by reflexivity.
  assert (Hstep2 : processImageJob P (id lead) w1 = (Ok tt, w2)).
  { apply (processImageJob_ok P lead1 campaign pool hero urls w1' w1).
    - exact Hfind1.
    - exact Hcamp.
    - unfold w1'. rewrite <- Hpool1. by apply getOrCreateImagePool_total.
    - exact Hhero.
    - exact Hurls. }
  assert (Hfind2 : find (hasId (id lead2)) (leads w2) = Some lead2).
  { unfold w2, afterImages, w1'.
    cbn [leads set_console set_jobs set_events set_leads set_imagePoolCache].
    change (id lead2) with (id lead1). by rewrite find_updateRows, Hfind1. }
  assert (Hstep3 : processDeployJob P (id lead) w2 = (Ok tt, w3)).
  { apply (processDeployJob_ok P lead2 (zipPath output)
             (inject (zipPath output) (Some hero) urls) url w2).
    - exact Hfind2.
    - by apply campaignExists_lookup with campaign.
    - reflexivity.
    - unfold latestBundle, w2, afterImages, w1', w1, afterSite.
      cbn [events set_console set_jobs set_events set_leads set_imagePoolCache].
      rewrite !rev_app_distr. cbn [rev app find].
      change (campaignId lead2) with (campaignId lead). change (id lead2) with (id lead).
      change (campaignId lead1) with (campaignId lead). change (id lead1) with (id lead).
      assert (Hother : eventMatches (campaignId lead) (id lead) EV_SITE_GENERATED
                         (imagesReadyEvent lead hero urls) = false).
      { unfold eventMatches, imagesReadyEvent. cbn [ev_type].
        rewrite bool_decide_eq_false_2 by discriminate. apply andb_false_r. }
      unfold imagesReadyEvent in Hother |- *.
      change (campaignId lead1) with (campaignId lead). change (id lead1) with (id lead).
      rewrite Hother. unfold siteEvent. rewrite eventMatches_own.
      unfold bundleOf. cbn. destruct (zipPath output); [done|reflexivity].
    - apply Hinject.
    - apply Hdeploy. }
  exists hero, urls, (applyData (deployData url) lead2).
  cbv zeta. fold url.
  assert (Hall : deliverAll P zodDetails (buildAndDeploy (id lead)) w = w3).
  { unfold deliverAll, buildAndDeploy. cbn [fold_left handle].
    rewrite Hstep1. cbn [snd]. rewrite Hstep2. cbn [snd]. by rewrite Hstep3. }
  rewrite Hall. split; [exact Hhero|]. split; [exact Hurls|]. split; [|split; [|split; [|split]]].
  - unfold w3, afterDeploy. cbn [leads set_console set_jobs set_events set_leads].
    by rewrite find_updateRows, Hfind2.
  - unfold lead2, lead1, applyData. by rewrite !fold_left_app.
  - reflexivity.
  - reflexivity.
  - split.
    + unfold w3, afterDeploy, w2, afterImages, w1', w1, afterSite.
      cbn [events set_console set_jobs set_events set_leads set_imagePoolCache].
      by rewrite <- !app_assoc.
    + unfold w3, afterDeploy, w2, afterImages, w1', w1, afterSite.
      cbn [jobs set_console set_jobs set_events set_leads set_imagePoolCache].
      by rewrite <- !app_assoc.
Qed.

Lemma site_image_deploy_pipeline_witness :
  ∃ final,
    find (hasId "L1")
      (leads (deliverAll fakeProviders (fun _ => JNull) (buildAndDeploy "L1") ledger))
    = Some final
    ∧ status final = DEPLOYED
    ∧ demoUrl final = Some "http://localhost:3000/demo/l1".
Proof.
  destruct (site_image_deploy_pipeline fakeProviders (fun _ => JNull)
              (fun prompt ratio => "https://picsum.photos/seed/" +:+ prompt)
              (fun zip hero services => zip +:+ "-ready.zip")
              (fun zip project => localDemoUrl project)
              acme dallas
              (mkGenerateSiteOutput "/tmp/L1.zip"
                 "Generated MVP static site bundle for Acme Roofing")
              ledger)
    as (hero & urls & final & _ & _ & Hfind & _ & Hstatus & Hurl & _).
  - reflexivity.
  - reflexivity.
  - reflexivity.
  - discriminate.
  - reflexivity.
  - reflexivity.
  - reflexivity.
  - vm_compute. discriminate.
  - vm_compute. discriminate.
  - exists final. split; [exact Hfind|]. split; [exact Hstatus|exact Hurl].
Defined.

(** ** The crawl of the Enrich stage *)

Lemma withHttpProtocol_has url : hasHttpProtocol (withHttpProtocol url) = true.
Proof.
  unfold withHttpProtocol. fold (hasHttpProtocol url).
  destruct (hasHttpProtocol url) eqn:Hurl; [exact Hurl|].
  unfold hasHttpProtocol. apply orb_true_iff. right.
  apply prefix_spec. exists (toLowerCase url). reflexivity.
Qed.

Lemma safeFetchHtml_url P url page : safeFetchHtml P url = Some page → pg_url page = url.
Proof.
  unfold safeFetchHtml. destruct (fetch P url) as [response|]; [|done].
  destruct (negb (resp_ok response)); [done|].
  destruct (negb (includes _ "text/html")); [done|]. by intros [= <-].
Qed.

Lemma visited_sublist P urls : sublist (map pg_url (omap (safeFetchHtml P) urls)) urls.
Proof.
  induction urls as [|url urls IH]; [constructor|].
  change (omap (safeFetchHtml P) (url :: urls))
    with (match safeFetchHtml P url with
          | Some page => page :: omap (safeFetchHtml P) urls
          | None => omap (safeFetchHtml P) urls
          end).
  destruct (safeFetchHtml P url) as [page|] eqn:Hpage.
  - cbn [map]. rewrite (safeFetchHtml_url P url page Hpage). by constructor.
  - by constructor.
Qed.

Lemma NoDup_addAll seen xs : NoDup seen → NoDup (addAll seen xs).
Proof.
  revert seen. induction xs as [|x xs IH]; intros seen Hseen; [exact Hseen|].
  cbn [addAll]. destruct (existsb (String.eqb x) seen) eqn:Hx; [by apply IH|].
  apply IH. apply NoDup_app. split; [exact Hseen|]. split; [|apply NoDup_singleton].
  intros y Hy Hyx. apply list_elem_of_singleton in Hyx as ->.
  assert (existsb (String.eqb x) seen = true); [|congruence].
  apply existsb_exists. exists x. split; [by apply list_elem_of_In|apply String.eqb_refl].
Qed.

Lemma In_addAll seen xs k : In k (addAll seen xs) → In k seen ∨ In k xs.
Proof.
  revert seen. induction xs as [|x xs IH]; intros seen Hk; [by left|].
  cbn [addAll] in Hk. destruct (existsb (String.eqb x) seen).
  - destruct (IH _ Hk) as [?|?]; [by left|right; by right].
  - destruct (IH _ Hk) as [Hin|?]; [|right; by right].
    apply in_app_iff in Hin as [?|[<-|[]]]; [by left|right; by left].
Qed.

Lemma keywords_fold P htmlList : ∀ seen,
  NoDup seen →
  NoDup (fold_left (fun keywords html => addAll keywords (headingKeywords P html)) htmlList seen)
  ∧ ∀ k, In k (fold_left (fun keywords html => addAll keywords (headingKeywords P html))
                 htmlList seen) →
         In k seen ∨ ∃ html, In html htmlList ∧ In k (headingKeywords P html).
Proof.
  induction htmlList as [|html rest IH]; intros seen Hseen.
  - split; [exact Hseen|]. intros k Hk. by left.
  - cbn [fold_left].
    destruct (IH (addAll seen (headingKeywords P html))) as [Hnd Hin];
      [by apply NoDup_addAll|].
    split; [exact Hnd|]. intros k Hk.
    destruct (Hin k Hk) as [Hk'|(html' & Hhtml' & Hk')].
    + destruct (In_addAll _ _ _ Hk') as [?|?]; [by left|].
      right. exists html. split; [by left|done].
    + right. exists html'. split; [by right|done].
Qed.

Lemma extractServiceKeywords_spec P htmlList :
  (length (extractServiceKeywords P htmlList) <= 8)%nat
  ∧ NoDup (extractServiceKeywords P htmlList)
  ∧ ∀ k, In k (extractServiceKeywords P htmlList) →
         ∃ html, In html htmlList ∧ In k (headingKeywords P html).
Proof.
  unfold extractServiceKeywords.
  destruct (keywords_fold P htmlList [] (NoDup_nil_2)) as [Hnd Hin].
  split; [rewrite length_firstn; lia|]. split.
  - rewrite <- (firstn_skipn 8) in Hnd. by apply NoDup_app in Hnd as (? & _).
  - intros k Hk. destruct (Hin k) as [[]|H]; [|exact H].
    rewrite <- (firstn_skipn 8). apply in_or_app. by left.
Qed.

Lemma includes_longer text phrase suffix :
  includes text (phrase +:+ suffix) = true → includes text phrase = true.
Proof.
  rewrite !includes_spec. intros (before & after & ->).
  exists before, (suffix +:+ after). f_equal.
  clear. induction phrase as [|c phrase IH]; [done|]. rewrite !append_cons. by rewrite IH.
Qed.

Lemma extractClaims_cases text :
  extractClaims text
  = (if includes (toLowerCase text) "licensed" then ["licensed"] else [])
    ++ (if includes (toLowerCase text) "insured" then ["insured"] else [])
    ++ (if includes (toLowerCase text) "free estimate" then ["free estimates"] else []).
Proof.
  unfold extractClaims. cbv zeta. do 2 f_equal.
  destruct (includes (toLowerCase text) "free estimate") eqn:Hone; [done|].
  destruct (includes (toLowerCase text) "free estimates") eqn:Hmany; [|done].
  apply (includes_longer _ "free estimate" "s") in Hmany. congruence.
Qed.

Lemma extractClaims_sublist text : sublist (extractClaims text) knownClaims.
Proof.
  rewrite extractClaims_cases. unfold knownClaims.
  destruct (includes (toLowerCase text) "licensed"),
           (includes (toLowerCase text) "insured"),
           (includes (toLowerCase text) "free estimate");
    cbn [app];
    repeat (first [apply sublist_nil | apply sublist_skip | apply sublist_cons]).
Qed.

(** X18.  What [extractClaims] reports.  A claim is reported exactly when
    its phrase occurs in the page text, in any letter case, as a substring:
    "licensed" for [licensed] (so also inside "unlicensed"), "insured" for
    [insured], and "free estimates" as soon as [free estimate] occurs (the
    singular covers the plural).  The result lists each claim at most once,
    in the fixed order licensed, insured, free estimates. *)
Theorem extractClaims_reports_phrases (text : string) :
  (In "licensed" (extractClaims text) ↔ isSubstring "licensed" (toLowerCase text))
  ∧ (In "insured" (extractClaims text) ↔ isSubstring "insured" (toLowerCase text))
  ∧ (In "free estimates" (extractClaims text)
     ↔ isSubstring "free estimate" (toLowerCase text))
  ∧ sublist (extractClaims text) knownClaims.
Proof.
  assert (Hsub := extractClaims_sublist text).
  rewrite extractClaims_cases in *. rewrite <- !includes_spec.
  destruct (includes (toLowerCase text) "licensed"),
           (includes (toLowerCase text) "insured"),
           (includes (toLowerCase text) "free estimate");
    cbn [app In] in *; (split; [|split; [|split; [|exact Hsub]]]);
    (split; [ intros H; try reflexivity;
              repeat (destruct H as [H|H]; try discriminate H); done
            | intros H; try discriminate H; auto ]).
Qed.

(** X19.  Bounds on a crawl.  When [crawlLeadWebsite] returns, the pages it
    reports are among the site's address (with [https://] put in front when it
    has no http or https scheme), its [/services] and its [/contact] page, in
    this order and at most once each; the service keywords are at most eight
    and pairwise different; the claims are among licensed, insured and free
    estimates. *)
Theorem crawl_stays_within_bounds (P : Providers) (website : string) (summary : ExtractionSummary) :
  crawlLeadWebsite P website = Ok summary →
  hasHttpProtocol (withHttpProtocol website) = true
  ∧ withHttpProtocol (withHttpProtocol website) = withHttpProtocol website
  ∧ (∃ servicesUrl contactUrl,
        toAbsoluteUrl P (withHttpProtocol website) "/services" = Ok servicesUrl
        ∧ toAbsoluteUrl P (withHttpProtocol website) "/contact" = Ok contactUrl
        ∧ sublist (ex_pagesVisited summary)
            [withHttpProtocol website; servicesUrl; contactUrl])
  ∧ (length (ex_pagesVisited summary) <= 3)%nat
  ∧ (length (ex_serviceKeywords summary) <= 8)%nat
  ∧ NoDup (ex_serviceKeywords summary)
  ∧ sublist (ex_claims summary) knownClaims.
Proof.
  intros Hcrawl.
  assert (Hhas := withHttpProtocol_has website).
  split; [exact Hhas|]. split.
  { unfold withHttpProtocol at 1. fold (hasHttpProtocol (withHttpProtocol website)).
    by rewrite Hhas. }
  unfold crawlLeadWebsite in Hcrawl. cbv zeta in Hcrawl.
  destruct (toAbsoluteUrl P (withHttpProtocol website) "/services") as [servicesUrl|]; [|done].
  destruct (toAbsoluteUrl P (withHttpProtocol website) "/contact") as [contactUrl|]; [|done].
  injection Hcrawl as <-. cbn [ex_pagesVisited ex_serviceKeywords ex_claims].
  assert (Hsub := visited_sublist P [withHttpProtocol website; servicesUrl; contactUrl]).
  split; [by exists servicesUrl, contactUrl|].
  split; [apply sublist_length in Hsub; exact Hsub|].
  destruct (extractServiceKeywords_spec P
              (map pg_html (omap (safeFetchHtml P)
                              [withHttpProtocol website; servicesUrl; contactUrl])))
    as (Hlen & Hnd & _).
  split; [exact Hlen|]. split; [exact Hnd|].
  apply extractClaims_sublist.
Qed.

Lemma crawl_stays_within_bounds_witness :
  ∃ summary,
    crawlLeadWebsite
      (withFetch (oneHtmlPage "Licensed and insured roofers. Free estimate!") fakeProviders)
      "acme.example.com" = Ok summary
    ∧ (length (ex_pagesVisited summary) <= 3)%nat
    ∧ sublist (ex_claims summary) knownClaims.
Proof.
  eexists. split; [vm_compute; reflexivity|].
  destruct (crawl_stays_within_bounds
              (withFetch (oneHtmlPage "Licensed and insured roofers. Free estimate!")
                 fakeProviders)
              "acme.example.com" _ eq_refl) as (_ & _ & _ & Hpages & _ & _ & Hclaims).
  split; [exact Hpages|exact Hclaims].
Defined.

Lemma orElse_keeps (found known : option string) :
  is_Some known → is_Some (orElse found known).
Proof. intros Hknown. by destruct found. Qed.

(** X20.  Enrich never erases what is known of a lead.  For an existing
    lead that is not [doNotContact], on every path of the Enrich job (no
    website, crawl failed, crawl succeeded) a phone or email the lead already
    has is still set afterwards, and business name, website, demo url and both
    counters are unchanged.  When the crawl succeeds, a phone or email it
    found replaces the stored one, one it did not find leaves the stored one,
    and [lastError] is cleared exactly when at least one page was visited. *)
Theorem enrich_keeps_known_contacts (P : Providers) (w : World) (leadId : string) (lead : Lead) :
  find (hasId leadId) (leads w) = Some lead →
  doNotContact lead = false →
  campaignExists (campaignId lead) w = true →
  ∃ lead',
    find (hasId leadId) (leads (snd (processEnrichJob P leadId w))) = Some lead'
    ∧ (is_Some (phone lead) → is_Some (phone lead'))
    ∧ (is_Some (email lead) → is_Some (email lead'))
    ∧ businessName lead' = businessName lead
    ∧ websiteUrl lead' = websiteUrl lead
    ∧ demoUrl lead' = demoUrl lead
    ∧ emailSentCount lead' = emailSentCount lead
    ∧ callAttempts lead' = callAttempts lead
    ∧ (∀ extracted,
          truthy (websiteUrl lead) = true →
          crawlLeadWebsite P (default "" (websiteUrl lead)) = Ok extracted →
          phone lead' = orElse (ex_phone extracted) (phone lead)
          ∧ email lead' = orElse (ex_email extracted) (email lead)
          ∧ (lastError lead' = None ↔ ex_pagesVisited extracted ≠ [])).
Proof.
  intros Hfind Hdnc Hcamp.
  assert (Hrow : ∀ data metadata line,
             find (hasId leadId)
               (leads (afterEnrich leadId (campaignId lead) data metadata line w))
             = Some (applyData data lead)).
  { intros. unfold afterEnrich. cbn [leads set_console set_jobs set_events set_leads].
    by rewrite find_updateRows, Hfind. }
  unfold processEnrichJob.
  run_with ltac:(unfold lead_findUnique, gets; rewrite Hfind; reflexivity).
  rewrite Hdnc. destruct (truthy (websiteUrl lead)) eqn:Hsite; cbn [negb].
  - unfold try_catch.
    destruct (crawlLeadWebsite P (default "" (websiteUrl lead))) as [extracted|e] eqn:Hcrawl.
    + erewrite bind_ok by (unfold liftR; reflexivity). cbv beta.
      rewrite (enrich_writes leadId lead) by assumption.
      eexists. split; [apply Hrow|]. cbn.
      split; [apply orElse_keeps|]. split; [apply orElse_keeps|].
      do 5 (split; [reflexivity|]).
      intros extracted' _ [= <-]. split; [reflexivity|]. split; [reflexivity|].
      destruct (ex_pagesVisited extracted); cbn; split; done.
    + erewrite bind_throw by (unfold liftR; reflexivity).
      rewrite (enrich_writes leadId lead) by assumption.
      eexists. split; [apply Hrow|]. cbn. repeat (split; [done|]). done.
  - rewrite (enrich_writes leadId lead) by assumption.
    eexists. split; [apply Hrow|]. cbn. repeat (split; [done|]). done.
Qed.

Lemma enrich_keeps_known_contacts_witness :
  ∃ lead',
    find (hasId "L1")
      (leads (snd (processEnrichJob
                     (withFetch (oneHtmlPage "Licensed and insured roofers.") fakeProviders)
                     "L1" ledger))) = Some lead'
    ∧ phone lead' = Some "+1-555-0101"
    ∧ lastError lead' = None.
Proof.
  destruct (enrich_keeps_known_contacts
              (withFetch (oneHtmlPage "Licensed and insured roofers.") fakeProviders)
              ledger "L1" acme)
    as (lead' & Hfind & _ & _ & _ & _ & _ & _ & _ & Hcrawl);
    [reflexivity | reflexivity | reflexivity |].
  destruct (Hcrawl (mkExtractionSummary None None [] ["licensed"; "insured"]
                      ["https://roofers-dallas-1.example.com";
                       "https://roofers-dallas-1.example.com/services";
                       "https://roofers-dallas-1.example.com/contact"]))
    as (Hphone & _ & Herr); [reflexivity | vm_compute; reflexivity |].
  exists lead'. split; [exact Hfind|]. split; [exact Hphone|].
  apply Herr. discriminate.
Defined.

(** ** What no delivery undoes *)

#[global] Instance committedKept_preorder : PreOrder committedKept.
Proof.
  split.
  - by intros ks k row v H _.
  - intros ks1 ks2 ks3 H12 H23 k row v Hrow Hv. eapply H23; [|exact Hv]. by eapply H12.
Qed.

Section Grows.
Context (K : relation (gmap string IdempotencyKey)) `{!PreOrder K}.

Lemma appendOnly_refl w : appendOnly K w w.
Proof. repeat split; try reflexivity. done. Qed.

Lemma appendOnly_trans w1 w2 w3 : appendOnly K w1 w2 → appendOnly K w2 w3 → appendOnly K w1 w3.
Proof.
  intros (He & Hl & Hcs & Hk) (He' & Hl' & Hcs' & Hk').
  repeat split; try (etrans; eassumption). intros c Hin. by apply Hcs', Hcs.
Qed.

Lemma grows_ret {A} (a : A) : grows K (ret a).
Proof. intros w. apply appendOnly_refl. Qed.

Lemma grows_throw {A} e : grows K (@throw A e).
Proof. intros w. apply appendOnly_refl. Qed.

Lemma grows_liftR {A} (r : Result A) : grows K (liftR r).
Proof. intros w. apply appendOnly_refl. Qed.

Lemma grows_gets {A} (f : World → A) : grows K (gets f).
Proof. intros w. apply appendOnly_refl. Qed.

Lemma grows_bind {A B} (m : M A) (k : A → M B) :
  grows K m → (∀ a, grows K (k a)) → grows K (bind m k).
Proof.
  intros Hm Hk w. unfold bind. specialize (Hm w).
  destruct (m w) as [[a|e] w1]; cbn [snd] in *; [|exact Hm].
  apply appendOnly_trans with w1; [exact Hm|apply Hk].
Qed.

Lemma grows_try_catch {A} (m : M A) (h : string → M A) :
  grows K m → (∀ e, grows K (h e)) → grows K (try_catch m h).
Proof.
  intros Hm Hh w. unfold try_catch. specialize (Hm w).
  destruct (m w) as [[a|e] w1]; cbn [snd] in *; [exact Hm|].
  apply appendOnly_trans with w1; [exact Hm|apply Hh].
Qed.

Lemma grows_mapM {A B} (f : A → M B) xs : (∀ x, grows K (f x)) → grows K (mapM f xs).
Proof.
  intros Hf. induction xs as [|x xs IH]; [apply grows_ret|].
  cbn [mapM]. apply grows_bind; [apply Hf|]. intros y.
  apply grows_bind; [exact IH|]. intros ys. apply grows_ret.
Qed.

Lemma grows_console_log line : grows K (console_log line).
Proof.
  intros w. unfold console_log, modify. cbn. repeat split; try reflexivity; done.
Qed.

Lemma grows_logMessage worker c l message : grows K (logMessage worker c l message).
Proof. apply grows_console_log. Qed.

Lemma grows_queue_add name data delay : grows K (queue_add name data delay).
Proof.
  intros w. unfold queue_add, modify. cbn. repeat split; try reflexivity; done.
Qed.

Lemma grows_event_create c l t metadata : grows K (event_create c l t metadata).
Proof.
  intros w. unfold event_create. destruct (refsOk _ _ _); [|apply appendOnly_refl].
  cbn. repeat split; try reflexivity; try done. by apply prefix_app_r.
Qed.

Lemma grows_event_findLatest c l t : grows K (event_findLatest c l t).
Proof. apply grows_gets. Qed.

Lemma grows_campaign_setStatus c s : grows K (campaign_setStatus c s).
Proof.
  intros w. unfold campaign_setStatus.
  destruct (campaigns w !! c) as [campaign|] eqn:Hc; [|apply appendOnly_refl].
  cbn. repeat split; try reflexivity. intros c' Hin.
  apply lookup_insert_is_Some. destruct (decide (c = c')); [by left|by right].
Qed.

Lemma grows_record_call x : grows K (modify (set_outbox (fun o => o ++ [x]))).
Proof. intros w. unfold modify. cbn. repeat split; try reflexivity; done. Qed.

Lemma grows_set_imagePoolCache f : grows K (modify (set_imagePoolCache f)).
Proof. intros w. unfold modify. cbn. repeat split; try reflexivity. done. Qed.

Lemma grows_lead_update k data : grows K (lead_update k data).
Proof.
  intros w. unfold lead_update. destruct (find (hasId k) (leads w)); [|apply appendOnly_refl].
  unfold appendOnly.
  cbn [snd leads events jobs outbox console campaigns idempotencyKeys set_leads].
  rewrite map_id_updateRows. repeat split; try reflexivity. done.
Qed.

Lemma grows_lead_create c : grows K (lead_create c).
Proof.
  intros w. unfold lead_create.
  destruct (negb (campaignExists (lc_campaignId c) w)); [apply appendOnly_refl|].
  destruct (violatesSiteIndex c (leads w)); [apply appendOnly_refl|].
  unfold appendOnly.
  cbn [snd leads events jobs outbox console campaigns idempotencyKeys set_leads].
  rewrite map_app. repeat split; try reflexivity; try done. by apply prefix_app_r.
Qed.
End Grows.

Create HintDb grows.

#[global] Hint Resolve grows_ret grows_throw grows_liftR grows_gets grows_console_log
  grows_logMessage grows_queue_add grows_event_create grows_event_findLatest
  grows_campaign_setStatus grows_record_call grows_set_imagePoolCache grows_lead_update
  grows_lead_create : grows.

Ltac grows_walk :=
  repeat first
    [ progress (cbv beta zeta)
    | solve [eauto with grows typeclass_instances]
    | match goal with
      | |- grows _ (bind _ _) => apply grows_bind; [typeclasses eauto| |intros ?]
      | |- grows _ (try_catch _ _) => apply grows_try_catch; [typeclasses eauto| |intros ?]
      | |- grows _ (mapM _ _) => apply grows_mapM; [typeclasses eauto|intros ?]
      | |- grows _ (match ?x with _ => _ end) => destruct x
      | |- grows _ (if ?x then _ else _) => destruct x
      end ].

Lemma grows_frame {A} (m : M A) : (∀ w, snd (m w) = w) → grows committedKept m.
Proof. intros H w. rewrite H. apply appendOnly_refl. apply _. Qed.

(** The stage runner keeps every committed row, for a body that leaves the
    idempotency store alone. *)
Lemma grows_runIdempotentStage input :
  grows eq (ri_run input) → grows committedKept (runIdempotentStage input).
Proof.
  intros Hrun w. unfold runIdempotentStage, bind at 1, idem_findUnique, gets. cbv beta iota.
  destruct (idempotencyKeys w !! ri_key input) as [row|] eqn:Hkey.
  - destruct (committedValue (ik_result row)); [apply (appendOnly_refl _)|].
    apply (grows_bind _); [apply (grows_console_log _)|]. intros ?. apply (grows_ret _).
  - unfold bind at 1, idem_create. rewrite Hkey.
    destruct (refsOk _ _ w); cbv beta iota; [|apply (appendOnly_refl _)].
    set (w1 := set_idempotencyKeys _ w).
    unfold try_catch, bind at 1.
    destruct (Hrun w1) as (He & Hl & Hcs & Hk).
    destruct (ri_run input w1) as [[r|e] w2]; cbn [snd] in *.
    + unfold bind at 1, idem_update. rewrite <- Hk. unfold w1 at 1.
      cbn [idempotencyKeys set_idempotencyKeys]. rewrite lookup_insert_eq.
      cbn [ret snd idempotencyKeys set_idempotencyKeys].
      repeat split; try done.
      intros k row v Hrow Hv. assert (ri_key input ≠ k) by congruence.
      cbn [idempotencyKeys set_idempotencyKeys].
      rewrite lookup_insert_ne by done. rewrite <- Hk. unfold w1.
      cbn [idempotencyKeys set_idempotencyKeys].
      rewrite lookup_insert_ne by done. exact Hrow.
    + unfold bind at 1, idem_delete. rewrite <- Hk. unfold w1 at 1.
      cbn [idempotencyKeys set_idempotencyKeys]. rewrite lookup_insert_eq.
      cbn [throw snd idempotencyKeys set_idempotencyKeys].
      repeat split; try done.
      intros k row v Hrow Hv. assert (ri_key input ≠ k) by congruence.
      cbn [idempotencyKeys set_idempotencyKeys].
      rewrite lookup_delete_ne by done. rewrite <- Hk. unfold w1.
      cbn [idempotencyKeys set_idempotencyKeys].
      rewrite lookup_insert_ne by done. exact Hrow.
Qed.

Section GrowsHandlers.
Context (P : Providers).

Lemma grows_upsertLeadFromListing K `{!PreOrder K} c listing :
  grows K (upsertLeadFromListing c listing).
Proof.
  unfold upsertLeadFromListing, lead_upsert.
  destruct (li_websiteUrl listing) as [[|ch rest]|]; grows_walk.
Qed.

Lemma grows_scrapeLoop c listings : ∀ successCount failureCount,
  grows committedKept (scrapeLoop c listings successCount failureCount).
Proof.
  induction listings as [|listing rest IH]; intros successCount failureCount;
    [apply (grows_ret _)|].
  cbn [scrapeLoop]. apply (grows_bind _).
  - unfold scrapeOne, enqueueEnrich. apply (grows_try_catch _); [|intros ?]; grows_walk.
    apply (grows_upsertLeadFromListing _).
  - intros [|]; apply IH.
Qed.

Lemma grows_processScrapeJob c : grows committedKept (processScrapeJob P c).
Proof. unfold processScrapeJob. grows_walk. apply grows_scrapeLoop. Qed.

Lemma grows_processEnrichJob l : grows committedKept (processEnrichJob P l).
Proof. unfold processEnrichJob, enqueueSite, lead_findUnique. grows_walk. Qed.

Lemma grows_processSiteJob l : grows committedKept (processSiteJob P l).
Proof.
  unfold processSiteJob, enqueueImage, lead_findUnique_withCampaign. grows_walk.
Qed.

Lemma grows_processImageJob l : grows committedKept (processImageJob P l).
Proof.
  unfold processImageJob, enqueueDeploy, lead_findUnique_withCampaign, getOrCreateImagePool.
  grows_walk.
Qed.

Lemma grows_processDeployJob l : grows committedKept (processDeployJob P l).
Proof. unfold processDeployJob, enqueueEmail, lead_findUnique. grows_walk. Qed.

Lemma grows_processEmailJob l step : grows committedKept (processEmailJob P l step).
Proof.
  unfold processEmailJob, lead_findUnique. grows_walk.
  apply grows_runIdempotentStage. unfold emailRun. cbn [ri_run]. grows_walk.
Qed.

Lemma grows_processCallJob l attempt : grows committedKept (processCallJob P l attempt).
Proof.
  unfold processCallJob, lead_findUnique. grows_walk.
  apply grows_runIdempotentStage. unfold callRun. cbn [ri_run]. grows_walk.
Qed.

Lemma grows_callWebhookHandler zodDetails provider body :
  grows committedKept (callWebhookHandler zodDetails provider body).
Proof. unfold callWebhookHandler, lead_findUnique. grows_walk. Qed.

Lemma grows_handle zodDetails d : grows committedKept (handle P zodDetails d).
Proof.
  destruct d as [[c|l|l|l|l|l step|l attempt]|provider body]; cbn [handle].
  - apply grows_processScrapeJob.
  - apply grows_processEnrichJob.
  - apply grows_processSiteJob.
  - apply grows_processImageJob.
  - apply grows_processDeployJob.
  - apply grows_processEmailJob.
  - apply grows_processCallJob.
  - apply (grows_bind _); [apply grows_callWebhookHandler|]. intros ?. apply (grows_ret _).
Qed.
End GrowsHandlers.

(** X21.  No row on record is undone.  Whatever deliveries are handled, in
    whatever order and whether they fail or not (jobs of every stage and
    webhooks): the events recorded before are still in the event table, in
    the same places; every lead that existed still exists under the same id
    and position; no campaign has disappeared; and every idempotency row with
    a committed result is still there with the same result. *)
Theorem nothing_on_record_is_undone
    (P : Providers) (zodDetails : Json → Json) (ds : list Delivery) (w : World) :
  let w' := deliverAll P zodDetails ds w in
  (∃ added, events w' = events w ++ added)
  ∧ (∃ added, map id (leads w') = map id (leads w) ++ added)
  ∧ (∀ c, is_Some (campaigns w !! c) → is_Some (campaigns w' !! c))
  ∧ (∀ k row v,
        idempotencyKeys w !! k = Some row →
        committedValue (ik_result row) = Some v →
        idempotencyKeys w' !! k = Some row).
Proof.
  intros w'. subst w'.
  change (appendOnly committedKept w (deliverAll P zodDetails ds w)).
  revert w. induction ds as [|d ds IH]; intros w; [apply (appendOnly_refl _)|].
  cbn [deliverAll fold_left].
  apply (appendOnly_trans _) with (snd (handle P zodDetails d w)).
  - apply grows_handle.
  - apply IH.
Qed.

(** ** Contact caps *)

Section Quiet.
Context (J : list Lead → Prop) (P : Providers).
Context (Hquiet : quietKeeps J).

Lemma quiet_lead_update k data : forallb quiet data = true → keeps J (lead_update k data).
Proof.
  intros Hdata w H. unfold lead_update.
  destruct (find (hasId k) (leads w)); [|done]. cbn. by apply (Hquiet k data).
Qed.

Ltac quiet_update := try (apply quiet_lead_update; reflexivity).

Lemma quiet_scrapeLoop c listings : ∀ successCount failureCount,
  insertKeeps J → keeps J (scrapeLoop c listings successCount failureCount).
Proof.
  induction listings as [|listing rest IH]; intros successCount failureCount Hins;
    [apply keeps_ret|].
  cbn [scrapeLoop]. apply keeps_bind.
  - unfold scrapeOne, enqueueEnrich, upsertLeadFromListing, lead_upsert.
    apply keeps_try_catch; [|intros ?]; keeps_walk; quiet_update;
      by apply keeps_lead_create.
  - intros [|]; by apply IH.
Qed.

Lemma quiet_processScrapeJob c : insertKeeps J → keeps J (processScrapeJob P c).
Proof.
  intros Hins. unfold processScrapeJob. keeps_walk. by apply quiet_scrapeLoop.
Qed.

Lemma quiet_processEnrichJob l : keeps J (processEnrichJob P l).
Proof. unfold processEnrichJob, enqueueSite. keeps_walk; quiet_update. Qed.

Lemma quiet_processSiteJob l : keeps J (processSiteJob P l).
Proof. unfold processSiteJob, enqueueImage. keeps_walk; quiet_update. Qed.

Lemma quiet_processImageJob l : keeps J (processImageJob P l).
Proof.
  unfold processImageJob, enqueueDeploy.
  keeps_walk; try apply keeps_getOrCreateImagePool.
  all: match goal with
       | |- keeps _ (lead_update _ (match ?x with _ => _ end ++ _)) => destruct x
       end; quiet_update.
Qed.

Lemma quiet_processDeployJob l : keeps J (processDeployJob P l).
Proof. unfold processDeployJob, enqueueEmail. keeps_walk; quiet_update. Qed.

Lemma quiet_callWebhookHandler zodDetails provider body :
  keeps J (callWebhookHandler zodDetails provider body).
Proof. unfold callWebhookHandler. keeps_walk; quiet_update. Qed.
End Quiet.

Lemma applyData_quiet data : ∀ l,
  forallb quiet data = true →
  emailSentCount (applyData data l) = emailSentCount l
  ∧ callAttempts (applyData data l) = callAttempts l.
Proof.
  unfold applyData. induction data as [|f data IH]; intros l Hdata; [done|].
  cbn [forallb] in Hdata. apply andb_true_iff in Hdata as [Hf Hdata].
  cbn [fold_left]. destruct (IH (applyField f l) Hdata) as [-> ->].
  by destruct f.
Qed.

Lemma withinCaps_quiet : quietKeeps withinCaps.
Proof.
  intros k data rows Hdata Hcaps. unfold withinCaps, updateRows in *.
  apply Forall_map. eapply Forall_impl; [exact Hcaps|]. intros l Hl. cbn.
  destruct (hasId k l); [|exact Hl].
  by destruct (applyData_quiet data l Hdata) as [-> ->].
Qed.

Lemma withinCaps_insert : insertKeeps withinCaps.
Proof.
  intros c rows _ _ Hcaps. unfold withinCaps. apply Forall_app. split; [exact Hcaps|].
  constructor; [|constructor]. cbn. lia.
Qed.

(** The end of a handler run: its last statements leave the lead table. *)
Ltac ends_with :=
  unfold ret, throw, bind, logMessage, console_log, modify; cbv beta iota; intros [= _ <-].

(** The stage runner changes the lead table only through its body. *)
Lemma runIdempotentStage_leads input (F : list Lead → list Lead) w out w' :
  (∀ w1 r w2, ri_run input w1 = (r, w2) → leads w2 = leads w1 ∨ leads w2 = F (leads w1)) →
  runIdempotentStage input w = (out, w') →
  leads w' = leads w ∨ leads w' = F (leads w).
Proof.
  intros Hrun. unfold runIdempotentStage, bind at 1, idem_findUnique, gets. cbv beta iota.
  destruct (idempotencyKeys w !! ri_key input) as [row|] eqn:Hkey.
  - destruct (committedValue (ik_result row)); ends_with; by left.
  - unfold bind at 1, idem_create. rewrite Hkey.
    destruct (refsOk _ _ w); cbv beta iota; [|ends_with; by left].
    set (w1 := set_idempotencyKeys _ w).
    unfold try_catch, bind at 1.
    destruct (ri_run input w1) as [[r|e] w2] eqn:Hbody;
      apply Hrun in Hbody; cbn [leads w1 set_idempotencyKeys] in Hbody.
    + unfold idem_update, idem_delete, bind, ret, throw. cbv beta iota.
      generalize (idempotencyKeys w2 !! ri_key input).
      intros [row2|]; cbv beta iota;
        [|generalize (idempotencyKeys w2 !! ri_key input); intros [row3|]; cbv beta iota];
        intros [= _ <-]; exact Hbody.
    + unfold idem_delete, bind, throw. cbv beta iota.
      generalize (idempotencyKeys w2 !! ri_key input).
      intros [row2|]; cbv beta iota; intros [= _ <-]; exact Hbody.
Qed.

Lemma emailRun_leads P lead step w r w' :
  emailRun P lead step w = (r, w') →
  leads w' = leads w ∨ leads w' = updateRows (id lead) emailData (leads w).
Proof.
  unfold emailRun, bind at 1, gets. cbv beta iota zeta.
  unfold bind at 1, modify. cbv beta iota.
  unfold bind at 1, liftR. cbv beta iota.
  destruct (sendEmail P _ _) as [messageId|e]; [|ends_with; by left].
  unfold bind at 1, lead_update. cbn [leads set_outbox].
  destruct (find (hasId (id lead)) (leads w)); [|ends_with; by left]. cbv beta iota.
  unfold bind at 1, event_create. destruct (refsOk _ _ _); ends_with; by right.
Qed.

Lemma callRun_leads P lead attempt w r w' :
  callRun P lead attempt w = (r, w') →
  leads w' = leads w ∨ leads w' = updateRows (id lead) callData (leads w).
Proof.
  unfold callRun, bind at 1, gets. cbv beta iota zeta.
  unfold bind at 1, modify. cbv beta iota.
  unfold bind at 1, liftR. cbv beta iota.
  destruct (placeCall P _ _) as [callId|e]; [|ends_with; by left].
  unfold bind at 1, lead_update. cbn [leads set_outbox].
  destruct (find (hasId (id lead)) (leads w)); [|ends_with; by left]. cbv beta iota.
  unfold bind at 1, event_create. destruct (refsOk _ _ _); ends_with; by right.
Qed.

(** What an Email and a Call job can do to the lead table. *)
Lemma processEmailJob_leads P l step w r w' :
  processEmailJob P l step w = (r, w') →
  leads w' = leads w
  ∨ ∃ lead,
      find (hasId l) (leads w) = Some lead
      ∧ emailSentCount lead < num step
      ∧ leads w' = updateRows (id lead) emailData (leads w).
Proof.
  unfold processEmailJob, bind at 1, lead_findUnique, gets. cbv beta iota.
  destruct (find (hasId l) (leads w)) as [lead|] eqn:Hfind; [|ends_with; by left].
  destruct (doNotContact lead); [ends_with; by left|].
  destruct (negb (truthy (email lead))); [ends_with; by left|].
  destruct (negb (truthy (demoUrl lead))); [ends_with; by left|].
  destruct (emailSentCount lead >=? num step) eqn:Hcount; [ends_with; by left|].
  unfold bind at 1.
  match goal with
  | |- context [runIdempotentStage ?input w] =>
      destruct (runIdempotentStage input w) as [[out|e] w2] eqn:Hstage;
      apply (runIdempotentStage_leads input (updateRows (id lead) emailData)) in Hstage;
      [ | intros w1 r1 w3; apply emailRun_leads | | intros w1 r1 w3; apply emailRun_leads ]
  end.
  - intros Hend.
    assert (leads w' = leads w2) as -> by (destruct (negb (executed out)); by (revert Hend; ends_with)).
    destruct Hstage as [->| ->]; [by left|].
    right. exists lead. split; [done|]. split; [lia|done].
  - ends_with. destruct Hstage as [->| ->]; [by left|].
    right. exists lead. split; [done|]. split; [lia|done].
Qed.

Lemma processCallJob_leads P l attempt w r w' :
  processCallJob P l attempt w = (r, w') →
  leads w' = leads w
  ∨ ∃ lead,
      find (hasId l) (leads w) = Some lead
      ∧ callAttempts lead < 2
      ∧ leads w' = updateRows (id lead) callData (leads w).
Proof.
  unfold processCallJob, bind at 1, lead_findUnique, gets. cbv beta iota.
  destruct (find (hasId l) (leads w)) as [lead|] eqn:Hfind; [|ends_with; by left].
  destruct (doNotContact lead); [ends_with; by left|].
  destruct (negb (truthy (phone lead))); [ends_with; by left|].
  destruct (callAttempts lead >=? 2) eqn:Hcount; [ends_with; by left|].
  unfold bind at 1.
  match goal with
  | |- context [runIdempotentStage ?input w] =>
      destruct (runIdempotentStage input w) as [[out|e] w2] eqn:Hstage;
      apply (runIdempotentStage_leads input (updateRows (id lead) callData)) in Hstage;
      [ | intros w1 r1 w3; apply callRun_leads | | intros w1 r1 w3; apply callRun_leads ]
  end.
  - intros Hend.
    assert (leads w' = leads w2) as -> by (destruct (negb (executed out)); by (revert Hend; ends_with)).
    destruct Hstage as [->| ->]; [by left|].
    right. exists lead. split; [done|]. split; [lia|done].
  - ends_with. destruct Hstage as [->| ->]; [by left|].
    right. exists lead. split; [done|]. split; [lia|done].
Qed.

(** Updating the one row of a given id. *)
Lemma withinCaps_update_one rows k lead data :
  uniqueIds rows →
  withinCaps rows →
  find (hasId k) rows = Some lead →
  emailSentCount (applyData data lead) <= 2 →
  callAttempts (applyData data lead) <= 2 →
  withinCaps (updateRows k data rows).
Proof.
  intros Hids Hcaps Hfind Hemail Hcall. unfold withinCaps, updateRows.
  apply Forall_map. apply Forall_forall. intros l Hin. cbn.
  destruct (hasId k l) eqn:Hl.
  - assert (l = lead) as ->.
    { apply list_elem_of_In in Hin. pose proof (find_own_id rows l Hids Hin) as Hown.
      unfold hasId in Hl. apply String.eqb_eq in Hl. rewrite Hl in Hown. congruence. }
    done.
  - unfold withinCaps in Hcaps. rewrite Forall_forall in Hcaps. by apply Hcaps.
Qed.

Lemma caps_handle P zodDetails d w :
  uniqueIds (leads w) → withinCaps (leads w) →
  withinCaps (leads (snd (handle P zodDetails d w))).
Proof.
  intros Hids Hcaps.
  destruct d as [[c|l|l|l|l|l step|l attempt]|provider body]; cbn [handle].
  - apply (quiet_processScrapeJob withinCaps P withinCaps_quiet c withinCaps_insert w Hcaps).
  - apply (quiet_processEnrichJob withinCaps P withinCaps_quiet l w Hcaps).
  - apply (quiet_processSiteJob withinCaps P withinCaps_quiet l w Hcaps).
  - apply (quiet_processImageJob withinCaps P withinCaps_quiet l w Hcaps).
  - apply (quiet_processDeployJob withinCaps P withinCaps_quiet l w Hcaps).
  - destruct (processEmailJob P l step w) as [r w'] eqn:Hrun. cbn [snd].
    destruct (processEmailJob_leads P l step w r w' Hrun) as [->|(lead & Hfind & Hcount & ->)];
      [exact Hcaps|].
    assert (Hk : id lead = l) by (by apply find_hasId with (leads w)). rewrite Hk.
    apply (withinCaps_update_one _ l lead); try done.
    + cbn. destruct step; cbn in Hcount; lia.
    + cbn. unfold withinCaps in Hcaps. rewrite Forall_forall in Hcaps.
      apply find_some in Hfind as [Hin _]. apply list_elem_of_In in Hin.
      by destruct (Hcaps lead Hin).
  - destruct (processCallJob P l attempt w) as [r w'] eqn:Hrun. cbn [snd].
    destruct (processCallJob_leads P l attempt w r w' Hrun)
      as [->|(lead & Hfind & Hcount & ->)]; [exact Hcaps|].
    assert (Hk : id lead = l) by (by apply find_hasId with (leads w)). rewrite Hk.
    apply (withinCaps_update_one _ l lead); try done.
    + cbn. unfold withinCaps in Hcaps. rewrite Forall_forall in Hcaps.
      apply find_some in Hfind as [Hin _]. apply list_elem_of_In in Hin.
      by destruct (Hcaps lead Hin).
    + cbn. lia.
  - apply (keeps_bind withinCaps); [|intros ?; apply keeps_ret|exact Hcaps].
    apply (quiet_callWebhookHandler withinCaps withinCaps_quiet).
Qed.

Lemma uniqueIds_handle P zodDetails d w :
  uniqueIds (leads w) → uniqueIds (leads (snd (handle P zodDetails d w))).
Proof.
  apply (keeps_handle uniqueIds P zodDetails d).
  - apply uniqueIds_update.
  - intros _. apply uniqueIds_insert.
Qed.

(** X22.  Nobody is contacted more than twice.  In a ledger whose leads have
    distinct ids and where no lead has more than two emails sent or two call
    attempts on record, this stays so whatever is delivered: jobs of every
    stage, in any order and any number of times, repeated Email and Call jobs
    and webhooks included.  [emailSentCount] and [callAttempts] never pass
    2. *)
Theorem nobody_is_contacted_more_than_twice
    (P : Providers) (zodDetails : Json → Json) (ds : list Delivery) (w : World) :
  uniqueIds (leads w) →
  withinCaps (leads w) →
  uniqueIds (leads (deliverAll P zodDetails ds w))
  ∧ withinCaps (leads (deliverAll P zodDetails ds w)).
Proof.
  revert w. induction ds as [|d ds IH]; intros w Hids Hcaps; [by split|].
  cbn [deliverAll fold_left]. apply IH.
  - by apply uniqueIds_handle.
  - by apply caps_handle.
Qed.

Lemma nobody_is_contacted_more_than_twice_witness :
  withinCaps
    (leads (deliverAll fakeProviders (fun _ => JNull)
              [Queued (EmailJob "L1" One); Queued (EmailJob "L1" Two);
               Queued (EmailJob "L1" Two); Queued (CallJob "L1" One);
               Queued (CallJob "L1" Two); Queued (CallJob "L1" One)]
              ledger)).
Proof.
  apply (nobody_is_contacted_more_than_twice fakeProviders (fun _ => JNull)
           [Queued (EmailJob "L1" One); Queued (EmailJob "L1" Two);
            Queued (EmailJob "L1" Two); Queued (CallJob "L1" One);
            Queued (CallJob "L1" Two); Queued (CallJob "L1" One)]
           ledger).
  - apply NoDup_singleton.
  - constructor; [cbn; lia|constructor].
Defined.

(** ** Campaign commands *)

Lemma campaignCommandSchema_spec body cmd :
  campaignCommandSchema body = Some cmd
  ↔ json_get "niche" body = Some (JStr (cmd_niche cmd))
    ∧ json_get "city" body = Some (JStr (cmd_city cmd))
    ∧ json_get "limit" body = Some (JNum (cmd_limit cmd))
    ∧ 2 <= utf16Length (cmd_niche cmd)
    ∧ 2 <= utf16Length (cmd_city cmd)
    ∧ 1 <= cmd_limit cmd <= 1000.
Proof.
  unfold campaignCommandSchema. split.
  - destruct (json_get "niche" body) as [[| | |niche| |]|]; try done.
    destruct (json_get "city" body) as [[| | |city| |]|]; try done.
    destruct (json_get "limit" body) as [[| |limit| | |]|]; try done.
    destruct (_ && _) eqn:Hok; [|done]. intros [= <-]. cbn.
    repeat (apply andb_true_iff in Hok as [Hok ?]). repeat split; lia.
  - destruct cmd as [niche city limit]. cbn. intros (-> & -> & -> & Hn & Hc & Hl).
    replace (_ && _) with true; [done|]. symmetry.
    repeat (apply andb_true_iff; split); lia.
Qed.

Lemma newCampaignId_fresh cs : cs !! newCampaignId cs = None.
Proof.
  apply not_elem_of_dom. unfold newCampaignId. apply fresh_string_of_set_fresh.
Qed.

Lemma createCampaignHandler_accepts zodDetails body cmd w :
  campaignCommandSchema body = Some cmd →
  createCampaignHandler zodDetails body w
  = (Ok (accepted (newCampaignId (campaigns w))),
     afterCommand (newCampaignId (campaigns w)) cmd w).
Proof. intros Hcmd. unfold createCampaignHandler, try_catch. by rewrite Hcmd. Qed.

(** X23.  Campaign commands.  A command is accepted exactly when [niche]
    and [city] are strings whose [length] is at least two, counted in UTF-16
    code units as zod does (so one accented letter is too short, though it
    takes two bytes), and [limit] is an integer from 1 to 1000; any other
    body gets 400
    [Invalid campaign command payload] and changes nothing.  An accepted
    command gets 202 with the id of a new campaign: the id was not in use, so
    no campaign is overwritten; the campaign is stored RUNNING with the three
    values; one CAMPAIGN_CREATED event and one Scrape job for it are appended;
    leads, provider log and idempotency store are untouched.  When every lead
    belongs to an existing campaign and the mock listings are in use, the
    Scrape job just queued then creates exactly [min(limit, 25)] leads. *)
Theorem campaign_command_starts_the_pipeline
    (P : Providers) (zodDetails : Json → Json) (body : Json) (w : World) :
  (∀ cmd,
      campaignCommandSchema body = Some cmd
      ↔ json_get "niche" body = Some (JStr (cmd_niche cmd))
        ∧ json_get "city" body = Some (JStr (cmd_city cmd))
        ∧ json_get "limit" body = Some (JNum (cmd_limit cmd))
        ∧ 2 <= utf16Length (cmd_niche cmd)
        ∧ 2 <= utf16Length (cmd_city cmd)
        ∧ 1 <= cmd_limit cmd <= 1000)
  ∧ (campaignCommandSchema body = None →
   createCampaignHandler zodDetails body w
   = (Ok (mkResponse 400
            (JObj [("error", JStr "Invalid campaign command payload");
                   ("details", zodDetails body)])), w))
  ∧ (∀ cmd,
        json_get "niche" body = Some (JStr (cmd_niche cmd)) →
        json_get "city" body = Some (JStr (cmd_city cmd)) →
        json_get "limit" body = Some (JNum (cmd_limit cmd)) →
        2 <= utf16Length (cmd_niche cmd) →
        2 <= utf16Length (cmd_city cmd) →
        1 <= cmd_limit cmd <= 1000 →
        let k := newCampaignId (campaigns w) in
        let w1 := afterCommand k cmd w in
        createCampaignHandler zodDetails body w = (Ok (accepted k), w1)
        ∧ campaigns w !! k = None
        ∧ (∀ c, c ≠ k → campaigns w1 !! c = campaigns w !! c)
        ∧ last (jobs w1) = Some (mkQueuedJob "scrape-leads" (ScrapeJob k) None)
        ∧ leads w1 = leads w
        ∧ (leadsHaveCampaigns w →
           (∀ niche city limit,
               listingsProvider P niche city limit
               = Ok (mockListingsProvider niche city limit)) →
           fst (processScrapeJob P k w1) = Ok tt
           ∧ length (leads (snd (processScrapeJob P k w1)))
             = (length (leads w) + Z.to_nat (Z.min (cmd_limit cmd) 25))%nat)).
Proof.
  split; [intros cmd; apply campaignCommandSchema_spec|]. split.
  - intros Hnone. unfold createCampaignHandler, try_catch. by rewrite Hnone.
  - intros cmd Hniche Hcity Hlimit Hn Hc Hl k w1.
    assert (Hcmd : campaignCommandSchema body = Some cmd).
    { apply campaignCommandSchema_spec. repeat split; try done; lia. }
    assert (Hfresh : campaigns w !! k = None) by apply newCampaignId_fresh.
    split; [by apply createCampaignHandler_accepts|]. split; [exact Hfresh|].
    split; [|split; [|split]].
    + intros c Hck. unfold w1, afterCommand. cbn [campaigns set_jobs set_events set_campaigns].
      by rewrite lookup_insert_ne.
    + unfold w1, afterCommand. cbn [jobs set_jobs set_events set_campaigns].
      by rewrite last_snoc.
    + reflexivity.
    + intros Hfk Hmock.
      destruct (mock_scrape_counts P k
                  (mkCampaign (cmd_niche cmd) (cmd_city cmd) (cmd_limit cmd) RUNNING) w1)
        as (Hok & Hleads & _).
      * unfold w1, afterCommand. cbn [campaigns set_jobs set_events set_campaigns].
        apply lookup_insert_eq.
      * intros lead Hin Hk. specialize (Hfk lead Hin). unfold campaignExists in Hfk.
        rewrite Hk in Hfk. fold k in Hfresh. by rewrite Hfresh in Hfk.
      * apply Hmock.
      * split; [exact Hok|]. rewrite Hleads. cbn [c_limit].
        change (leads w1) with (leads w). f_equal. lia.
Qed.

Lemma campaign_command_starts_the_pipeline_witness :
  createCampaignHandler (fun _ => JNull)
    (JObj [("niche", JStr "plumbers"); ("city", JStr "Austin"); ("limit", JNum 40)]) ledger
  = (Ok (accepted (newCampaignId (campaigns ledger))),
     afterCommand (newCampaignId (campaigns ledger))
       (mkCampaignCommand "plumbers" "Austin" 40) ledger)
  ∧ createCampaignHandler (fun _ => JNull)
      (JObj [("niche", JStr "é"); ("city", JStr "Austin"); ("limit", JNum 40)]) ledger
    = (Ok (mkResponse 400
             (JObj [("error", JStr "Invalid campaign command payload");
                    ("details", JNull)])), ledger).
Proof.
  split.
  - destruct (campaign_command_starts_the_pipeline fakeProviders (fun _ => JNull)
                (JObj [("niche", JStr "plumbers"); ("city", JStr "Austin"); ("limit", JNum 40)])
                ledger) as (_ & _ & Hok).
    destruct (Hok (mkCampaignCommand "plumbers" "Austin" 40)) as (Hrun & _);
      [reflexivity | reflexivity | reflexivity
      | by vm_compute | by vm_compute | cbn; lia |].
    exact Hrun.
  - destruct (campaign_command_starts_the_pipeline fakeProviders (fun _ => JNull)
                (JObj [("niche", JStr "é"); ("city", JStr "Austin"); ("limit", JNum 40)])
                ledger) as (_ & Hbad & _).
    apply Hbad. reflexivity.
Defined.

(** ** The outreach sequence *)

Lemma emailKey_ne_callKey k step attempt : emailKey k step ≠ callKey k attempt.
Proof. unfold emailKey, callKey. rewrite !append_cons. discriminate. Qed.

Lemma emailKey_step_inj k : emailKey k One ≠ emailKey k Two.
Proof.
  unfold emailKey. intros H. do 2 apply (inj (String.app _)) in H. discriminate H.
Qed.

(** A Call job whose key holds a committed result is a logged skip. *)
Lemma processCallJob_committed P w lead attempt row value :
  find (hasId (id lead)) (leads w) = Some lead →
  doNotContact lead = false →
  truthy (phone lead) = true →
  callAttempts lead < 2 →
  idempotencyKeys w !! callKey (id lead) attempt = Some row →
  committedValue (ik_result row) = Some value →
  processCallJob P (id lead) attempt w
  = (Ok tt,
     set_console
       (fun c => c ++ [logLine (campaignId lead) (id lead) "caller"
                         ("idempotency skip for attempt " +:+ num_str attempt)]) w).
Proof.
  intros Hfind Hdnc Hphone Hcount Hkey Hval. unfold processCallJob.
  run_with ltac:(unfold lead_findUnique, gets; rewrite Hfind; reflexivity).
  rewrite Hdnc, Hphone. cbn [negb].
  destruct (callAttempts lead >=? 2) eqn:Hge; [lia|].
  run_with ltac:(apply (runIdempotentStage_cached (callStage P lead attempt) w row value);
                 [exact Hkey | exact Hval]).
  reflexivity.
Qed.

(** X24.  The outreach sequence.  For a lead that is due (contactable, with
    email, demo url and phone, nothing sent and no call placed yet, no key
    claimed) and providers that answer, the deliveries Email step 1, its
    follow-up call, Email step 2 and the follow-up call of step 2 make exactly
    three provider calls: the two emails and one call.  The second follow-up
    carries [attempt: 1] again, so it meets the committed key of the first
    call and is skipped.  The lead ends with two emails sent and one call
    attempt, in status EMAILED_1, which the second email wrote over CALLED_1;
    both follow-up jobs were queued with the 30 minute delay. *)
Theorem outreach_makes_three_provider_calls
    (P : Providers) (zodDetails : Json → Json)
    (send : list ProviderAction → EmailSendInput → string)
    (place : list ProviderAction → PlaceCallInput → string)
    (lead : Lead) (w : World) :
  find (hasId (id lead)) (leads w) = Some lead →
  campaignExists (campaignId lead) w = true →
  doNotContact lead = false →
  truthy (email lead) = true →
  truthy (demoUrl lead) = true →
  truthy (phone lead) = true →
  emailSentCount lead = 0 →
  callAttempts lead = 0 →
  idempotencyKeys w !! emailKey (id lead) One = None →
  idempotencyKeys w !! emailKey (id lead) Two = None →
  idempotencyKeys w !! callKey (id lead) One = None →
  (∀ sent input, sendEmail P sent input = Ok (send sent input)) →
  (∀ placed input, placeCall P placed input = Ok (place placed input)) →
  let w' := deliverAll P zodDetails (outreach (id lead)) w in
  outbox w'
  = outbox w ++ [SentEmail (emailInput lead One);
                 PlacedCall (callInput P lead);
                 SentEmail (emailInput lead Two)]
  ∧ jobs w' = jobs w ++ [followUpCall (id lead); followUpCall (id lead)]
  ∧ ∃ final,
      find (hasId (id lead)) (leads w') = Some final
      ∧ emailSentCount final = 2
      ∧ callAttempts final = 1
      ∧ status final = EMAILED_1.
Proof.
  intros Hfind Hcamp Hdnc Hemail Hdemo Hphone Hsent Hcalls Hk1 Hk2 Hkc Hsend Hplace w'.
  set (lead1 := applyData emailData lead).
  set (lead2 := applyData callData lead1).
  set (lead3 := applyData emailData lead2).
  set (m1 := send (outbox w) (emailInput lead One)).
  set (w1 := afterEmail P lead One m1 w).
  set (c1 := place (outbox w1) (callInput P lead1)).
  set (w2 := afterCall P lead1 One c1 w1).
  set (m2 := send (outbox w2) (emailInput lead2 Two)).
  set (w3 := afterEmail P lead2 Two m2 w2).
  assert (Hne1 := emailKey_ne_callKey (id lead) One One).
  assert (Hne2 := emailKey_ne_callKey (id lead) Two One).
  assert (Hne3 := emailKey_step_inj (id lead)).
  assert (Hstep1 : processEmailJob P (id lead) One w = (Ok tt, w1)).
  { apply (processEmailJob_first P w lead One m1); try done;
      try (cbn; lia); apply Hsend. }
  assert (Hfind1 : find (hasId (id lead1)) (leads w1) = Some lead1).
  { change (id lead1) with (id lead). unfold w1, lead1. by apply afterEmail_row. }
  assert (Hstep2 : processCallJob P (id lead) One w1 = (Ok tt, w2)).
  { apply (processCallJob_first P w1 lead1 One c1); try done;
      try (cbn; lia); try apply Hplace.
    unfold w1, afterEmail. cbn [idempotencyKeys set_console set_idempotencyKeys set_jobs
      set_events set_leads set_outbox].
    change (id lead1) with (id lead). by rewrite !lookup_insert_ne. }
  assert (Hfind2 : find (hasId (id lead2)) (leads w2) = Some lead2).
  { change (id lead2) with (id lead1). unfold w2, lead2. by apply afterCall_row. }
  assert (Hkeys2 : idempotencyKeys w2
                   = <[callKey (id lead) One :=
                         committedRow (callStage P lead1 One) (JObj [("callId", JStr c1)])]>
                       (<[callKey (id lead) One := claimRow (callStage P lead1 One)]>
                          (idempotencyKeys w1))) by reflexivity.
  assert (Hstep3 : processEmailJob P (id lead) Two w2 = (Ok tt, w3)).
  { apply (processEmailJob_first P w2 lead2 Two m2); try done;
      try (cbn; lia); try apply Hsend.
    rewrite Hkeys2. change (id lead2) with (id lead).
    rewrite !lookup_insert_ne by congruence.
    unfold w1, afterEmail. cbn [idempotencyKeys set_console set_idempotencyKeys set_jobs
      set_events set_leads set_outbox].
    by rewrite !lookup_insert_ne by congruence. }
  assert (Hfind3 : find (hasId (id lead3)) (leads w3) = Some lead3).
  { change (id lead3) with (id lead2). unfold w3, lead3. by apply afterEmail_row. }
  assert (Hstep4 : ∃ line, processCallJob P (id lead) One w3
                           = (Ok tt, set_console (fun c => c ++ [line]) w3)).
  { eexists.
    apply (processCallJob_committed P w3 lead3 One
             (committedRow (callStage P lead1 One) (JObj [("callId", JStr c1)]))
             (JObj [("callId", JStr c1)])); try done; try (cbn; lia).
    unfold w3, afterEmail. cbn [idempotencyKeys set_console set_idempotencyKeys set_jobs
      set_events set_leads set_outbox].
    change (id lead3) with (id lead). change (id lead2) with (id lead).
    rewrite !lookup_insert_ne by congruence. rewrite Hkeys2. apply lookup_insert_eq. }
  destruct Hstep4 as (line & Hstep4).
  assert (Hall : w' = set_console (fun c => c ++ [line]) w3).
  { unfold w', deliverAll, outreach. cbn [fold_left handle].
    rewrite Hstep1. cbn [snd]. rewrite Hstep2. cbn [snd]. rewrite Hstep3. cbn [snd].
    by rewrite Hstep4. }
  rewrite Hall. split; [|split].
  - unfold w3, afterEmail, w2, afterCall, w1, afterEmail.
    cbn [outbox set_console set_idempotencyKeys set_jobs set_events set_leads set_outbox].
    by rewrite <- !app_assoc.
  - unfold w3, afterEmail, w2, afterCall, w1, afterEmail.
    cbn [jobs set_console set_idempotencyKeys set_jobs set_events set_leads set_outbox].
    by rewrite <- !app_assoc.
  - exists lead3. split; [exact Hfind3|]. cbn. repeat split; lia.
Qed.

Lemma outreach_makes_three_provider_calls_witness :
  length (outbox (deliverAll fakeProviders (fun _ => JNull) (outreach "L1") ledger)) = 3%nat.
Proof.
  destruct (outreach_makes_three_provider_calls fakeProviders (fun _ => JNull)
              (fun sent input => "fake-" +:+ pretty (length sent))
              (fun placed input => "fake-call-" +:+ pretty (length placed))
              acme ledger) as (Hout & _).
  - reflexivity.
  - reflexivity.
  - reflexivity.
  - reflexivity.
  - reflexivity.
  - reflexivity.
  - reflexivity.
  - reflexivity.
  - reflexivity.
  - reflexivity.
  - reflexivity.
  - reflexivity.
  - reflexivity.
  - change (id acme) with "L1" in Hout. by rewrite Hout.
Defined.

(** ** Deploy slugs *)

Lemma length_substring n s : (String.length (String.substring 0 n s) <= n)%nat.
Proof.
  revert s. induction n as [|n IH]; intros [|c s]; cbn; try lia. specialize (IH s). lia.
Qed.

Lemma allChars_substring p n s :
  allChars p s = true → allChars p (String.substring 0 n s) = true.
Proof.
  revert s. induction n as [|n IH]; intros [|c s]; cbn; try done.
  intros H. apply andb_true_iff in H as [-> H]. by apply IH.
Qed.

Lemma substring_short n s : (String.length s <= n)%nat → String.substring 0 n s = s.
Proof.
  revert s. induction n as [|n IH]; intros [|c s]; cbn; try done; try lia.
  intros H. f_equal. apply IH. lia.
Qed.

Lemma startsWithDash_substring n s :
  startsWithDash s = false → startsWithDash (String.substring 0 n s) = false.
Proof. destruct n, s; cbn; done. Qed.

Lemma hasDoubleDash_substring n s :
  hasDoubleDash s = false → hasDoubleDash (String.substring 0 n s) = false.
Proof.
  revert s. induction n as [|n IH]; intros [|c s]; cbn [String.substring hasDoubleDash]; try done.
  intros H. apply orb_false_iff in H as [Hc Hs]. rewrite (IH s Hs), orb_false_r.
  destruct (isDash c); [|done]. cbn in *. by apply startsWithDash_substring.
Qed.

Lemma allChars_dashOthers s : allChars isSlugChar (dashOthers s) = true.
Proof.
  induction s as [|c s IH]; [done|]. cbn. rewrite IH, andb_true_r.
  destruct (isSlugChar c) eqn:Hc; [exact Hc|reflexivity].
Qed.

Lemma allChars_collapseDashes p inRun s :
  allChars p s = true → allChars p (collapseDashes inRun s) = true.
Proof.
  revert inRun. induction s as [|c s IH]; intros inRun; [done|]. cbn.
  intros H. apply andb_true_iff in H as [Hc H].
  destruct (isDash c); [destruct inRun|]; cbn; rewrite ?Hc; by apply IH.
Qed.

Lemma allChars_stripLeadingDash p s :
  allChars p s = true → allChars p (stripLeadingDash s) = true.
Proof.
  destruct s as [|c s]; [done|]. cbn. intros H.
  destruct (isDash c); [|exact H]. by apply andb_true_iff in H as [_ H].
Qed.

Lemma allChars_stripTrailingDash p s :
  allChars p s = true → allChars p (stripTrailingDash s) = true.
Proof.
  induction s as [|c s IH]; [done|]. cbn [stripTrailingDash allChars].
  intros H. apply andb_true_iff in H as [Hc H].
  destruct s as [|d s]; [by destruct (isDash c); cbn; rewrite ?Hc|].
  cbn [allChars]. rewrite Hc. by apply IH.
Qed.

Lemma startsWithDash_collapse s :
  startsWithDash (collapseDashes true s) = false.
Proof.
  induction s as [|c s IH]; [done|]. cbn. destruct (isDash c) eqn:Hc; [exact IH|].
  cbn. exact Hc.
Qed.

Lemma hasDoubleDash_collapse inRun s : hasDoubleDash (collapseDashes inRun s) = false.
Proof.
  revert inRun. induction s as [|c s IH]; intros inRun; [done|]. cbn.
  destruct (isDash c) eqn:Hc; [destruct inRun|]; cbn [hasDoubleDash]; rewrite ?IH, ?Hc;
    try done.
  by rewrite startsWithDash_collapse.
Qed.

Lemma stripLeadingDash_clean s :
  hasDoubleDash s = false →
  hasDoubleDash (stripLeadingDash s) = false ∧ startsWithDash (stripLeadingDash s) = false.
Proof.
  destruct s as [|c s]; [done|]. cbn. intros H. apply orb_false_iff in H as [Hc Hs].
  destruct (isDash c) eqn:Hd.
  - split; [exact Hs|]. exact Hc.
  - split; [|exact Hd]. cbn. by rewrite Hd, Hs.
Qed.

Lemma startsWithDash_stripTrailing s :
  startsWithDash s = false → startsWithDash (stripTrailingDash s) = false.
Proof.
  destruct s as [|c [|d s]]; cbn; try done. intros H. rewrite H. exact H.
Qed.

Lemma hasDoubleDash_stripTrailing s :
  hasDoubleDash s = false → hasDoubleDash (stripTrailingDash s) = false.
Proof.
  induction s as [|c s IH]; [done|]. cbn [stripTrailingDash hasDoubleDash].
  intros H. apply orb_false_iff in H as [Hc Hs].
  destruct s as [|d s]; [by destruct (isDash c); cbn; rewrite ?andb_false_r|].
  cbn [hasDoubleDash]. rewrite (IH Hs), orb_false_r.
  destruct (isDash c); [|done]. cbn [andb] in *.
  destruct s as [|e s]; [|exact Hc]. cbn in Hc |- *. by rewrite Hc.
Qed.

Lemma lowerAlnum_fixed s :
  allChars isLowerAlnum s = true →
  toLowerCase s = s ∧ dashOthers s = s ∧ (∀ inRun, collapseDashes inRun s = s)
  ∧ stripLeadingDash s = s ∧ stripTrailingDash s = s.
Proof.
  assert (Hchar : ∀ c, isLowerAlnum c = true →
                       lower_ascii c = c ∧ isSlugChar c = true ∧ isDash c = false).
  { intros c. by destruct c as [[] [] [] [] [] [] [] []]. }
  induction s as [|c s IH]; [done|]. cbn [allChars]. intros H.
  apply andb_true_iff in H as [Hc Hs]. destruct (Hchar c Hc) as (Hl & Hslug & Hdash).
  destruct (IH Hs) as (IH1 & IH2 & IH3 & IH4 & IH5).
  cbn. rewrite Hl, Hslug, Hdash, IH1, IH2. repeat split; try done.
  - intros inRun. by rewrite IH3.
  - destruct s; [done|]. by rewrite IH5.
Qed.

Lemma sanitizeSlug_spec value :
  (String.length (sanitizeSlug value) <= 48)%nat
  ∧ allChars isSlugChar (sanitizeSlug value) = true
  ∧ startsWithDash (sanitizeSlug value) = false
  ∧ hasDoubleDash (sanitizeSlug value) = false.
Proof.
  unfold sanitizeSlug.
  set (collapsed := collapseDashes false (dashOthers (toLowerCase value))).
  assert (Hchars : allChars isSlugChar collapsed = true)
    by (apply allChars_collapseDashes, allChars_dashOthers).
  destruct (stripLeadingDash_clean collapsed (hasDoubleDash_collapse _ _)) as [Hdd Hstart].
  split; [apply length_substring|]. split; [|split].
  - by apply allChars_substring, allChars_stripTrailingDash, allChars_stripLeadingDash.
  - by apply startsWithDash_substring, startsWithDash_stripTrailing.
  - by apply hasDoubleDash_substring, hasDoubleDash_stripTrailing.
Qed.

Lemma sanitizeSlug_fixed value :
  allChars isLowerAlnum value = true → (String.length value <= 48)%nat →
  sanitizeSlug value = value.
Proof.
  intros Hchars Hlen. destruct (lowerAlnum_fixed value Hchars) as (H1 & H2 & H3 & H4 & H5).
  unfold sanitizeSlug. rewrite H1, H2, H3, H4, H5. by apply substring_short.
Qed.

(** X25.  Deploy slugs.  [sanitizeSlug] always returns at most 48
    characters, all of them lower-case letters, digits or dashes, with no
    dash in first place and no two dashes in a row; a name that already
    consists of at most 48 lower-case letters and digits is returned as it is,
    so the local deploy provider publishes such a lead id under
    [http://localhost:3000/demo/<id>]. *)
Theorem sanitizeSlug_makes_a_slug (value : string) :
  (String.length (sanitizeSlug value) <= 48)%nat
  ∧ allChars isSlugChar (sanitizeSlug value) = true
  ∧ startsWithDash (sanitizeSlug value) = false
  ∧ hasDoubleDash (sanitizeSlug value) = false
  ∧ (allChars isLowerAlnum value = true → (String.length value <= 48)%nat →
     sanitizeSlug value = value
     ∧ localDemoUrl value = "http://localhost:3000/demo/" +:+ value).
Proof.
  destruct (sanitizeSlug_spec value) as (Hlen & Hchars & Hstart & Hdd).
  split; [exact Hlen|]. split; [exact Hchars|]. split; [exact Hstart|]. split; [exact Hdd|].
  intros Hclean Hshort. pose proof (sanitizeSlug_fixed value Hclean Hshort) as Hfix.
  split; [exact Hfix|]. unfold localDemoUrl. by rewrite Hfix.
Qed.

Lemma sanitizeSlug_makes_a_slug_witness :
  localDemoUrl "clx9mock0001" = "http://localhost:3000/demo/clx9mock0001".
Proof.
  destruct (sanitizeSlug_makes_a_slug "clx9mock0001") as (_ & _ & _ & _ & Hfix).
  destruct Hfix as [_ Hurl]; [reflexivity | cbn; lia |]. exact Hurl.
Defined.

Lemma processDeployJob_deploy_fails P lead zip injected e w :
  find (hasId (id lead)) (leads w) = Some lead →
  status lead = IMAGES_READY →
  latestBundle lead w = Some zip →
  injectImageUrls P zip (heroImageUrl lead) (serviceImageUrls lead) = Ok injected →
  deploy P injected (id lead) = Throw e →
  processDeployJob P (id lead) w = (Throw e, w).
Proof.
  intros Hfind Hstatus Hzip Hinject Hdeploy. unfold processDeployJob.
  run_with ltac:(unfold lead_findUnique, gets; rewrite Hfind; reflexivity).
  rewrite bool_decide_eq_true_2 by exact Hstatus. cbn [negb].
  run_with ltac:(unfold event_findLatest, gets; reflexivity).
  unfold latestBundle in Hzip. rewrite Hzip.
  run_with ltac:(unfold liftR; rewrite Hinject; reflexivity).
  erewrite bind_throw by (unfold liftR; rewrite Hdeploy; reflexivity). reflexivity.
Qed.

(** X26.  With [DEPLOY_PROVIDER] set to "cloudflare" in any letter case the
    deploy provider is the Cloudflare adapter, which is not implemented: a
    Deploy job for a lead that is IMAGES_READY and has a bundle throws
    [Cloudflare deploy adapter is not implemented yet for project <name>] and
    leaves the world as it was, so no lead is ever DEPLOYED and no Email job
    is queued.  With the variable unset or set to anything else the local
    provider is used. *)
Theorem cloudflare_deploy_always_fails
    (env project : option string) (local : string → string → Result string)
    (P : Providers) (lead : Lead) (zip injected : string) (w : World) :
  (String.eqb (toLowerCase (default "local" env)) "cloudflare" = false →
   resolveDeployProvider env project local = local)
  ∧ (String.eqb (toLowerCase (default "local" env)) "cloudflare" = true →
     find (hasId (id lead)) (leads w) = Some lead →
     status lead = IMAGES_READY →
     latestBundle lead w = Some zip →
     injectImageUrls P zip (heroImageUrl lead) (serviceImageUrls lead) = Ok injected →
     processDeployJob (withDeploy (resolveDeployProvider env project local) P) (id lead) w
     = (Throw ("Cloudflare deploy adapter is not implemented yet for project "
                 +:+ default "" project), w)).
Proof.
  split.
  - intros Henv. unfold resolveDeployProvider. by rewrite Henv.
  - intros Henv Hfind Hstatus Hzip Hinject.
    apply (processDeployJob_deploy_fails _ lead zip injected); try done.
    cbn. unfold resolveDeployProvider. by rewrite Henv.
Qed.

Lemma cloudflare_deploy_always_fails_witness :
  processDeployJob
    (withDeploy (resolveDeployProvider (Some "Cloudflare") (Some "demo-sites")
                   (deploy fakeProviders)) fakeProviders)
    "L1" readyToDeploy
  = (Throw "Cloudflare deploy adapter is not implemented yet for project demo-sites",
     readyToDeploy).
Proof.
  destruct (cloudflare_deploy_always_fails (Some "Cloudflare") (Some "demo-sites")
              (deploy fakeProviders) fakeProviders acmeImagesReady
              "/tmp/L1.zip" "/tmp/L1.zip-ready.zip" readyToDeploy) as [_ Hfails].
  apply Hfails; reflexivity.
Defined.

(** ** Site bundles *)

Lemma allChars_keepChars p s : allChars p (keepChars p s) = true.
Proof.
  induction s as [|c s IH]; [done|]. cbn. destruct (p c) eqn:Hc; [|exact IH].
  cbn. by rewrite Hc, IH.
Qed.

Lemma keepChars_fixed p s : allChars p s = true → keepChars p s = s.
Proof.
  induction s as [|c s IH]; [done|]. cbn. intros H. apply andb_true_iff in H as [-> H].
  by rewrite IH.
Qed.

Lemma sanitizeFileSegment_fixed value :
  allChars isFileChar value = true → (String.length value <= 64)%nat →
  sanitizeFileSegment value = value.
Proof.
  intros Hchars Hlen. unfold sanitizeFileSegment. rewrite keepChars_fixed by done.
  by apply substring_short.
Qed.

Lemma latestBundle_afterSite lead output w :
  zipPath output ≠ "" →
  latestBundle (applyData siteData lead) (afterSite lead output w) = Some (zipPath output).
Proof.
  intros Hzip. unfold latestBundle, afterSite.
  cbn [events set_console set_jobs set_events set_leads].
  rewrite rev_app_distr. cbn [rev app find].
  change (campaignId (applyData siteData lead)) with (campaignId lead).
  change (id (applyData siteData lead)) with (id lead).
  unfold siteEvent. rewrite eventMatches_own. unfold bundleOf. cbn.
  by destruct (zipPath output).
Qed.

(** X27.  Bundles of the fake site builder.  [sanitizeFileSegment] keeps at
    most 64 characters, all of them letters, digits, underscores or dashes,
    and returns a name of that form unchanged.  The builder writes to
    [/tmp/<segment>.zip] and returns that path, so two lead ids of that form
    get different bundles, and a failure to write is passed on.  After a
    Site-Generate job with this builder the bundle Deploy looks up for the
    lead is the one just written: Deploy's check for a bundle cannot fail
    then. *)
Theorem site_bundle_is_found_by_deploy
    (P : Providers) (writeZip : string → Result unit) (lead : Lead) (campaign : Campaign)
    (w : World) :
  let segment := sanitizeFileSegment (id lead) in
  let bundle := "/tmp/" +:+ segment +:+ ".zip" in
  (String.length segment <= 64)%nat
  ∧ allChars isFileChar segment = true
  ∧ (∀ other,
        allChars isFileChar (id lead) = true → (String.length (id lead) <= 64)%nat →
        allChars isFileChar other = true → (String.length other <= 64)%nat →
        "/tmp/" +:+ sanitizeFileSegment other +:+ ".zip" = bundle → other = id lead)
  ∧ (find (hasId (id lead)) (leads w) = Some lead →
     campaigns w !! campaignId lead = Some campaign →
     generateSite P = fakeOpenClawClient writeZip →
     (∀ e, writeZip bundle = Throw e → processSiteJob P (id lead) w = (Throw e, w))
     ∧ (writeZip bundle = Ok tt →
        ∃ output,
          zipPath output = bundle
          ∧ processSiteJob P (id lead) w = (Ok tt, afterSite lead output w)
          ∧ latestBundle (applyData siteData lead) (afterSite lead output w) = Some bundle)).
Proof.
  intros segment bundle.
  split; [apply length_substring|].
  split; [apply allChars_substring, allChars_keepChars|]. split.
  - intros other Hc1 Hl1 Hc2 Hl2 Heq. unfold bundle, segment in Heq.
    rewrite !sanitizeFileSegment_fixed in Heq by done.
    apply (inj (String.app _)) in Heq. by apply append_inj_r in Heq.
  - intros Hfind Hcamp Hbuilder.
    assert (Hgen : generateSite P (siteInput lead campaign w)
                   = match writeZip bundle with
                     | Throw e => Throw e
                     | Ok _ =>
                         Ok (mkGenerateSiteOutput bundle
                               ("Generated MVP static site bundle for "
                                  +:+ default "Local Contractor" (businessName lead)))
                     end).
    { rewrite Hbuilder. reflexivity. }
    split.
    + intros e He. apply processSiteJob_fails with campaign; try done.
      by rewrite Hgen, He.
    + intros Hok. rewrite Hok in Hgen.
      exists (mkGenerateSiteOutput bundle
                ("Generated MVP static site bundle for "
                   +:+ default "Local Contractor" (businessName lead))).
      split; [|split].
      * reflexivity.
      * by apply processSiteJob_ok with campaign.
      * apply latestBundle_afterSite. cbn [zipPath]. unfold bundle.
        rewrite append_cons. discriminate.
Qed.

Lemma site_bundle_is_found_by_deploy_witness :
  processSiteJob (withSiteBuilder (fakeOpenClawClient (fun _ => Throw "ENOSPC")) fakeProviders)
    "L1" ledger
  = (Throw "ENOSPC", ledger).
Proof.
  destruct (site_bundle_is_found_by_deploy
              (withSiteBuilder (fakeOpenClawClient (fun _ => Throw "ENOSPC")) fakeProviders)
              (fun _ => Throw "ENOSPC") acme dallas ledger) as (_ & _ & _ & Hjob).
  destruct Hjob as [Hfails _]; [reflexivity | reflexivity | reflexivity |].
  apply (Hfails "ENOSPC"). reflexivity.
Defined.

(** ** Campaign metrics *)

Lemma rowGrows_refl l : rowGrows l l.
Proof. unfold rowGrows. repeat split; auto; lia. Qed.

Lemma rowGrows_trans l1 l2 l3 : rowGrows l1 l2 → rowGrows l2 l3 → rowGrows l1 l3.
Proof.
  unfold rowGrows. intros (Hc & Hi & Hb & Hd & He & Ha) (Hc' & Hi' & Hb' & Hd' & He' & Ha').
  repeat split; try congruence; try lia. auto.
Qed.

Lemma applyField_grows d f l : allowed d f = true → rowGrows l (applyField f l).
Proof.
  unfold rowGrows. destruct f; cbn; intros H; repeat split; auto; lia.
Qed.

Lemma applyData_grows d data l : forallb (allowed d) data = true → rowGrows l (applyData data l).
Proof.
  unfold applyData. revert l. induction data as [|f data IH]; intros l H.
  - apply rowGrows_refl.
  - cbn in H. apply andb_true_iff in H as [Hf Hdata]. cbn [fold_left].
    apply rowGrows_trans with (applyField f l); [by apply applyField_grows with d|by apply IH].
Qed.

Lemma tableGrows_refl rows : tableGrows rows rows.
Proof.
  exists rows, []. rewrite app_nil_r. split; [done|].
  induction rows; constructor; [apply rowGrows_refl|done].
Qed.

Lemma tableGrows_update d rows0 : updateKeeps d (tableGrows rows0).
Proof.
  intros k data rows Hdata (updated & inserted & -> & Hupd).
  exists (updateRows k data updated), (updateRows k data inserted).
  split; [unfold updateRows; by rewrite map_app|].
  clear inserted. induction Hupd as [|l l' r r' Hl Hr IH]; [constructor|].
  cbn. constructor; [|exact IH].
  destruct (hasId k l'); [|exact Hl].
  apply rowGrows_trans with l'; [exact Hl|by apply applyData_grows with d].
Qed.

Lemma tableGrows_insert rows0 : insertKeeps (tableGrows rows0).
Proof.
  intros c rows _ _ (updated & inserted & -> & Hupd).
  exists updated, (inserted ++ [newLead (newLeadId (updated ++ inserted)) c]).
  split; [by rewrite app_assoc|done].
Qed.

Lemma tableGrows_deliverAll P zodDetails ds : ∀ w rows0,
  tableGrows rows0 (leads w) → tableGrows rows0 (leads (deliverAll P zodDetails ds w)).
Proof.
  induction ds as [|d ds IH]; intros w rows0 H; [exact H|].
  cbn [deliverAll fold_left]. apply IH.
  exact (keeps_handle (tableGrows rows0) P zodDetails d (tableGrows_update d rows0)
           (fun _ => tableGrows_insert rows0) w H).
Qed.

Lemma lead_count_grows c (p : Lead → bool) rows rows' :
  tableGrows rows rows' →
  (∀ l l', rowGrows l l' → p l = true → p l' = true) →
  lead_count c p rows <= lead_count c p rows'.
Proof.
  intros (updated & inserted & -> & Hupd) Hp. unfold lead_count.
  rewrite List.filter_app, length_app.
  assert (length (List.filter (fun l => String.eqb (campaignId l) c && p l) rows)
          <= length (List.filter (fun l => String.eqb (campaignId l) c && p l) updated))%nat;
    [|lia].
  induction Hupd as [|l l' r r' Hl Hr IH]; [done|]. cbn [List.filter].
  destruct (String.eqb (campaignId l) c && p l) eqn:Hq.
  - apply andb_true_iff in Hq as [Hc Hpl].
    assert (String.eqb (campaignId l') c && p l' = true) as ->.
    { apply andb_true_iff. split; [|by apply (Hp l l')].
      destruct Hl as (-> & _). exact Hc. }
    cbn [length]. lia.
  - destruct (String.eqb (campaignId l') c && p l'); cbn [length]; lia.
Qed.

Lemma lead_count_le_total c p rows : 0 <= lead_count c p rows <= lead_count c (fun _ => true) rows.
Proof.
  unfold lead_count. split; [lia|]. apply inj_le.
  induction rows as [|l rows IH]; [done|]. cbn [List.filter].
  destruct (String.eqb (campaignId l) c); cbn [andb]; [|exact IH].
  destruct (p l); cbn [length]; lia.
Qed.

(** X28.  Campaign metrics.  The metrics request writes nothing: an empty
    id gets 400 [Campaign id is required], an unknown one 404
    [Campaign not found], a known one 200 with the counts of its leads.  Every
    count lies between 0 and [leadsTotal].  And whatever is delivered between
    two requests (jobs of every stage and webhooks, in any order), the counts
    [leadsTotal], [emailed], [called], [interested], [booked] and
    [doNotContact] of a campaign never go down. *)
Theorem campaign_metrics_never_go_down
    (P : Providers) (zodDetails : Json → Json) (ds : list Delivery) (c : string) (w : World) :
  snd (getCampaignMetricsHandler c w) = w
  ∧ (c = "" →
     fst (getCampaignMetricsHandler c w)
     = Ok (mkResponse 400 (JObj [("error", JStr "Campaign id is required")])))
  ∧ (c ≠ "" → campaigns w !! c = None →
     fst (getCampaignMetricsHandler c w)
     = Ok (mkResponse 404 (JObj [("error", JStr "Campaign not found")])))
  ∧ (∀ campaign, c ≠ "" → campaigns w !! c = Some campaign →
       fst (getCampaignMetricsHandler c w)
       = Ok (mkResponse 200
               (metricsBody (campaignMetrics c (leads w)) (c_niche campaign)
                  (c_city campaign))))
  ∧ (let m := campaignMetrics c (leads w) in
     0 <= m_liveSites m <= m_leadsTotal m
     ∧ 0 <= m_emailed m <= m_leadsTotal m
     ∧ 0 <= m_called m <= m_leadsTotal m
     ∧ 0 <= m_interested m <= m_leadsTotal m
     ∧ 0 <= m_booked m <= m_leadsTotal m
     ∧ 0 <= m_doNotContact m <= m_leadsTotal m)
  ∧ countsGrow (campaignMetrics c (leads w))
      (campaignMetrics c (leads (deliverAll P zodDetails ds w))).
Proof.
  split; [|split; [|split; [|split; [|split]]]].
  - unfold getCampaignMetricsHandler. destruct c as [|ch c]; [done|]. cbn [truthy negb].
    unfold bind, campaign_findUnique, gets. by destruct (campaigns w !! String ch c).
  - by intros ->.
  - intros Hc Hnone. unfold getCampaignMetricsHandler.
    rewrite (truthy_nonempty c Hc). cbn [negb].
    unfold bind, campaign_findUnique, gets. by rewrite Hnone.
  - intros campaign Hc Hsome. unfold getCampaignMetricsHandler.
    rewrite (truthy_nonempty c Hc). cbn [negb].
    unfold bind, campaign_findUnique, gets. by rewrite Hsome.
  - cbv zeta. unfold campaignMetrics. cbn [m_leadsTotal m_liveSites m_emailed m_called
      m_interested m_booked m_doNotContact].
    repeat split; apply lead_count_le_total.
  - pose proof (tableGrows_deliverAll P zodDetails ds w (leads w) (tableGrows_refl _)) as Hgrow.
    unfold countsGrow, campaignMetrics. cbn [m_leadsTotal m_emailed m_called
      m_interested m_booked m_doNotContact].
    repeat split; apply lead_count_grows; try exact Hgrow.
    + done.
    + intros l l' (_ & _ & _ & _ & He & _) H. apply Z.ltb_lt in H. apply Z.ltb_lt. lia.
    + intros l l' (_ & _ & _ & _ & _ & Ha) H. apply Z.ltb_lt in H. apply Z.ltb_lt. lia.
    + intros l l' (_ & Hi & _) H. congruence.
    + intros l l' (_ & _ & Hb & _) H. congruence.
    + intros l l' (_ & _ & _ & Hd & _) H. by apply Hd.
Qed.

Lemma campaign_metrics_never_go_down_witness :
  fst (getCampaignMetricsHandler "C404" ledger)
  = Ok (mkResponse 404 (JObj [("error", JStr "Campaign not found")])).
Proof.
  destruct (campaign_metrics_never_go_down fakeProviders (fun _ => JNull) [] "C404" ledger)
    as (_ & _ & Hmissing & _).
  apply Hmissing; [discriminate|reflexivity].
Defined.
